(** * arb-scanner: calculator, matcher, adapters, retry driver, cache, alerts

    A shallow embedding of the TypeScript sources of the prediction-market
    arbitrage scanner, with the properties stated by its specification.

    Conventions of the embedding
    - [Decimal.t] models the values of decimal.js under its default
      configuration ([precision = 20], [rounding = ROUND_HALF_UP]): the result
      of every arithmetic method is rounded to 20 significant digits, the
      constructor keeps all digits.  A finite value is a coefficient and a
      power of ten; two representations of one value are interchangeable, and
      the comparison methods and [Decimal.eqv] work on values.  Signed zeros
      are not distinguished.
    - A JavaScript [number] that only carries a measurement (a fuzzy distance,
      an alert threshold) is modelled by its rational value.
    - Asynchronous code is modelled by explicit state passing over a [World]
      (cache contents and the trace of observable effects); the outcome of an
      external call (HTTP, webhook) is an argument of the model. *)

From Stdlib Require Import ZArith QArith Qround Lia Bool Ascii.
From stdpp Require Import base option list strings gmap.

Local Open Scope Z_scope.

(** ** decimal.js *)

Module Decimal.

Inductive t : Type :=
| Fin (c e : Z)        (* c * 10^e *)
| Inf (neg : bool)
| NaN.

(** [Decimal.precision], the number of significant digits of a result. *)
Definition precision : Z := 20.

Fixpoint ndigits_aux (fuel : nat) (n : Z) : Z :=
  match fuel with
  | O => 0
  | S f => if n <? 10 then 1 else 1 + ndigits_aux f (n / 10)
  end.

(** Number of decimal digits of a positive integer. *)
Definition ndigits (n : Z) : Z := ndigits_aux (S (Z.to_nat (Z.log2 n))) n.

(** ROUND_HALF_UP of the non-negative ratio [n / d]: nearest integer, a tie
    goes away from zero. *)
Definition half_up (n d : Z) : Z := (2 * n + d) / (2 * d).

(** [finalise]: round the exact result [c * 10^e] to [precision]
    significant digits. *)
Definition finalise (c e : Z) : t :=
  if Z.abs c <? 10 ^ precision then Fin c e
  else
    let k := ndigits (Z.abs c) - precision in
    Fin (Z.sgn c * half_up (Z.abs c) (10 ^ k)) (e + k).

Definition of_Z (n : Z) : t := Fin n 0.

Definition neg (x : t) : t :=
  match x with
  | Fin c e => Fin (- c) e
  | Inf s => Inf (negb s)
  | NaN => NaN
  end.

Definition plus (x y : t) : t :=
  match x, y with
  | NaN, _ | _, NaN => NaN
  | Inf a, Inf b => if Bool.eqb a b then Inf a else NaN
  | Inf a, Fin _ _ => Inf a
  | Fin _ _, Inf b => Inf b
  | Fin c1 e1, Fin c2 e2 =>
      let e := Z.min e1 e2 in
      finalise (c1 * 10 ^ (e1 - e) + c2 * 10 ^ (e2 - e)) e
  end.

Definition minus (x y : t) : t := plus x (neg y).

Definition times (x y : t) : t :=
  match x, y with
  | NaN, _ | _, NaN => NaN
  | Inf a, Inf b => Inf (xorb a b)
  | Inf a, Fin c _ | Fin c _, Inf a =>
      if c =? 0 then NaN else Inf (xorb a (c <? 0))
  | Fin c1 e1, Fin c2 e2 => finalise (c1 * c2) (e1 + e2)
  end.

(** Quotient of two non-zero finite values: the scale [s] is the one at
    which the integer part of [|c1| * 10^s / |c2|] has [precision] digits,
    and the quotient at that scale is rounded half up. *)
Definition div_scale (n d : Z) : Z :=
  let s := precision + ndigits d - ndigits n in
  if (n * 10 ^ Z.max s 0) / (d * 10 ^ Z.max (- s) 0) <? 10 ^ precision
  then s else s - 1.

Definition div_fin (c1 e1 c2 e2 : Z) : t :=
  let n := Z.abs c1 in
  let d := Z.abs c2 in
  let s := div_scale n d in
  Fin (Z.sgn c1 * Z.sgn c2 * half_up (n * 10 ^ Z.max s 0) (d * 10 ^ Z.max (- s) 0))
      (e1 - e2 - s).

Definition dividedBy (x y : t) : t :=
  match x, y with
  | NaN, _ | _, NaN => NaN
  | Inf _, Inf _ => NaN
  | Inf a, Fin c _ => Inf (xorb a (c <? 0))
  | Fin _ _, Inf _ => Fin 0 0
  | Fin c1 e1, Fin c2 e2 =>
      if c2 =? 0 then (if c1 =? 0 then NaN else Inf (c1 <? 0))
      else if c1 =? 0 then Fin 0 0
      else div_fin c1 e1 c2 e2
  end.

(** [cmp]: the three-way comparison of two values; [None] when either is
    NaN. *)
Definition cmp (x y : t) : option comparison :=
  match x, y with
  | NaN, _ | _, NaN => None
  | Inf a, Inf b =>
      Some (if Bool.eqb a b then Eq else if a then Lt else Gt)
  | Inf a, Fin _ _ => Some (if a then Lt else Gt)
  | Fin _ _, Inf b => Some (if b then Gt else Lt)
  | Fin c1 e1, Fin c2 e2 =>
      let e := Z.min e1 e2 in
      Some (c1 * 10 ^ (e1 - e) ?= c2 * 10 ^ (e2 - e))
  end.

Definition greaterThan (x y : t) : bool :=
  match cmp x y with Some Gt => true | _ => false end.

Definition greaterThanOrEqualTo (x y : t) : bool :=
  match cmp x y with Some Gt | Some Eq => true | _ => false end.

Definition lessThanOrEqualTo (x y : t) : bool :=
  match cmp x y with Some Lt | Some Eq => true | _ => false end.

(** Equality of values ([Decimal.eq]). *)
Definition eqv (x y : t) : Prop := cmp x y = Some Eq.

Definition is_finite (x : t) : bool :=
  match x with Fin _ _ => true | _ => false end.

(** The rational value of a finite decimal. *)
Definition to_Q (x : t) : Q :=
  match x with
  | Fin c e => Qmake (c * 10 ^ Z.max e 0) (Z.to_pos (10 ^ Z.max (- e) 0))
  | _ => 0%Q
  end.

(** The rational [n * 10^-s]. *)
Definition q10 (s n : Z) : Q := Qmake n (Z.to_pos (10 ^ s)).

(** [repr s n x]: [x] is finite, has at most [s] decimal places, and its
    value is [n * 10^-s]. *)
Definition repr (s n : Z) (x : t) : Prop :=
  exists c e, x = Fin c e /\ - s <= e /\ n = c * 10 ^ (e + s).

(** [r] is, in value, [10^shift] times the quotient of [c1 * 10^e1] by
    [c2 * 10^e2] rounded half up to [precision] significant digits: its
    coefficient [q] is the integer nearest to the quotient taken at the
    scale where it has 20 digits. *)
Definition rounded_ratio (r : t) (c1 e1 c2 e2 shift : Z) : Prop :=
  exists q s,
    10 ^ 19 <= q <= 10 ^ precision
    /\ (let N := Z.abs c1 * 10 ^ Z.max s 0 in
        let D := Z.abs c2 * 10 ^ Z.max (- s) 0 in
        0 < D /\ 2 * D * q <= 2 * N + D < 2 * D * (q + 1))
    /\ eqv r (Fin (Z.sgn c1 * Z.sgn c2 * q) (e1 - e2 - s + shift)).

End Decimal.

(** ** Data model ([types.ts]) *)

Inductive Platform : Type := POLYMARKET | KALSHI | MANIFOLD.

#[global] Instance Platform_eq_dec : EqDecision Platform.
Proof. solve_decision. Defined.

(** A JavaScript [Date]: a time value in milliseconds, or an invalid date
    (whose [getTime()] is NaN). *)
Inductive JsDate : Type :=
| ValidDate (ms : Z)
| InvalidDate.

Record Outcome : Type := mkOutcome {
  name : string;
  price : Decimal.t;
}.

Record StandardMarket : Type := mkMarket {
  id : string;
  platform : Platform;
  title : string;
  outcomes : list Outcome;
  url : string;
  category : option string;
  endDate : option JsDate;
  liquidity : option Decimal.t;
}.

Inductive MatchedBy : Type := exact | fuzzy | manual.

Record MarketMatch : Type := mkMatch {
  marketA : StandardMarket;
  marketB : StandardMarket;
  score : Z;
  matchedBy : MatchedBy;
}.

(** [oppMarketA] and [oppMarketB] are the fields [marketA] and [marketB] of
    the opportunity. *)
Record ArbitrageOpportunity : Type := mkOpp {
  oppMarketA : StandardMarket;
  oppMarketB : StandardMarket;
  outcomeA : string;
  outcomeB : string;
  priceA : Decimal.t;
  priceB : Decimal.t;
  totalCost : Decimal.t;
  feesA : Decimal.t;
  feesB : Decimal.t;
  totalFees : Decimal.t;
  netCost : Decimal.t;
  profitMargin : Decimal.t;
  roi : Decimal.t;
  isProfitable : bool;
  timestamp : Z;
}.

(** ** Calculator ([calculator/index.ts]) *)

Module ArbitrageCalculator.

Record PlatformFees : Type := mkFees {
  feePlatform : Platform;
  tradingFee : Decimal.t;
}.

(** [new Decimal(0.02)], [new Decimal(0.07)], [new Decimal(0)]: a number is
    converted through its shortest decimal literal. *)
Definition platformFees : list PlatformFees :=
  [ mkFees POLYMARKET (Decimal.Fin 2 (-2));
    mkFees KALSHI (Decimal.Fin 7 (-2));
    mkFees MANIFOLD (Decimal.Fin 0 0) ].

Definition getFeeRate (p : Platform) : Decimal.t :=
  match List.find (fun f => bool_decide (feePlatform f = p)) platformFees with
  | Some feeConfig => tradingFee feeConfig
  | None => Decimal.of_Z 0
  end.

(** [calculateArbitrage]; the outer [None] is the TypeError of reading
    [.price] of a missing outcome, the inner one is the [null] result.
    [now] is the reading of the clock. *)
Definition calculateArbitrage (now : Z) (mA mB : StandardMarket)
    (outcomeIndexA outcomeIndexB : nat) : option (option ArbitrageOpportunity) :=
  match outcomes mA !! outcomeIndexA, outcomes mB !! outcomeIndexB with
  | Some oA, Some oB =>
      let pA := price oA in
      let pB := price oB in
      let total := Decimal.plus pA pB in
      if Decimal.greaterThanOrEqualTo total (Decimal.of_Z 1) then Some None
      else
        let feeRateA := getFeeRate (platform mA) in
        let feeRateB := getFeeRate (platform mB) in
        let fA := Decimal.times pA feeRateA in
        let fB := Decimal.times pB feeRateB in
        let fees := Decimal.plus fA fB in
        let net := Decimal.plus total fees in
        let margin := Decimal.minus (Decimal.of_Z 1) net in
        let profitable := Decimal.greaterThan margin (Decimal.of_Z 0) in
        let r := if profitable
                 then Decimal.times (Decimal.dividedBy margin net) (Decimal.of_Z 100)
                 else Decimal.of_Z 0 in
        Some (Some (mkOpp mA mB (name oA) (name oB) pA pB total fA fB fees net
                          margin r profitable now))
  | _, _ => None
  end.

(** The fee rates as the specification lists them. *)
Definition feeRate (p : Platform) : Q :=
  match p with
  | POLYMARKET => 2 # 100
  | KALSHI => 7 # 100
  | MANIFOLD => 0
  end.

(** The same rates in hundredths. *)
Definition ratePercent (p : Platform) : Z :=
  match p with
  | POLYMARKET => 2
  | KALSHI => 7
  | MANIFOLD => 0
  end.

(** The two buy directions of a binary pair: outcome indices on A and B. *)
Definition strategies : list (nat * nat) := [ (0, 1); (1, 0) ]%nat.

(** A price between 0 and 1 with at most 17 decimal places. *)
Definition price17 (p : Decimal.t) : Prop :=
  exists a, Decimal.repr 17 a p /\ 0 <= a <= 10 ^ 17.

(** What [calculateArbitrage] establishes about the flag and the ROI of an
    opportunity it builds. *)
Definition wellFormed (o : ArbitrageOpportunity) : Prop :=
  (isProfitable o = true <-> Decimal.greaterThan (profitMargin o) (Decimal.of_Z 0) = true) /\
  (isProfitable o = true ->
   roi o = Decimal.times (Decimal.dividedBy (profitMargin o) (netCost o)) (Decimal.of_Z 100)) /\
  (isProfitable o = false -> roi o = Decimal.of_Z 0).

Definition push_opt {A} (acc : list A) (o : option A) : list A :=
  match o with Some x => acc ++ [x] | None => acc end.

(** [analyzeMarketPair]: both strategies of a binary pair. *)
Definition analyzeMarketPair (now : Z) (m : MarketMatch)
    : option (list ArbitrageOpportunity) :=
  let mA := marketA m in
  let mB := marketB m in
  if negb (length (outcomes mA) =? 2)%nat || negb (length (outcomes mB) =? 2)%nat
  then Some []
  else
    opp1 ← calculateArbitrage now mA mB 0 1;
    opp2 ← calculateArbitrage now mA mB 1 0;
    Some (push_opt (push_opt [] opp1) opp2).

(** The loop of [findArbitrageOpportunities]: every strategy result. *)
Fixpoint allStrategies (now : Z) (matches : list MarketMatch)
    : option (list ArbitrageOpportunity) :=
  match matches with
  | [] => Some []
  | m :: rest =>
      opps ← analyzeMarketPair now m;
      more ← allStrategies now rest;
      Some (opps ++ more)
  end.

Definition findArbitrageOpportunities (now : Z) (matches : list MarketMatch)
    : option (list ArbitrageOpportunity) :=
  opportunities ← allStrategies now matches;
  Some (List.filter isProfitable opportunities).

(** The net cost of a strategy in units of 10^-19, for prices [a] and [b] in
    units of 10^-17 and fee rates in hundredths. *)
Definition netUnits (mA mB : StandardMarket) (a b : Z) : Z :=
  (a + b) * 100 + (a * ratePercent (platform mA) + b * ratePercent (platform mB)).

End ArbitrageCalculator.

(** ** JavaScript numbers *)

(** A [number] by its value; arithmetic on [Num] is exact, and a decimal
    is converted without the rounding to a double. *)
Inductive JsNumber : Type :=
| Num (q : Q)
| Infinity (neg : bool)
| NumNaN.

(** [Decimal.toNumber]. *)
Definition toNumber (x : Decimal.t) : JsNumber :=
  match x with
  | Decimal.Fin _ _ => Num (Decimal.to_Q x)
  | Decimal.Inf s => Infinity s
  | Decimal.NaN => NumNaN
  end.

(** The [>=] operator. *)
Definition js_ge (a b : JsNumber) : bool :=
  match a, b with
  | NumNaN, _ | _, NumNaN => false
  | Num x, Num y => Qle_bool y x
  | Infinity false, _ => true
  | _, Infinity true => true
  | Infinity true, _ => false
  | _, Infinity false => false
  end.

(** ** Configuration ([config.ts]) *)

Record AlertConfig : Type := mkAlertConfig {
  enabled : bool;
  discordWebhook : string;
  minProfitPercent : JsNumber;
  minProfitAmount : JsNumber;
  cooldownMinutes : Z;
}.

(** The values taken when no environment variable overrides them. *)
Definition defaultAlerts (webhook : string) : AlertConfig :=
  mkAlertConfig true webhook (Num 5) (Num 10) 10.

(** ** Alert thresholds ([services/alerts.ts]) *)

Definition meetsAlertThreshold (cfg : AlertConfig) (opportunity : ArbitrageOpportunity) : bool :=
  let profitPercent := toNumber (Decimal.times (roi opportunity) (Decimal.of_Z 100)) in
  let profitAmount := toNumber (profitMargin opportunity) in
  js_ge profitPercent (minProfitPercent cfg) && js_ge profitAmount (minProfitAmount cfg).

(** ** Retry driver ([utils/helpers.ts]) *)

Module Retry.

Section RetryWithBackoff.
Context {T E : Type}.

Record RetryOptions : Type := mkRetryOptions {
  maxRetries : nat;
  initialDelay : Z;
  maxDelay : Z;
  shouldRetry : E -> bool;
}.

(** What the caller of [retryWithBackoff] can catch: an error of [fn], or the
    [Error('Retry failed')] after the loop. *)
Inductive RetryError : Type :=
| FnError (e : E)
| RetryFailed.

Inductive RetryEvent : Type :=
| Attempt (i : nat)
| Sleep (ms : Z).

Record RetryRun : Type := mkRun {
  outcome : T + RetryError;
  events : list RetryEvent;
}.

Definition prepend (ev : list RetryEvent) (r : RetryRun) : RetryRun :=
  mkRun (outcome r) (ev ++ events r).

(** [Math.min(initialDelay * Math.pow(2, i), maxDelay)]. *)
Definition backoff (opts : RetryOptions) (i : nat) : Z :=
  Z.min (initialDelay opts * 2 ^ Z.of_nat i) (maxDelay opts).

(** The [for] loop from index [i] with [remaining = maxRetries - i]
    iterations left; [fn k] is the outcome of the call made at iteration
    [k]. *)
Fixpoint loop (fn : nat -> T + E) (opts : RetryOptions) (remaining i : nat) : RetryRun :=
  match remaining with
  | O => mkRun (inr RetryFailed) []
  | S r =>
      match fn i with
      | inl v => mkRun (inl v) [Attempt i]
      | inr error =>
          if (i =? maxRetries opts - 1)%nat then mkRun (inr (FnError error)) [Attempt i]
          else if negb (shouldRetry opts error) then mkRun (inr (FnError error)) [Attempt i]
          else
            let delay := backoff opts i in
            prepend [Attempt i; Sleep delay] (loop fn opts r (S i))
      end
  end.

Definition retryWithBackoff (fn : nat -> T + E) (opts : RetryOptions) : RetryRun :=
  loop fn opts (maxRetries opts) 0.

Definition attempts (r : RetryRun) : nat :=
  length (List.filter (fun ev => match ev with Attempt _ => true | _ => false end) (events r)).

Definition sleeps (r : RetryRun) : list Z :=
  omap (fun ev => match ev with Sleep ms => Some ms | _ => None end) (events r).

(** The trace of [k] failed attempts from index [i], each followed by its
    sleep, and of one more attempt. *)
Definition failedThenLast (opts : RetryOptions) (i k : nat) : list RetryEvent :=
  flat_map (fun j => [Attempt j; Sleep (backoff opts j)]) (seq i k) ++ [Attempt (i + k)].

End RetryWithBackoff.

Arguments RetryOptions : clear implicits.
Arguments RetryError : clear implicits.
Arguments RetryRun : clear implicits.

(** The defaults of the destructuring pattern. *)
Definition defaultOptions {E} : RetryOptions E := mkRetryOptions 3 1000 10000 (fun _ => true).

End Retry.

(** ** Strings

    A title is a sequence of code units below 256 (Latin-1); the regular
    expression classes and [toLowerCase] are those of JavaScript on that
    range. *)

Module JsString.

Definition code (c : ascii) : Z := Z.of_N (N_of_ascii c).

Definition in_range (lo hi : Z) (c : ascii) : bool :=
  (lo <=? code c) && (code c <=? hi).

(** The class [\w]. *)
Definition is_word (c : ascii) : bool :=
  in_range 48 57 c || in_range 65 90 c || in_range 97 122 c || (code c =? 95).

(** The class [\s]: tab, line feed, vertical tab, form feed, carriage
    return, space, no-break space. *)
Definition is_space (c : ascii) : bool :=
  in_range 9 13 c || (code c =? 32) || (code c =? 160).

Definition lower_char (c : ascii) : ascii :=
  if in_range 65 90 c || (in_range 192 222 c && negb (code c =? 215))
  then ascii_of_N (N_of_ascii c + 32)
  else c.

Fixpoint map_chars (f : ascii -> ascii) (s : string) : string :=
  match s with
  | EmptyString => EmptyString
  | String c rest => String (f c) (map_chars f rest)
  end.

Definition toLowerCase (s : string) : string := map_chars lower_char s.

(** [s.replace(/[^\w\s]/g, ' ')]. *)
Definition replace_punct (s : string) : string :=
  map_chars (fun c => if is_word c || is_space c then c else " "%char) s.

(** [s.split(/\s+/)]: the pieces between maximal runs of white space, an
    empty piece before a leading and after a trailing run.  [cur] is the
    piece being read, [in_ws] tells that the previous unit was white
    space. *)
Fixpoint split_ws_aux (s : string) (cur : string) (in_ws : bool) : list string :=
  match s with
  | EmptyString => [cur]
  | String c rest =>
      if is_space c
      then if in_ws then split_ws_aux rest cur true
           else cur :: split_ws_aux rest EmptyString true
      else split_ws_aux rest (cur +:+ String c EmptyString) false
  end.

Definition split_ws (s : string) : list string := split_ws_aux s EmptyString false.

End JsString.

(** ** Helpers ([utils/helpers.ts]) *)

Module Helpers.
Import JsString.

Definition isValidMarket (market : StandardMarket) : bool :=
  (0 <? String.length (id market))%nat
  && (0 <? String.length (title market))%nat
  && (2 <=? length (outcomes market))%nat
  && forallb (fun o => Decimal.greaterThanOrEqualTo (price o) (Decimal.of_Z 0)
                       && Decimal.lessThanOrEqualTo (price o) (Decimal.of_Z 1))
             (outcomes market).

(** [Math.abs(date1.getTime() - date2.getTime()) / (1000 * 60 * 60 * 24)];
    [None] is NaN. *)
Definition daysDifference (date1 date2 : JsDate) : option Q :=
  match date1, date2 with
  | ValidDate t1, ValidDate t2 => Some (Z.abs (t1 - t2) # 86400000)%Q
  | _, _ => None
  end.

Fixpoint trimStart (s : string) : string :=
  match s with
  | EmptyString => EmptyString
  | String c rest => if is_space c then trimStart rest else s
  end.

Fixpoint trimEnd (s : string) : string :=
  match s with
  | EmptyString => EmptyString
  | String c rest =>
      match trimEnd rest with
      | EmptyString => if is_space c then EmptyString else String c EmptyString
      | kept => String c kept
      end
  end.

(** [s.trim()]. *)
Definition trim (s : string) : string := trimEnd (trimStart s).

(** [s.replace(/\s+/g, ' ')]: every maximal run of white space becomes one
    space; [in_ws] tells that the previous unit was white space. *)
Fixpoint collapse_ws (s : string) (in_ws : bool) : string :=
  match s with
  | EmptyString => EmptyString
  | String c rest =>
      if is_space c
      then if in_ws then collapse_ws rest true
           else String " " (collapse_ws rest true)
      else String c (collapse_ws rest false)
  end.

Fixpoint filter_chars (keep : ascii -> bool) (s : string) : string :=
  match s with
  | EmptyString => EmptyString
  | String c rest =>
      if keep c then String c (filter_chars keep rest) else filter_chars keep rest
  end.

(** The units outside the class [[^\w\s?!$%]], those the second replacement
    keeps. *)
Definition is_kept (c : ascii) : bool :=
  is_word c || is_space c
  || (code c =? 63) || (code c =? 33) || (code c =? 36) || (code c =? 37).

Definition sanitizeTitle (title : string) : string :=
  toLowerCase (filter_chars is_kept (collapse_ws (trim title) false)).

End Helpers.

(** ** Matcher ([matcher/index.ts]) *)

Module MarketMatcher.

Definition MATCH_THRESHOLD : Q := 60 # 100.

Definition stopWords : list string :=
  [ "will"; "the"; "be"; "in"; "on"; "at"; "to"; "a"; "an";
    "is"; "are"; "was"; "were"; "for"; "of"; "by"; "or" ]%string.

Definition extractKeywords (title : string) : list string :=
  List.filter
    (fun word => (2 <? String.length word)%nat && negb (bool_decide (word ∈ stopWords)))
    (JsString.split_ws (JsString.replace_punct (JsString.toLowerCase title))).

(** [getTime()] of both dates, the absolute difference in days; [None] is
    NaN. *)
Definition daysDiff (a b : JsDate) : option Q :=
  match a, b with
  | ValidDate ta, ValidDate tb => Some (Z.abs (ta - tb) # 86400000)%Q
  | _, _ => None
  end.

(** The [>] operator on a possibly-NaN left operand. *)
Definition nan_gt (x : option Q) (y : Q) : bool :=
  match x with
  | Some q => negb (Qle_bool q y)
  | None => false
  end.

Definition preFilter (targetMarket candidate : StandardMarket) : bool :=
  if match endDate targetMarket, endDate candidate with
     | Some dA, Some dB => nan_gt (daysDiff dA dB) 30
     | _, _ => false
     end
  then false
  else
    let wordsA := extractKeywords (title targetMarket) in
    let wordsB := extractKeywords (title candidate) in
    let hasOverlap := existsb (fun word => bool_decide (word ∈ wordsB)) wordsA in
    if negb hasOverlap then false
    else if negb (length (outcomes targetMarket) =? length (outcomes candidate))%nat then false
    else true.

Definition preFilterCandidates (targetMarket : StandardMarket)
    (candidateMarkets : list StandardMarket) : list StandardMarket :=
  List.filter (preFilter targetMarket) candidateMarkets.

(** The words of the specification for the three filters. *)

(** Lowercased tokens after the punctuation-to-whitespace normalisation. *)
Definition tokens (t : string) : list string :=
  JsString.split_ws (JsString.replace_punct (JsString.toLowerCase t)).

(** Both markets have an end date and the two are more than 30 days apart. *)
Definition endDatesApart (a b : StandardMarket) : Prop :=
  exists ta tb,
    endDate a = Some (ValidDate ta) /\ endDate b = Some (ValidDate tb) /\
    30 * 86400000 < Z.abs (ta - tb).

(** The keyword sets of the two titles share an element. *)
Definition shareKeyword (a b : StandardMarket) : Prop :=
  exists w, In w (extractKeywords (title a)) /\ In w (extractKeywords (title b)).

(** The fuzzy ranker, [new Fuse(candidates, options).search(pattern)]: the
    retained items with their distance, best first. *)
Definition FuseSearch : Type := list StandardMarket -> string -> list (StandardMarket * Q).

(** [Math.round]. *)
Definition Math_round (x : Q) : Z := Qfloor (x + (1 # 2))%Q.

Section WithRanker.
Variable search : FuseSearch.

Definition findBestMatch (targetMarket : StandardMarket)
    (candidates : list StandardMarket) : option MarketMatch :=
  match search candidates (title targetMarket) with
  | [] => None
  | (item, fuseScore) :: _ =>
      let confidenceScore := Math_round ((1 - fuseScore) * 100)%Q in
      Some (mkMatch targetMarket item confidenceScore fuzzy)
  end.

Fixpoint findMatches (marketsA marketsB : list StandardMarket) : list MarketMatch :=
  match marketsA with
  | [] => []
  | mA :: rest =>
      let candidates := preFilterCandidates mA marketsB in
      match candidates with
      | [] => findMatches rest marketsB
      | _ =>
          match findBestMatch mA candidates with
          | Some bestMatch => bestMatch :: findMatches rest marketsB
          | None => findMatches rest marketsB
          end
      end
  end.

End WithRanker.


(** A ranker that retains the items whose title is the pattern itself, at
    distance 0. *)
Definition exact_title_search : FuseSearch :=
  fun candidates pattern =>
    List.map (fun m => (m, 0%Q))
      (List.filter (fun m => bool_decide (title m = pattern)) candidates).

End MarketMatcher.

(** ** Error taxonomy ([utils/errors.ts]); messages are not modelled *)

Inductive ScannerError : Type :=
| ScannerErr                                            (* the base class itself *)
| APIError (platformName : string) (statusCode : option Z)
| RateLimitError (platformName : string) (retryAfter : option Z)
| ValidationError
| ConfigError.

Definition statusCodeOf (e : ScannerError) : option Z :=
  match e with
  | APIError _ st => st
  | RateLimitError _ _ => Some 429
  | _ => None
  end.

Definition instanceofAPIError (e : ScannerError) : bool :=
  match e with
  | APIError _ _ | RateLimitError _ _ => true
  | _ => false
  end.

(** [APIError.isRetryable]; [!this.statusCode] also holds for the code 0. *)
Definition isRetryable (e : ScannerError) : bool :=
  match statusCodeOf e with
  | None => true
  | Some st => (st =? 0) || (500 <=? st) || (st =? 429)
  end.

(** [getRetryDelay], of [APIError] and as [RateLimitError] overrides it, in
    milliseconds; [None] for an error that has no such method. *)
Definition getRetryDelay (e : ScannerError) : option Z :=
  match e with
  | APIError _ st =>
      Some (match st with
            | Some c => if c =? 429 then 60000
                        else if negb (c =? 0) && (500 <=? c) then 5000
                        else 2000
            | None => 2000
            end)
  | RateLimitError _ retryAfter =>
      Some (match retryAfter with
            | Some r => if r =? 0 then 60000 else r * 1000
            | None => 60000
            end)
  | _ => None
  end.

(** The response part of an axios error: status and parsed [retry-after]. *)
Record AxiosError : Type := mkAxiosError {
  response : option (Z * option Z);
  axiosCode : option string;
}.

(** A value caught by a [catch] clause. *)
Inductive JsError : Type :=
| AxiosErr (e : AxiosError)
| ZodErr                          (* carries [issues] *)
| OwnErr (e : ScannerError)       (* thrown by the scanner, e.g. its ValidationError *)
| OtherErr                        (* another instance of Error *)
| NonErr.

Definition classifyError (error : JsError) (platformName : string) : ScannerError :=
  match error with
  | AxiosErr ax =>
      match response ax with
      | Some (st, retryAfter) =>
          if st =? 429 then RateLimitError platformName retryAfter
          else APIError platformName (Some st)
      | None => APIError platformName None
      end
  | ZodErr => ValidationError
  | OwnErr _ | OtherErr => ScannerErr
  | NonErr => ScannerErr
  end.

(** The outcome of [axios.get]: the response data, [None] when it does not
    fit the zod schema, or the axios error. *)
Definition HttpOutcome (P : Type) : Type := option P + AxiosError.

(** [shouldRetry] of the three adapters. *)
Definition adapterShouldRetry (error : ScannerError) : bool :=
  if instanceofAPIError error then isRetryable error else false.

Definition adapterRetryOptions : Retry.RetryOptions ScannerError :=
  Retry.mkRetryOptions 3 1000 10000 adapterShouldRetry.

(** ** Adapters *)

Module AdapterSupport.


(** [xs.map((x, index) => f x index)] for an [f] that can throw. *)
Fixpoint mapi_opt {A B} (f : A -> nat -> option B) (xs : list A) (index : nat)
    : option (list B) :=
  match xs with
  | [] => Some []
  | x :: rest =>
      y ← f x index;
      ys ← mapi_opt f rest (S index);
      Some (y :: ys)
  end.

Definition truthy_string (s : option string) : option string :=
  match s with
  | Some EmptyString => None
  | other => other
  end.

(** Reading of a plain literal, an optional minus sign, digits, and
    optionally a point and more digits: the instance of [new Decimal(string)]
    used on sample payloads. *)
Definition digitOf (c : ascii) : option Z :=
  if JsString.in_range 48 57 c then Some (JsString.code c - 48) else None.

(** [acc] is the number read so far, [places] the count of digits after the
    point ([None] before it), [fresh] tells that a digit is still due. *)
Fixpoint plainDigits (s : string) (acc : Z) (places : option Z) (fresh : bool)
    : option Decimal.t :=
  match s with
  | EmptyString =>
      if fresh then None else Some (Decimal.Fin acc (- default 0 places))
  | String c rest =>
      match digitOf c with
      | Some d => plainDigits rest (10 * acc + d) (Z.succ <$> places) false
      | None =>
          if (JsString.code c =? 46) && negb fresh && bool_decide (places = None)
          then plainDigits rest acc (Some 0) true
          else None
      end
  end.

Definition plainDecimal (s : string) : option Decimal.t :=
  match s with
  | String "-" rest => Decimal.neg <$> plainDigits rest 0 None true
  | _ => plainDigits s 0 None true
  end.

(** A market meets the invariants of the data model: two outcomes, prices
    between 0 and 1, non-empty id and title. *)
Definition meetsInvariants (m : StandardMarket) : Prop :=
  length (outcomes m) = 2%nat
  /\ Forall (fun o => Decimal.lessThanOrEqualTo (Decimal.of_Z 0) (price o) = true
                      /\ Decimal.lessThanOrEqualTo (price o) (Decimal.of_Z 1) = true)
            (outcomes m)
  /\ id m <> EmptyString
  /\ title m <> EmptyString.

End AdapterSupport.

(** *** PolyMarket ([adapters/polymarket.ts]) *)

Module PolyMarketAdapter.
Import AdapterSupport.

Section Parsers.
(** [new Date(string)] and [new Decimal(string)] ([None]: it throws). *)
Variable parseDate : string -> JsDate.
Variable parseDecimal : string -> option Decimal.t.

Record PolyMarketEvent : Type := mkPolyMarketEvent {
  pm_id : string;
  question : string;
  endDateIso : option string;
  groupItemTitle : option string;
  pm_outcomes : list string;        (* [JSON.parse(market.outcomes)] *)
  outcomePrices : list string;      (* [JSON.parse(market.outcomePrices)] *)
  pm_liquidity : option string;
}.

(** [toStandardMarket]; [None] when a constructor throws. *)
Definition toStandardMarket (market : PolyMarketEvent) : option StandardMarket :=
  outs ← mapi_opt (fun nm index =>
                     raw ← outcomePrices market !! index;
                     p ← parseDecimal raw;
                     Some (mkOutcome nm p))
                  (pm_outcomes market) 0;
  liq ← match truthy_string (pm_liquidity market) with
        | Some raw => d ← parseDecimal raw; Some (Some d)
        | None => Some None
        end;
  Some (mkMarket (pm_id market) POLYMARKET (question market) outs
          ("https://polymarket.com/event/" +:+ pm_id market)
          (truthy_string (groupItemTitle market))
          (parseDate <$> truthy_string (endDateIso market))
          liq).

(** The body of [fetchMarkets] under the rate limiter, for one HTTP
    outcome. *)
Definition operation (http : HttpOutcome (list PolyMarketEvent))
    : list StandardMarket + ScannerError :=
  let attempt : list StandardMarket + JsError :=
    match http with
    | inr ax => inr (AxiosErr ax)
    | inl None => inr (OwnErr ValidationError)
    | inl (Some validatedData) =>
        match mapi_opt (fun market _ => toStandardMarket market) validatedData 0 with
        | Some markets => inl markets
        | None => inr OtherErr
        end
    end in
  match attempt with
  | inl markets => inl markets
  | inr error => inr (classifyError error "PolyMarket")
  end.

Definition fetchMarkets (http : nat -> HttpOutcome (list PolyMarketEvent))
    : Retry.RetryRun (list StandardMarket) ScannerError :=
  Retry.retryWithBackoff (fun i => operation (http i)) adapterRetryOptions.

(** [fetchMarketById]: every failure is caught, logged and answered by
    [null]. *)
Definition fetchMarketById (http : HttpOutcome PolyMarketEvent)
    : option StandardMarket + ScannerError :=
  let attempt : StandardMarket + JsError :=
    match http with
    | inr ax => inr (AxiosErr ax)
    | inl None => inr (OwnErr ValidationError)
    | inl (Some validatedData) =>
        match toStandardMarket validatedData with
        | Some market => inl market
        | None => inr OtherErr
        end
    end in
  match attempt with
  | inl market => inl (Some market)
  | inr error =>
      let classifiedError := classifyError error "PolyMarket" in
      inl None
  end.

End Parsers.

End PolyMarketAdapter.

(** *** Kalshi ([adapters/kalshi.ts]); asks and liquidity in whole cents

    A [Z] stands for the JavaScript number of that value.  [new Decimal]
    reads a number through its shortest literal, which below 2^53 is the
    integer itself; the conversion of larger amounts is not modelled, and
    what is stated of [liquidity] is stated below that bound. *)

Module KalshiAdapter.
Import AdapterSupport.

Inductive KalshiMarketType : Type := binary | scalar.

Record KalshiMarket : Type := mkKalshiMarket {
  ticker : string;
  market_type : KalshiMarketType;
  k_title : string;
  close_time : string;
  yes_ask : option Z;
  no_ask : option Z;
  k_liquidity : option Z;
  k_category : option string;
}.

(** [new Decimal(ask ? ask / 100 : 0)]. *)
Definition cents (ask : option Z) : Decimal.t :=
  match ask with
  | Some c => if c =? 0 then Decimal.of_Z 0 else Decimal.Fin c (-2)
  | None => Decimal.of_Z 0
  end.

Section Parsers.
Variable parseDate : string -> JsDate.

Definition toStandardMarket (market : KalshiMarket) : StandardMarket :=
  let yesPrice := cents (yes_ask market) in
  let noPrice := cents (no_ask market) in
  mkMarket (ticker market) KALSHI (k_title market)
    [ mkOutcome "YES" yesPrice; mkOutcome "NO" noPrice ]
    ("https://kalshi.com/markets/" +:+ ticker market)
    (truthy_string (k_category market))
    (match close_time market with
     | EmptyString => None
     | t => Some (parseDate t)
     end)
    (match k_liquidity market with
     | Some l => if l =? 0 then None
                 else Some (Decimal.dividedBy (Decimal.of_Z l) (Decimal.of_Z 100))
     | None => None
     end).

Definition isBinary (market : KalshiMarket) : bool :=
  match market_type market, yes_ask market with
  | binary, Some _ => true
  | _, _ => false
  end.

Definition operation (http : HttpOutcome (list KalshiMarket))
    : list StandardMarket + ScannerError :=
  let attempt : list StandardMarket + JsError :=
    match http with
    | inr ax => inr (AxiosErr ax)
    | inl None => inr (OwnErr ValidationError)
    | inl (Some validatedData) =>
        inl (List.map toStandardMarket (List.filter isBinary validatedData))
    end in
  match attempt with
  | inl markets => inl markets
  | inr error => inr (classifyError error "Kalshi")
  end.

Definition fetchMarkets (http : nat -> HttpOutcome (list KalshiMarket))
    : Retry.RetryRun (list StandardMarket) ScannerError :=
  Retry.retryWithBackoff (fun i => operation (http i)) adapterRetryOptions.

Definition fetchMarketByTicker (http : HttpOutcome KalshiMarket)
    : option StandardMarket + ScannerError :=
  let attempt : StandardMarket + JsError :=
    match http with
    | inr ax => inr (AxiosErr ax)
    | inl None => inr (OwnErr ValidationError)
    | inl (Some validatedData) => inl (toStandardMarket validatedData)
    end in
  match attempt with
  | inl market => inl (Some market)
  | inr error =>
      let classifiedError := classifyError error "Kalshi" in
      if instanceofAPIError classifiedError
         && bool_decide (statusCodeOf classifiedError = Some 404)
      then inl None
      else inr classifiedError
  end.

End Parsers.

End KalshiAdapter.

(** *** Manifold ([adapters/manifold.ts]); the arithmetic of [number] is a
    parameter *)

Module ManifoldAdapter.
Import AdapterSupport.

Section Numbers.
Variable number : Type.
Variable falsy : number -> bool.              (* 0 and NaN *)
Variable one_minus : number -> number.        (* [1 - p] *)
Variable half : number.                       (* [0.5] *)
Variable numberToDecimal : number -> Decimal.t.   (* [new Decimal(p)] *)
Variable timeToDate : number -> JsDate.       (* [new Date(ms)] *)

Record ManifoldMarket : Type := mkManifoldMarket {
  m_id : string;
  m_question : string;
  m_url : string;
  closeTime : option number;
  outcomeType : string;
  probability : option number;
  isResolved : bool;
  totalLiquidity : option number;
}.

Definition truthy_number (n : option number) : option number :=
  match n with
  | Some x => if falsy x then None else Some x
  | None => None
  end.

Definition isBinaryMarket (market : ManifoldMarket) : bool :=
  bool_decide (outcomeType market = "BINARY")
  && negb (isResolved market)
  && bool_decide (is_Some (probability market)).

Definition toStandardMarket (market : ManifoldMarket) : StandardMarket :=
  let p := default half (truthy_number (probability market)) in
  let yesPrice := numberToDecimal p in
  let noPrice := numberToDecimal (one_minus p) in
  mkMarket (m_id market) MANIFOLD (m_question market)
    [ mkOutcome "Yes" yesPrice; mkOutcome "No" noPrice ]
    (m_url market)
    None
    (timeToDate <$> truthy_number (closeTime market))
    (numberToDecimal <$> truthy_number (totalLiquidity market)).

Definition operation (limit : nat) (http : HttpOutcome (list ManifoldMarket))
    : list StandardMarket + ScannerError :=
  let attempt : list StandardMarket + JsError :=
    match http with
    | inr ax => inr (AxiosErr ax)
    | inl None => inr (OwnErr ValidationError)
    | inl (Some validatedData) =>
        inl (List.map toStandardMarket
               (take limit (List.filter isBinaryMarket validatedData)))
    end in
  match attempt with
  | inl markets => inl markets
  | inr error => inr (classifyError error "Manifold")
  end.

Definition fetchMarkets (limit : nat) (http : nat -> HttpOutcome (list ManifoldMarket))
    : Retry.RetryRun (list StandardMarket) ScannerError :=
  Retry.retryWithBackoff (fun i => operation limit (http i)) adapterRetryOptions.

(** [fetchMarketBySlug]: [null] for a market that is not binary, and for
    every failure. *)
Definition fetchMarketBySlug (http : HttpOutcome ManifoldMarket)
    : option StandardMarket + ScannerError :=
  let attempt : option StandardMarket + JsError :=
    match http with
    | inr ax => inr (AxiosErr ax)
    | inl None => inr (OwnErr ValidationError)
    | inl (Some validatedData) =>
        if negb (isBinaryMarket validatedData) then inl None
        else inl (Some (toStandardMarket validatedData))
    end in
  match attempt with
  | inl market => inl market
  | inr error =>
      let classifiedError := classifyError error "Manifold" in
      inl None
  end.

End Numbers.

End ManifoldAdapter.

(** *** The retry policy shared by the three [fetchMarkets]

    What [fetch] does with the exchanges [http 0], [http 1], ...: at most
    three attempts, pauses of 1000 and 2000 ms between them, one attempt
    only after a validation failure or an error that is not retryable, and
    three attempts when the first two fail with a retryable error. *)
Definition retryPolicy {Payload} (platformName : string)
    (fetch : (nat -> HttpOutcome Payload) -> Retry.RetryRun (list StandardMarket) ScannerError)
    : Prop :=
  forall http,
    let run := fetch http in
    (Retry.attempts run <= 3)%nat
    /\ Retry.sleeps run = take (Retry.attempts run - 1) [1000; 2000]
    /\ (http 0%nat = inl None ->
        run = Retry.mkRun (inr (Retry.FnError ScannerErr)) [Retry.Attempt 0])
    /\ (forall ax,
          http 0%nat = inr ax ->
          adapterShouldRetry (classifyError (AxiosErr ax) platformName) = false ->
          run = Retry.mkRun (inr (Retry.FnError (classifyError (AxiosErr ax) platformName)))
                  [Retry.Attempt 0])
    /\ (forall ax0 ax1 ax2,
          http 0%nat = inr ax0 -> http 1%nat = inr ax1 -> http 2%nat = inr ax2 ->
          adapterShouldRetry (classifyError (AxiosErr ax0) platformName) = true ->
          adapterShouldRetry (classifyError (AxiosErr ax1) platformName) = true ->
          run = Retry.mkRun (inr (Retry.FnError (classifyError (AxiosErr ax2) platformName)))
                  [Retry.Attempt 0; Retry.Sleep 1000; Retry.Attempt 1; Retry.Sleep 2000;
                   Retry.Attempt 2]).

(** ** Cache, alerts, queue: the effectful part *)

Record ScanJobData : Type := mkScanJob {
  platformA : string;
  platformB : string;
  limit : nat;
}.

Record ScanResult : Type := mkScanResult {
  resTimestamp : Z;
  opportunities : list ArbitrageOpportunity;
  marketsScanned : gmap string nat;
  matchesFound : nat;
  duration : Z;
}.

(** What a cache key holds (the JSON text, by the value it encodes). *)
Inductive CacheValue : Type :=
| CachedMarkets (markets : list StandardMarket)
| CachedScanResult (r : ScanResult)
| CachedAlertMark (stamp : Z).

Inductive PostOutcome : Type :=
| PostOk                      (* a 2xx response *)
| PostRejected (status : Z)   (* [!response.ok] *)
| PostFailed.                 (* [fetch] itself rejects *)

Inductive Event : Type :=
| EvProgress (percent : Z)
| EvAdapterFetch (p : Platform) (lim : nat)
| EvCacheSet (key : string) (ttl : Z)
| EvPost (idA idB : string) (result : PostOutcome)
| EvSleep (ms : Z)
| EvLogError.

(** The cache maps a key to its value and the TTL it was written with;
    [trace] lists the effects, the oldest first. *)
Record World : Type := mkWorld {
  cache : gmap string (CacheValue * Z);
  trace : list Event;
}.

(** What the surroundings decide during a run. *)
Record Env : Type := mkEnv {
  redisUp : bool;                                   (* redis commands succeed *)
  webhook : nat -> PostOutcome;                     (* the k-th POST of the trace *)
  pmFetch : nat -> list StandardMarket + ScannerError;        (* PolyMarketAdapter.fetchMarkets *)
  manifoldFetch : nat -> list StandardMarket + ScannerError;  (* ManifoldAdapter.fetchMarkets *)
  fuse : MarketMatcher.FuseSearch;
  clock : Z;                                        (* [Date.now()], [new Date()] *)
}.

(** A computation: state passing, with a thrown value as the failure. *)
Definition M (A : Type) : Type := World -> (A + JsError) * World.

Definition ret {A} (a : A) : M A := fun w => (inl a, w).

Definition bind {A B} (m : M A) (k : A -> M B) : M B :=
  fun w => match m w with
           | (inl a, w') => k a w'
           | (inr e, w') => (inr e, w')
           end.

Definition throw {A} (e : JsError) : M A := fun w => (inr e, w).

Definition try_catch {A} (body : M A) (handler : JsError -> M A) : M A :=
  fun w => match body w with
           | (inl a, w') => (inl a, w')
           | (inr e, w') => handler e w'
           end.

(** [m] keeps the property [I] of the world, whether it returns or throws. *)
Definition keeps {A} (I : World -> Prop) (m : M A) : Prop :=
  forall w, I w -> I (snd (m w)).

Definition emit (ev : Event) : M unit :=
  fun w => (inl tt, mkWorld (cache w) (trace w ++ [ev])).

Declare Scope m_scope.
Delimit Scope m_scope with M.
Notation "'let*' x ':=' m 'in' k" := (bind m (fun x => k))
  (at level 10, x name, m at level 100, k at level 200) : m_scope.
Local Open Scope m_scope.

Module Cache.

(** [Cache.set]: a failing redis command is logged and swallowed. *)
Definition set (env : Env) (key : string) (value : CacheValue) (ttlSeconds : Z) : M unit :=
  if redisUp env
  then fun w => (inl tt, mkWorld (<[key := (value, ttlSeconds)]> (cache w))
                                 (trace w ++ [EvCacheSet key ttlSeconds]))
  else emit EvLogError.

(** [Cache.get]: [None] is [null]. *)
Definition get (env : Env) (key : string) : M (option CacheValue) :=
  if redisUp env
  then fun w => (inl (fst <$> cache w !! key), w)
  else (let* _ := emit EvLogError in ret None).

(** [Cache.delete], [Cache.exists] and [Cache.clear]; they leave no event
    when redis answers. *)
Definition delete (env : Env) (key : string) : M unit :=
  if redisUp env
  then fun w => (inl tt, mkWorld (base.delete key (cache w)) (trace w))
  else emit EvLogError.

Definition exists_ (env : Env) (key : string) : M bool :=
  if redisUp env
  then fun w => (inl (bool_decide (is_Some (cache w !! key))), w)
  else (let* _ := emit EvLogError in ret false).

Definition clear (env : Env) : M unit :=
  if redisUp env
  then fun w => (inl tt, mkWorld ∅ (trace w))
  else emit EvLogError.

End Cache.

Module CacheKeys.
Definition markets (platformName : string) : string := "markets:" +:+ platformName.
Definition opportunities : string := "opportunities:latest".
Definition scanResults (stamp : string) : string := "scan:results:" +:+ stamp.
Definition alertSent (marketAId marketBId : string) : string :=
  "alert:sent:" +:+ marketAId +:+ ":" +:+ marketBId.
(** An id without a colon, the separator of [alertSent]. *)
Definition noColon (s : string) : Prop := ~ In ":"%char (String.list_ascii_of_string s).
End CacheKeys.

(** The expiry of a key, a step of the store itself. *)
Definition expire (key : string) (w : World) : World :=
  mkWorld (delete key (cache w)) (trace w).

(** *** Alert dispatcher ([services/alerts.ts]) *)

Module Alerts.

Definition posts (tr : list Event) : list Event :=
  List.filter (fun ev => match ev with EvPost _ _ _ => true | _ => false end) tr.

Definition isInCooldown (env : Env) (opportunity : ArbitrageOpportunity) : M bool :=
  let cacheKey := CacheKeys.alertSent (id (oppMarketA opportunity)) (id (oppMarketB opportunity)) in
  let* cached := Cache.get env cacheKey in
  ret (bool_decide (is_Some cached)).

Definition markAlerted (cfg : AlertConfig) (env : Env) (opportunity : ArbitrageOpportunity) : M unit :=
  let cacheKey := CacheKeys.alertSent (id (oppMarketA opportunity)) (id (oppMarketB opportunity)) in
  let ttl := cooldownMinutes cfg * 60 in
  Cache.set env cacheKey (CachedAlertMark (clock env)) ttl.

(** [fetch(webhookUrl, {method: 'POST', ...})]: the outcome of the k-th POST
    is the one the surroundings give it. *)
Definition post (env : Env) (opportunity : ArbitrageOpportunity) : M PostOutcome :=
  fun w =>
    let result := webhook env (length (posts (trace w))) in
    (inl result,
     mkWorld (cache w)
       (trace w ++ [EvPost (id (oppMarketA opportunity)) (id (oppMarketB opportunity)) result])).

(** [sendToDiscord], on the embed of [opportunity]. *)
Definition sendToDiscord (cfg : AlertConfig) (env : Env) (opportunity : ArbitrageOpportunity) : M unit :=
  if bool_decide (discordWebhook cfg = EmptyString) then throw OtherErr
  else
    try_catch
      (let* result := post env opportunity in
       match result with
       | PostOk => ret tt
       | PostRejected _ => throw OtherErr
       | PostFailed => throw OtherErr
       end)
      (fun error => let* _ := emit EvLogError in throw error).

Definition sendArbitrageAlert (cfg : AlertConfig) (env : Env)
    (opportunity : ArbitrageOpportunity) : M unit :=
  try_catch
    (if negb (enabled cfg) then ret tt
     else
       let* inCooldown := isInCooldown env opportunity in
       if inCooldown then ret tt
       else
         let* _ := sendToDiscord cfg env opportunity in
         markAlerted cfg env opportunity)
    (fun error => emit EvLogError).

Fixpoint sendAlerts_loop (cfg : AlertConfig) (env : Env) (total : nat)
    (rest : list ArbitrageOpportunity) : M unit :=
  match rest with
  | [] => ret tt
  | opportunity :: more =>
      let* _ := sendArbitrageAlert cfg env opportunity in
      let* _ := (if (1 <? total)%nat then emit (EvSleep 2000) else ret tt) in
      sendAlerts_loop cfg env total more
  end.

Definition sendAlerts (cfg : AlertConfig) (env : Env)
    (opps : list ArbitrageOpportunity) : M unit :=
  match opps with
  | [] => ret tt
  | _ => sendAlerts_loop cfg env (length opps) opps
  end.

(** What one call of [sendArbitrageAlert] does to the world, case by
    case. *)
Inductive callOutcome (cfg : AlertConfig) (env : Env)
    (opportunity : ArbitrageOpportunity) (w w' : World) : Prop :=
| call_skipped :                (* alerts disabled, or the pair is cooling down *)
    w' = w ->
    callOutcome cfg env opportunity w w'
| call_unsent logs :            (* no webhook URL: logged, nothing posted *)
    discordWebhook cfg = EmptyString ->
    cache w' = cache w ->
    logs <> [] -> Forall (eq EvLogError) logs ->
    trace w' = trace w ++ logs ->
    callOutcome cfg env opportunity w w'
| call_failed result logs :     (* one POST, which fails: logged, no key *)
    result <> PostOk ->
    cache w' = cache w ->
    Forall (eq EvLogError) logs ->
    trace w' = trace w ++ logs
               ++ [ EvPost (id (oppMarketA opportunity)) (id (oppMarketB opportunity)) result;
                    EvLogError; EvLogError ] ->
    callOutcome cfg env opportunity w w'
| call_sent_marked :            (* one POST, which succeeds: the key is written *)
    redisUp env = true ->
    cache w' = <[CacheKeys.alertSent (id (oppMarketA opportunity))
                   (id (oppMarketB opportunity))
                 := (CachedAlertMark (clock env), cooldownMinutes cfg * 60)]> (cache w) ->
    trace w' = trace w
               ++ [ EvPost (id (oppMarketA opportunity)) (id (oppMarketB opportunity)) PostOk;
                    EvCacheSet (CacheKeys.alertSent (id (oppMarketA opportunity))
                                  (id (oppMarketB opportunity)))
                               (cooldownMinutes cfg * 60) ] ->
    callOutcome cfg env opportunity w w'
| call_sent_unmarked :          (* the POST succeeds, redis is down *)
    redisUp env = false ->
    cache w' = cache w ->
    trace w' = trace w
               ++ [ EvLogError;
                    EvPost (id (oppMarketA opportunity)) (id (oppMarketB opportunity)) PostOk;
                    EvLogError ] ->
    callOutcome cfg env opportunity w w'.

(** Calls of [sendArbitrageAlert] one after the other, with no expiry in
    between. *)
Fixpoint successiveAlerts (cfg : AlertConfig) (env : Env)
    (opps : list ArbitrageOpportunity) (w : World) : World :=
  match opps with
  | [] => w
  | opportunity :: more =>
      successiveAlerts cfg env more (snd (sendArbitrageAlert cfg env opportunity w))
  end.

Definition isPostOk (ev : Event) : bool :=
  match ev with
  | EvPost _ _ PostOk => true
  | _ => false
  end.

(** The pauses of a trace, in order. *)
Definition sleepsOf (tr : list Event) : list Z :=
  omap (fun ev => match ev with EvSleep ms => Some ms | _ => None end) tr.

(** An event of the trace is a POST for the opportunity [o]. *)
Definition postFor (o : ArbitrageOpportunity) (ev : Event) : Prop :=
  exists result, ev = EvPost (id (oppMarketA o)) (id (oppMarketB o)) result.

End Alerts.

(** *** Queue worker ([services/queue.ts]) *)

Module Queue.

(** [deserializeMarkets]: what the JSON round trip leaves of a market list;
    an invalid date is serialised as [null]. *)
Definition deserializeMarket (market : StandardMarket) : StandardMarket :=
  mkMarket (id market) (platform market) (title market) (outcomes market) (url market)
    (category market)
    (match endDate market with
     | Some InvalidDate => None
     | other => other
     end)
    (liquidity market).

Definition deserializeMarkets (cached : CacheValue) : M (list StandardMarket) :=
  match cached with
  | CachedMarkets markets => ret (List.map deserializeMarket markets)
  | _ => throw OtherErr          (* [markets.map] is not a function *)
  end.

Definition callAdapter (p : Platform) (fetch : nat -> list StandardMarket + ScannerError)
    (lim : nat) : M (list StandardMarket) :=
  let* _ := emit (EvAdapterFetch p lim) in
  match fetch lim with
  | inl markets => ret markets
  | inr e => throw (OwnErr e)
  end.

Definition fetchMarketsWithCache (env : Env) (platformName : string) (lim : nat)
    : M (list StandardMarket) :=
  let cacheKey := CacheKeys.markets platformName in
  let* cached := Cache.get env cacheKey in
  match cached with
  | Some value => deserializeMarkets value
  | None =>
      let* markets := (if bool_decide (platformName = "POLYMARKET")
                  then callAdapter POLYMARKET (pmFetch env) lim
                  else if bool_decide (platformName = "MANIFOLD")
                  then callAdapter MANIFOLD (manifoldFetch env) lim
                  else ret []) in
      let* _ := Cache.set env cacheKey (CachedMarkets markets) 120 in
      ret markets
  end.

(** [processScanJob]; [stamp] renders the time stamp in the results key.
    The two fetches of [Promise.all] are taken one after the other and a
    progress update always succeeds: the model follows the runs that
    return; of a run that throws it leaves out what the second fetch still
    does after the first has failed, and a failing [job.updateProgress]. *)
Definition processScanJob (cfg : AlertConfig) (env : Env) (stamp : Z -> string)
    (job : ScanJobData) : M ScanResult :=
  try_catch
    (let* _ := emit (EvProgress 10) in
     let* marketsA := fetchMarketsWithCache env (platformA job) (limit job) in
     let* marketsB := fetchMarketsWithCache env (platformB job) (limit job) in
     let* _ := emit (EvProgress 40) in
     let matches := MarketMatcher.findMatches (fuse env) marketsA marketsB in
     let* _ := emit (EvProgress 70) in
     match ArbitrageCalculator.findArbitrageOpportunities (clock env) matches with
     | None => throw OtherErr
     | Some opps =>
         let* _ := emit (EvProgress 90) in
         let alertable := List.filter (meetsAlertThreshold cfg) opps in
         let* _ := (match alertable with
              | [] => ret tt
              | _ => Alerts.sendAlerts cfg env alertable
              end) in
         let result :=
           mkScanResult (clock env) opps
             (<[platformB job := length marketsB]> (<[platformA job := length marketsA]> ∅))
             (length matches) 0 in
         let* _ := Cache.set env CacheKeys.opportunities (CachedScanResult result) 120 in
         let* _ := Cache.set env (CacheKeys.scanResults (stamp (resTimestamp result)))
               (CachedScanResult result) 3600 in
         let* _ := emit (EvProgress 100) in
         ret result
     end)
    (fun error => let* _ := emit EvLogError in throw error).

(** A platform name for which [fetchMarketsWithCache] has no adapter. *)
Definition unsupported (platformName : string) : Prop :=
  platformName <> "POLYMARKET" /\ platformName <> "MANIFOLD".

(** The key [markets:<P>] is absent or holds the empty list written with
    TTL 120. *)
Definition emptyMarkets (platformName : string) (w : World) : Prop :=
  cache w !! CacheKeys.markets platformName = None
  \/ cache w !! CacheKeys.markets platformName = Some (CachedMarkets [], 120).

Definition cacheInvariant (w : World) : Prop :=
  forall platformName, unsupported platformName -> emptyMarkets platformName w.

(** The worlds the worker can be in: it starts on an empty store, runs scan
    jobs under any surroundings, and keys expire. *)
Inductive reachable (cfg : AlertConfig) (stamp : Z -> string) : World -> Prop :=
| reach_start : reachable cfg stamp (mkWorld ∅ [])
| reach_job env job w :
    reachable cfg stamp w ->
    reachable cfg stamp (snd (processScanJob cfg env stamp job w))
| reach_expire key w :
    reachable cfg stamp w ->
    reachable cfg stamp (expire key w).

Definition isAdapterFetch (ev : Event) : bool :=
  match ev with
  | EvAdapterFetch _ _ => true
  | _ => false
  end.

(** The recurring jobs enrolled by [startScheduler] ([scheduler.ts]). *)
Definition scheduledJobs : list ScanJobData :=
  [ mkScanJob "POLYMARKET" "MANIFOLD" 200;
    mkScanJob "KALSHI" "POLYMARKET" 100;
    mkScanJob "KALSHI" "MANIFOLD" 100 ].

End Queue.


(** ** Sample markets

    The scenarios of [test-calculator.ts], and inputs that exercise the
    rounding of decimal.js. *)

Module Samples.

Definition binaryMarket (i : string) (p : Platform) (t : string) (yes no : Decimal.t)
    : StandardMarket :=
  mkMarket i p t [ mkOutcome "Yes" yes; mkOutcome "No" no ]
    ("https://example.com/market/" +:+ i) None None None.

(** Scenario 1: PolyMarket 0.45 / 0.55 against Manifold 0.60 / 0.38. *)
Definition clearArbitrage : MarketMatch :=
  mkMatch
    (binaryMarket "POLY_123" POLYMARKET "Will Bitcoin hit $100k in 2025?"
       (Decimal.Fin 45 (-2)) (Decimal.Fin 55 (-2)))
    (binaryMarket "MANI_456" MANIFOLD "Bitcoin to reach $100k in 2025?"
       (Decimal.Fin 60 (-2)) (Decimal.Fin 38 (-2)))
    88 fuzzy.

(** Scenario 3: PolyMarket 0.48 / 0.52 against Manifold 0.55 / 0.47. *)
Definition edgeCase : MarketMatch :=
  mkMatch
    (binaryMarket "POLY_202" POLYMARKET "Trump wins 2024?"
       (Decimal.Fin 48 (-2)) (Decimal.Fin 52 (-2)))
    (binaryMarket "MANI_303" MANIFOLD "2024 Presidential Election - Trump"
       (Decimal.Fin 55 (-2)) (Decimal.Fin 47 (-2)))
    85 fuzzy.

(** A PolyMarket price with 22 decimal places, "0.5000000000000000000001",
    against a Manifold price of 0.25. *)
Definition longPrice : MarketMatch :=
  mkMatch
    (binaryMarket "POLY_LONG" POLYMARKET "Long price?"
       (Decimal.Fin 5000000000000000000001 (-22)) (Decimal.Fin 4 (-1)))
    (binaryMarket "MANI_LONG" MANIFOLD "Long price"
       (Decimal.Fin 7 (-1)) (Decimal.Fin 25 (-2)))
    90 fuzzy.

(** Alert thresholds set through the environment: 5 percent, 0.01 dollar. *)
Definition lowAmountAlerts : AlertConfig :=
  mkAlertConfig true "https://discord.com/api/webhooks/1/x" (Num 5) (Num (1 # 100)) 10.

(** A PolyMarket payload with three outcomes, the price "1.5", and an empty
    id and question. *)
Definition threeWay : PolyMarketAdapter.PolyMarketEvent :=
  PolyMarketAdapter.mkPolyMarketEvent "" "" None None
    [ "Trump"; "Harris"; "Other" ] [ "0.45"; "0.40"; "1.5" ] None.

(** A Kalshi payload. *)
Definition kalshiSample : KalshiAdapter.KalshiMarket :=
  KalshiAdapter.mkKalshiMarket "KXFED-25DEC" KalshiAdapter.binary "Fed cut in December?"
    "2025-12-31T00:00:00Z" (Some 9) (Some 92) (Some 150000) None.

(** [new Date(string)], left unread. *)
Definition noDate (iso : string) : JsDate := InvalidDate.

(** A request that times out, one answered by 500, one answered by 404. *)
Definition timedOut : AxiosError := mkAxiosError None (Some "ECONNABORTED").
Definition serverError : AxiosError := mkAxiosError (Some (500, None)) None.
Definition notFound : AxiosError := mkAxiosError (Some (404, None)) None.

(** Surroundings in which redis answers, every POST succeeds and the
    adapters return nothing. *)
Definition quietEnv : Env :=
  mkEnv true (fun _ => PostOk) (fun _ => inl []) (fun _ => inl [])
    MarketMatcher.exact_title_search 0.

(** The opportunity of scenario 1. *)
Definition clearOpportunity : ArbitrageOpportunity :=
  let mA := marketA clearArbitrage in
  let mB := marketB clearArbitrage in
  mkOpp mA mB "Yes" "No" (Decimal.Fin 45 (-2)) (Decimal.Fin 38 (-2))
    (Decimal.Fin 83 (-2)) (Decimal.Fin 90 (-4)) (Decimal.Fin 0 (-2)) (Decimal.Fin 90 (-4))
    (Decimal.Fin 8390 (-4)) (Decimal.Fin 1610 (-4))
    (Decimal.Fin 19189511323003575685 (-18)) true 0.

(** One PolyMarket market, offered on both sides of the matcher. *)
Definition trumpMarket : StandardMarket :=
  binaryMarket "POLY_202" POLYMARKET "Trump wins 2024?"
    (Decimal.Fin 48 (-2)) (Decimal.Fin 52 (-2)).

End Samples.

(** * Properties *)

(** ** decimal.js: operations that do not round *)

Module DecimalFacts.
Import Decimal.

Lemma pow10_pos k : 0 < 10 ^ k \/ k < 0.
Proof.
  destruct (Z_lt_le_dec k 0) as [H|H]; [now right|left].
  apply Z.pow_pos_nonneg; lia.
Qed.

Lemma pow10_gt0 k : 0 <= k -> 0 < 10 ^ k.
Proof. intros H. apply Z.pow_pos_nonneg; lia. Qed.

Lemma pow10_ge1 k : 0 <= k -> 1 <= 10 ^ k.
Proof. intros H. pose proof (pow10_gt0 k H). lia. Qed.

Lemma pow10_add a b : 0 <= a -> 0 <= b -> 10 ^ (a + b) = 10 ^ a * 10 ^ b.
Proof. intros. apply Z.pow_add_r; lia. Qed.

Lemma abs_le_scaled c p : 1 <= p -> Z.abs c <= Z.abs (c * p).
Proof. intros H. rewrite Z.abs_mul. rewrite (Z.abs_eq p) by lia. nia. Qed.

Lemma finalise_small c e : Z.abs c < 10 ^ precision -> finalise c e = Fin c e.
Proof.
  intros H. unfold finalise.
  destruct (Z.ltb_spec (Z.abs c) (10 ^ precision)); [reflexivity | lia].
Qed.

Lemma repr_of_Z n : repr 0 n (of_Z n).
Proof. exists n, 0. split; [reflexivity | split; [lia | cbn; lia]]. Qed.

Lemma repr_lift s j n x : 0 <= j -> repr s n x -> repr (s + j) (n * 10 ^ j) x.
Proof.
  intros Hj (c & e & -> & He & ->).
  exists c, e. split; [reflexivity | split; [lia |]].
  replace (e + (s + j)) with ((e + s) + j) by lia.
  rewrite (pow10_add (e + s) j) by lia. ring.
Qed.

Lemma repr_neg s n x : repr s n x -> repr s (- n) (neg x).
Proof.
  intros (c & e & -> & He & ->). exists (- c), e. cbn. split; [reflexivity | split; [lia | ring]].
Qed.

Lemma repr_plus s n m x y :
  repr s n x -> repr s m y -> Z.abs (n + m) < 10 ^ precision ->
  repr s (n + m) (plus x y).
Proof.
  intros (c1 & e1 & -> & He1 & ->) (c2 & e2 & -> & He2 & ->) Hb.
  cbn [plus].
  set (e := Z.min e1 e2).
  assert (Hsum : (c1 * 10 ^ (e1 - e) + c2 * 10 ^ (e2 - e)) * 10 ^ (e + s)
                 = c1 * 10 ^ (e1 + s) + c2 * 10 ^ (e2 + s)).
  { assert (H1 : 10 ^ (e1 + s) = 10 ^ (e1 - e) * 10 ^ (e + s))
      by (rewrite <- pow10_add by (unfold e; lia); f_equal; lia).
    assert (H2 : 10 ^ (e2 + s) = 10 ^ (e2 - e) * 10 ^ (e + s))
      by (rewrite <- pow10_add by (unfold e; lia); f_equal; lia).
    rewrite H1, H2. ring. }
  rewrite finalise_small.
  - exists (c1 * 10 ^ (e1 - e) + c2 * 10 ^ (e2 - e)), e.
    split; [reflexivity | split; [unfold e; lia | now rewrite Hsum]].
  - eapply Z.le_lt_trans; [| exact Hb]. rewrite <- Hsum.
    apply abs_le_scaled, pow10_ge1. unfold e; lia.
Qed.

Lemma repr_minus s n m x y :
  repr s n x -> repr s m y -> Z.abs (n - m) < 10 ^ precision ->
  repr s (n - m) (minus x y).
Proof.
  intros Hx Hy Hb. unfold minus. replace (n - m) with (n + - m) by lia.
  apply repr_plus; [assumption | now apply repr_neg |].
  now replace (n + - m) with (n - m) by lia.
Qed.

Lemma repr_times s s' n m x y :
  repr s n x -> repr s' m y -> Z.abs (n * m) < 10 ^ precision ->
  repr (s + s') (n * m) (times x y).
Proof.
  intros (c1 & e1 & -> & He1 & ->) (c2 & e2 & -> & He2 & ->) Hb.
  cbn [times].
  assert (Hprod : c1 * c2 * 10 ^ (e1 + e2 + (s + s'))
                  = c1 * 10 ^ (e1 + s) * (c2 * 10 ^ (e2 + s'))).
  { replace (e1 + e2 + (s + s')) with ((e1 + s) + (e2 + s')) by lia.
    rewrite (pow10_add (e1 + s) (e2 + s')) by lia. ring. }
  rewrite finalise_small.
  - exists (c1 * c2), (e1 + e2). split; [reflexivity | split; [lia | now rewrite Hprod]].
  - eapply Z.le_lt_trans; [| exact Hb]. rewrite <- Hprod.
    apply abs_le_scaled, pow10_ge1. lia.
Qed.

Lemma repr_cmp s n m x y :
  repr s n x -> repr s m y -> cmp x y = Some (n ?= m).
Proof.
  intros (c1 & e1 & -> & He1 & ->) (c2 & e2 & -> & He2 & ->).
  cbn [cmp]. f_equal.
  set (e := Z.min e1 e2).
  assert (H1 : 10 ^ (e1 + s) = 10 ^ (e1 - e) * 10 ^ (e + s))
    by (rewrite <- pow10_add by (unfold e; lia); f_equal; lia).
  assert (H2 : 10 ^ (e2 + s) = 10 ^ (e2 - e) * 10 ^ (e + s))
    by (rewrite <- pow10_add by (unfold e; lia); f_equal; lia).
  rewrite H1, H2, !Z.mul_assoc.
  apply Zmult_compare_compat_r, Z.lt_gt, pow10_gt0. unfold e; lia.
Qed.

Lemma repr_gte s n m x y :
  repr s n x -> repr s m y -> greaterThanOrEqualTo x y = (m <=? n).
Proof.
  intros Hx Hy. unfold greaterThanOrEqualTo. rewrite (repr_cmp s n m x y Hx Hy).
  destruct (Z.compare_spec n m); destruct (Z.leb_spec m n); lia || reflexivity.
Qed.

Lemma repr_gt s n m x y :
  repr s n x -> repr s m y -> greaterThan x y = (m <? n).
Proof.
  intros Hx Hy. unfold greaterThan. rewrite (repr_cmp s n m x y Hx Hy).
  destruct (Z.compare_spec n m); destruct (Z.ltb_spec m n); lia || reflexivity.
Qed.

Lemma repr_to_Q s n x : 0 <= s -> repr s n x -> (to_Q x == q10 s n)%Q.
Proof.
  intros Hs (c & e & -> & He & ->).
  unfold to_Q, q10, Qeq. cbn [Qnum Qden].
  rewrite !Z2Pos.id by (apply pow10_gt0; lia).
  destruct (Z_lt_le_dec e 0) as [Hneg|Hpos].
  - rewrite (Z.max_r e 0), (Z.max_l (- e) 0) by lia.
    assert (H1 : 10 ^ s = 10 ^ (e + s) * 10 ^ (- e))
      by (rewrite <- pow10_add by lia; f_equal; lia).
    rewrite H1. cbn. ring.
  - rewrite (Z.max_l e 0), (Z.max_r (- e) 0) by lia.
    rewrite (pow10_add e s) by lia. cbn. ring.
Qed.

Lemma q10_plus s n m : 0 <= s -> (q10 s (n + m) == q10 s n + q10 s m)%Q.
Proof.
  intros Hs. unfold q10, Qeq, Qplus. cbn [Qnum Qden].
  rewrite Pos2Z.inj_mul. ring.
Qed.

Lemma q10_minus s n m : 0 <= s -> (q10 s (n - m) == q10 s n - q10 s m)%Q.
Proof.
  intros Hs. unfold q10, Qeq, Qminus, Qplus, Qopp. cbn [Qnum Qden].
  rewrite Pos2Z.inj_mul. ring.
Qed.

Lemma q10_mult s s' n m : 0 <= s -> 0 <= s' -> (q10 (s + s') (n * m) == q10 s n * q10 s' m)%Q.
Proof.
  intros Hs Hs'. unfold q10, Qeq, Qmult. cbn [Qnum Qden].
  rewrite Pos2Z.inj_mul.
  rewrite !Z2Pos.id by (apply pow10_gt0; lia).
  rewrite pow10_add by lia. ring.
Qed.

Lemma q10_lift s j n : 0 <= s -> 0 <= j -> (q10 (s + j) (n * 10 ^ j) == q10 s n)%Q.
Proof.
  intros Hs Hj. unfold q10, Qeq. cbn [Qnum Qden].
  rewrite !Z2Pos.id by (apply pow10_gt0; lia).
  rewrite pow10_add by lia. ring.
Qed.

(** ** decimal.js: the quotient is correctly rounded *)

Lemma pow10_succ k : 0 <= k -> 10 ^ (k + 1) = 10 * 10 ^ k.
Proof. intros H. rewrite Z.pow_add_r by lia. lia. Qed.

Lemma ndigits_aux_spec fuel :
  forall n, 0 < n -> n < 10 ^ Z.of_nat fuel ->
  1 <= ndigits_aux fuel n
  /\ 10 ^ (ndigits_aux fuel n - 1) <= n < 10 ^ ndigits_aux fuel n.
Proof.
  induction fuel as [|f IH]; intros n Hpos Hlt.
  - cbn in Hlt. lia.
  - cbn [ndigits_aux]. destruct (Z.ltb_spec n 10) as [Hs|Hb].
    + cbn. lia.
    + assert (Hq : 0 < n / 10) by (apply Z.div_str_pos; lia).
      assert (Hf : n / 10 < 10 ^ Z.of_nat f).
      { apply Z.div_lt_upper_bound; [lia|].
        rewrite Nat2Z.inj_succ, <- Z.add_1_r, pow10_succ in Hlt; lia. }
      destruct (IH (n / 10) Hq Hf) as (H1 & Hlo & Hhi).
      set (k := ndigits_aux f (n / 10)) in *.
      split; [lia|].
      replace (1 + k - 1) with ((k - 1) + 1) by lia.
      replace (1 + k) with (k + 1) by lia.
      rewrite !pow10_succ by lia.
      pose proof (Z.div_mod n 10 ltac:(lia)) as Hdm.
      pose proof (Z.mod_pos_bound n 10 ltac:(lia)) as Hm.
      lia.
Qed.

Lemma ndigits_spec n :
  0 < n -> 1 <= ndigits n /\ 10 ^ (ndigits n - 1) <= n < 10 ^ ndigits n.
Proof.
  intros Hpos. unfold ndigits. apply ndigits_aux_spec; [exact Hpos|].
  destruct (Z.log2_spec n Hpos) as [_ Hlt].
  rewrite Nat2Z.inj_succ, Z2Nat.id by apply Z.log2_nonneg.
  eapply Z.lt_le_trans; [exact Hlt|].
  apply Z.pow_le_mono_l. lia.
Qed.

Lemma half_up_spec N D :
  0 <= N -> 0 < D ->
  2 * D * half_up N D <= 2 * N + D < 2 * D * (half_up N D + 1).
Proof.
  intros HN HD. unfold half_up.
  pose proof (Z.div_mod (2 * N + D) (2 * D) ltac:(lia)) as Hdm.
  pose proof (Z.mod_pos_bound (2 * N + D) (2 * D) ltac:(lia)) as Hm.
  lia.
Qed.

(** The scale of a quotient puts its integer part between 10^19 and
    10^20. *)
Lemma div_scale_spec n d :
  0 < n -> 0 < d ->
  let s := div_scale n d in
  let N := n * 10 ^ Z.max s 0 in
  let D := d * 10 ^ Z.max (- s) 0 in
  0 < D /\ 10 ^ 19 * D <= N < 10 ^ precision * D.
Proof.
  intros Hn Hd.
  destruct (ndigits_spec n Hn) as (Hn1 & Hnlo & Hnhi).
  destruct (ndigits_spec d Hd) as (Hd1 & Hdlo & Hdhi).
  unfold div_scale.
  set (s0 := precision + ndigits d - ndigits n).
  set (N0 := n * 10 ^ Z.max s0 0). set (D0 := d * 10 ^ Z.max (- s0) 0).
  assert (HD0 : 0 < D0) by (unfold D0; pose proof (pow10_gt0 (Z.max (- s0) 0)); nia).
  (* at scale s0 the quotient lies between 10^19 and 10^21 *)
  assert (Hbounds : 10 ^ 19 * D0 <= N0 < 10 ^ 21 * D0).
  { unfold N0, D0, precision in *. 
    destruct (Z_lt_le_dec s0 0) as [Hneg|Hpos].
    - rewrite (Z.max_r s0 0), (Z.max_l (- s0) 0) by lia.
      change (10 ^ 0) with 1. rewrite Z.mul_1_r.
      assert (E1 : ndigits n - 1 = 19 + ndigits d + - s0) by (unfold s0, precision; lia).
      assert (E2 : ndigits n = 21 + (ndigits d - 1) + - s0) by (unfold s0, precision; lia).
      rewrite E1 in Hnlo. rewrite E2 in Hnhi.
      rewrite !Z.pow_add_r in Hnlo, Hnhi by lia.
      pose proof (pow10_gt0 (- s0) ltac:(lia)).
      split; nia.
    - rewrite (Z.max_l s0 0), (Z.max_r (- s0) 0) by lia.
      change (10 ^ 0) with 1. rewrite Z.mul_1_r.
      assert (E1 : 19 + ndigits d = (ndigits n - 1) + s0) by (unfold s0, precision; lia).
      assert (E2 : 21 + (ndigits d - 1) = ndigits n + s0) by (unfold s0, precision; lia).
      assert (F1 : 10 ^ 19 * 10 ^ ndigits d = 10 ^ (ndigits n - 1) * 10 ^ s0)
        by (rewrite <- !Z.pow_add_r by lia; now rewrite E1).
      assert (F2 : 10 ^ 21 * 10 ^ (ndigits d - 1) = 10 ^ ndigits n * 10 ^ s0)
        by (rewrite <- !Z.pow_add_r by lia; now rewrite E2).
      pose proof (pow10_gt0 s0 ltac:(lia)).
      split; nia. }
  fold N0 D0.
  destruct (Z.ltb_spec (N0 / D0) (10 ^ precision)) as [Hlt|Hge]; cbv zeta.
  - fold N0 D0. split; [exact HD0|]. split; [lia|].
    destruct (Z_lt_le_dec N0 (10 ^ precision * D0)) as [|Hc]; [assumption|].
    exfalso. assert (10 ^ precision <= N0 / D0) by (apply Z.div_le_lower_bound; lia). lia.
  - (* one digit less *)
    assert (Hge' : 10 ^ precision * D0 <= N0).
    { pose proof (Z.mul_div_le N0 D0 HD0). nia. }
    destruct (Z_lt_le_dec (s0 - 1) 0) as [Hneg|Hpos].
    + rewrite (Z.max_r (s0 - 1) 0), (Z.max_l (- (s0 - 1)) 0) by lia.
      assert (EN : n * 10 ^ 0 = N0).
      { unfold N0. rewrite (Z.max_r s0 0) by lia. reflexivity. }
      assert (ED : d * 10 ^ (- (s0 - 1)) = 10 * D0).
      { unfold D0. rewrite (Z.max_l (- s0) 0) by lia.
        replace (- (s0 - 1)) with (- s0 + 1) by lia. rewrite pow10_succ by lia. ring. }
      rewrite EN, ED. unfold precision in *.
      change (10 ^ 20) with (10 * 10 ^ 19) in *. change (10 ^ 21) with (10 * (10 * 10 ^ 19)) in *.
      split; [lia|]. split; nia.
    + rewrite (Z.max_l (s0 - 1) 0), (Z.max_r (- (s0 - 1)) 0) by lia.
      assert (ED : d * 10 ^ 0 = D0).
      { unfold D0. rewrite (Z.max_r (- s0) 0) by lia. reflexivity. }
      assert (EN : 10 * (n * 10 ^ (s0 - 1)) = N0).
      { unfold N0. rewrite (Z.max_l s0 0) by lia.
        replace s0 with ((s0 - 1) + 1) at 2 by lia. rewrite pow10_succ by lia. ring. }
      rewrite ED. unfold precision in *.
      change (10 ^ 20) with (10 * 10 ^ 19) in *. change (10 ^ 21) with (10 * (10 * 10 ^ 19)) in *.
      split; [lia|]. split; nia.
Qed.

(** [dividedBy] on non-zero finite values is correctly rounded: its
    coefficient is the integer nearest to the quotient at the chosen scale
    (a tie going up), and it has 20 digits (or is 10^20). *)
Lemma dividedBy_correctly_rounded c1 e1 c2 e2 :
  c1 <> 0 -> c2 <> 0 ->
  exists q s,
    dividedBy (Fin c1 e1) (Fin c2 e2) = Fin (Z.sgn c1 * Z.sgn c2 * q) (e1 - e2 - s)
    /\ 10 ^ 19 <= q <= 10 ^ precision
    /\ let N := Z.abs c1 * 10 ^ Z.max s 0 in
       let D := Z.abs c2 * 10 ^ Z.max (- s) 0 in
       0 < D /\ 2 * D * q <= 2 * N + D < 2 * D * (q + 1).
Proof.
  intros H1 H2. cbn [dividedBy].
  destruct (Z.eqb_spec c2 0); [contradiction|].
  destruct (Z.eqb_spec c1 0); [contradiction|].
  unfold div_fin.
  destruct (div_scale_spec (Z.abs c1) (Z.abs c2)) as (HD & Hlo & Hhi); [lia | lia |].
  set (s := div_scale (Z.abs c1) (Z.abs c2)) in *.
  set (N := Z.abs c1 * 10 ^ Z.max s 0) in *.
  set (D := Z.abs c2 * 10 ^ Z.max (- s) 0) in *.
  assert (HN : 0 <= N) by (unfold N; pose proof (pow10_gt0 (Z.max s 0)); nia).
  pose proof (half_up_spec N D HN HD) as Hq.
  exists (half_up N D), s. split; [reflexivity|].
  split; [|split; [exact HD | exact Hq]].
  unfold precision in *. change (10 ^ 20) with (10 * 10 ^ 19) in *.
  split; nia.
Qed.

Lemma eqv_refl c e : eqv (Fin c e) (Fin c e).
Proof. unfold eqv. cbn. now rewrite Z.compare_refl. Qed.

Lemma ndigits_unique n k :
  0 < n -> 1 <= k -> 10 ^ (k - 1) <= n < 10 ^ k -> ndigits n = k.
Proof.
  intros Hn Hk [Hlo Hhi]. destruct (ndigits_spec n Hn) as (H1 & Hl & Hh).
  destruct (Z_lt_le_dec (ndigits n) k) as [Hlt|Hge].
  - exfalso. assert (10 ^ ndigits n <= 10 ^ (k - 1)) by (apply Z.pow_le_mono_r; lia). lia.
  - destruct (Z_lt_le_dec k (ndigits n)) as [Hlt|Hle]; [|lia].
    exfalso. assert (10 ^ k <= 10 ^ (ndigits n - 1)) by (apply Z.pow_le_mono_r; lia). lia.
Qed.

Lemma half_up_exact q p : 0 <= q -> 0 < p -> half_up (q * p) p = q.
Proof.
  intros Hq Hp. unfold half_up. symmetry.
  apply (Z.div_unique_pos _ _ q p); lia.
Qed.

(** Multiplying a 20-digit coefficient by 100 rounds nothing away. *)
Lemma times_100_exact sg q e :
  sg = 1 \/ sg = -1 -> 10 ^ 19 <= q <= 10 ^ precision ->
  eqv (times (Fin (sg * q) e) (of_Z 100)) (Fin (sg * q) (e + 2)).
Proof.
  intros Hsg Hq. unfold times, of_Z. unfold precision in *.
  assert (P19 : 10 ^ 19 = 10000000000000000000) by reflexivity.
  assert (P20 : 10 ^ 20 = 100000000000000000000) by reflexivity.
  unfold finalise, precision.
  assert (Habs : Z.abs (sg * q * 100) = q * 100) by (destruct Hsg; subst sg; lia).
  assert (Hsgn : Z.sgn (sg * q * 100) = sg) by (destruct Hsg; subst sg; lia).
  rewrite Habs, Hsgn.
  destruct (Z.ltb_spec (q * 100) (10 ^ 20)) as [Hlt|_]; [lia|].
  destruct (Z_lt_le_dec q (10 ^ 20)) as [Hlt|Hge].
  - rewrite (ndigits_unique (q * 100) 22) by (try lia; change (10 ^ (22 - 1)) with (10 ^ 19 * 100);
      change (10 ^ 22) with (10 ^ 20 * 100); lia).
    change (22 - 20) with 2. change (10 ^ 2) with 100.
    rewrite half_up_exact by lia. replace (e + 0 + 2) with (e + 2) by lia.
    apply eqv_refl.
  - assert (q = 10 ^ 20) by lia. subst q.
    rewrite (ndigits_unique (10 ^ 20 * 100) 23) by (vm_compute; intuition discriminate).
    change (half_up (10 ^ 20 * 100) (10 ^ (23 - 20))) with (10 ^ 19).
    unfold eqv. cbn [cmp]. f_equal.
    replace (e + 0 + (23 - 20) - Z.min (e + 0 + (23 - 20)) (e + 2)) with 1 by lia.
    replace (e + 2 - Z.min (e + 0 + (23 - 20)) (e + 2)) with 0 by lia.
    destruct Hsg; subst sg; reflexivity.
Qed.

Lemma dividedBy_rounded_ratio c1 e1 c2 e2 :
  c1 <> 0 -> c2 <> 0 ->
  rounded_ratio (dividedBy (Fin c1 e1) (Fin c2 e2)) c1 e1 c2 e2 0.
Proof.
  intros H1 H2.
  destruct (dividedBy_correctly_rounded c1 e1 c2 e2 H1 H2) as (q & s & -> & Hq & Hn).
  exists q, s. split; [exact Hq | split; [exact Hn|]].
  replace (e1 - e2 - s + 0) with (e1 - e2 - s) by lia. apply eqv_refl.
Qed.

(** [a.dividedBy(b).times(100)] is 100 times the correctly rounded
    quotient. *)
Lemma percentage_rounded_ratio c1 e1 c2 e2 :
  c1 <> 0 -> c2 <> 0 ->
  rounded_ratio (times (dividedBy (Fin c1 e1) (Fin c2 e2)) (of_Z 100)) c1 e1 c2 e2 2.
Proof.
  intros H1 H2.
  destruct (dividedBy_correctly_rounded c1 e1 c2 e2 H1 H2) as (q & s & -> & Hq & Hn).
  exists q, s. split; [exact Hq | split; [exact Hn|]].
  apply times_100_exact; [lia | exact Hq].
Qed.

Lemma greaterThan_zero c e : greaterThan (Fin c e) (of_Z 0) = true -> 0 < c.
Proof.
  unfold greaterThan, of_Z, cmp.
  pose proof (pow10_gt0 (e - Z.min e 0) ltac:(lia)) as Hp.
  destruct (Z.compare_spec (c * 10 ^ (e - Z.min e 0)) (0 * 10 ^ (0 - Z.min e 0)));
    try discriminate.
  intros _. nia.
Qed.

End DecimalFacts.

(** ** Calculator *)

Module CalculatorFacts.
Import Decimal DecimalFacts ArbitrageCalculator.

Lemma getFeeRate_repr p : repr 2 (ratePercent p) (getFeeRate p).
Proof.
  destruct p; cbn.
  - exists 2, (-2). split; [reflexivity | split; [lia | reflexivity]].
  - exists 7, (-2). split; [reflexivity | split; [lia | reflexivity]].
  - exists 0, 0. split; [reflexivity | split; [lia | reflexivity]].
Qed.

Lemma feeRate_q10 p : (feeRate p == q10 2 (ratePercent p))%Q.
Proof. destruct p; reflexivity. Qed.

Lemma ratePercent_bounds p : 0 <= ratePercent p <= 7.
Proof. destruct p; cbn; lia. Qed.

Lemma q10_one s : 0 <= s -> (q10 s (10 ^ s) == 1)%Q.
Proof.
  intros Hs. unfold q10, Qeq. cbn [Qnum Qden].
  rewrite Z2Pos.id by (apply pow10_gt0; lia). ring.
Qed.

Lemma q10_le_one s n : 0 <= s -> (1 <= q10 s n)%Q <-> 10 ^ s <= n.
Proof.
  intros Hs. unfold q10, Qle. cbn [Qnum Qden].
  rewrite Z2Pos.id by (apply pow10_gt0; lia). lia.
Qed.

(** C1 (amended): on prices between 0 and 1 with at most 17 decimal places no
    operation of [calculateArbitrage] rounds: [null] is returned exactly when
    priceA + priceB >= 1, and otherwise the fields of the opportunity are the
    exact sums, products and difference of the specification. *)
Theorem calculateArbitrage_exact (now : Z) (mA mB : StandardMarket)
    (iA iB : nat) (oA oB : Outcome) :
  outcomes mA !! iA = Some oA ->
  outcomes mB !! iB = Some oB ->
  price17 (price oA) ->
  price17 (price oB) ->
  let pA := to_Q (price oA) in
  let pB := to_Q (price oB) in
  (calculateArbitrage now mA mB iA iB = Some None <-> (1 <= pA + pB)%Q) /\
  ((pA + pB < 1)%Q ->
   exists o,
     calculateArbitrage now mA mB iA iB = Some (Some o) /\
     priceA o = price oA /\ priceB o = price oB /\
     (to_Q (totalCost o) == pA + pB)%Q /\
     (to_Q (feesA o) == pA * feeRate (platform mA))%Q /\
     (to_Q (feesB o) == pB * feeRate (platform mB))%Q /\
     (to_Q (totalFees o) == to_Q (feesA o) + to_Q (feesB o))%Q /\
     (to_Q (netCost o) == to_Q (totalCost o) + to_Q (totalFees o))%Q /\
     (to_Q (profitMargin o) == 1 - to_Q (netCost o))%Q).
Proof.
  intros HA HB (a & Ha & Hab) (b & Hb & Hbb) pA pB.
  assert (P17 : 10 ^ 17 = 100000000000000000) by reflexivity.
  assert (P20 : 10 ^ precision = 100000000000000000000) by reflexivity.
  assert (P19 : 10 ^ 19 = 10000000000000000000) by reflexivity.
  assert (EA : (pA == q10 17 a)%Q) by (apply repr_to_Q; [lia | exact Ha]).
  assert (EB : (pB == q10 17 b)%Q) by (apply repr_to_Q; [lia | exact Hb]).
  assert (Hsum : (pA + pB == q10 17 (a + b))%Q)
    by (rewrite EA, EB; symmetry; apply q10_plus; lia).
  assert (Rt : repr 17 (a + b) (plus (price oA) (price oB)))
    by (apply repr_plus; [exact Ha | exact Hb | lia]).
  assert (R1 : repr 17 (10 ^ 17) (of_Z 1)).
  { replace (10 ^ 17) with (1 * 10 ^ 17) by lia.
    apply (repr_lift 0 17 1); [lia | apply repr_of_Z]. }
  assert (Hgte : greaterThanOrEqualTo (plus (price oA) (price oB)) (of_Z 1)
                 = (10 ^ 17 <=? a + b))
    by (apply (repr_gte 17); assumption).
  unfold calculateArbitrage. rewrite HA, HB. cbv zeta. rewrite Hgte.
  split.
  - rewrite Hsum, q10_le_one by lia.
    destruct (Z.leb_spec (10 ^ 17) (a + b)); split; intros; try reflexivity; try lia.
    discriminate.
  - intros Hlt.
    assert (Hn : a + b < 10 ^ 17).
    { destruct (Z_lt_le_dec (a + b) (10 ^ 17)) as [|Hge]; [assumption|].
      apply (q10_le_one 17) in Hge; [|lia]. rewrite <- Hsum in Hge.
      exfalso. apply (Qlt_not_le _ _ Hlt Hge). }
    destruct (Z.leb_spec (10 ^ 17) (a + b)) as [|_]; [lia|].
    pose proof (ratePercent_bounds (platform mA)) as HrA.
    pose proof (ratePercent_bounds (platform mB)) as HrB.
    set (rA := ratePercent (platform mA)) in *.
    set (rB := ratePercent (platform mB)) in *.
    assert (RfA : repr 19 (a * rA) (times (price oA) (getFeeRate (platform mA)))).
    { apply (repr_times 17 2); [exact Ha | apply getFeeRate_repr |].
      fold rA. rewrite P20. apply Z.abs_lt. nia. }
    assert (RfB : repr 19 (b * rB) (times (price oB) (getFeeRate (platform mB)))).
    { apply (repr_times 17 2); [exact Hb | apply getFeeRate_repr |].
      fold rB. rewrite P20. apply Z.abs_lt. nia. }
    assert (Rfees := repr_plus 19 _ _ _ _ RfA RfB).
    assert (Rt19 := repr_lift 17 2 _ _ ltac:(lia) Rt). cbn [Z.add] in Rt19.
    change (17 + 2) with 19 in Rt19.
    assert (Rnet := fun H1 H2 => repr_plus 19 _ _ _ _ Rt19 (Rfees H1) H2).
    assert (R1' := repr_lift 0 19 1 _ ltac:(lia) (repr_of_Z 1)).
    change (0 + 19) with 19 in R1'.
    assert (B1 : Z.abs (a * rA + b * rB) < 10 ^ precision)
      by (rewrite P20; apply Z.abs_lt; nia).
    assert (B2 : Z.abs ((a + b) * 10 ^ 2 + (a * rA + b * rB)) < 10 ^ precision)
      by (rewrite P20; change (10 ^ 2) with 100; apply Z.abs_lt; nia).
    specialize (Rfees B1). specialize (Rnet B1 B2).
    assert (B3 : Z.abs (1 * 10 ^ 19 - ((a + b) * 10 ^ 2 + (a * rA + b * rB)))
                 < 10 ^ precision)
      by (rewrite P20, P19; change (10 ^ 2) with 100; apply Z.abs_lt; nia).
    assert (Rm := repr_minus 19 _ _ _ _ R1' Rnet B3).
    eexists. split; [reflexivity|]. cbn [priceA priceB totalCost feesA feesB totalFees netCost profitMargin].
    split; [reflexivity|]. split; [reflexivity|].
    assert (QfA := repr_to_Q 19 _ _ ltac:(lia) RfA).
    assert (QfB := repr_to_Q 19 _ _ ltac:(lia) RfB).
    assert (Qfees := repr_to_Q 19 _ _ ltac:(lia) Rfees).
    assert (Qt := repr_to_Q 19 _ _ ltac:(lia) Rt19).
    assert (Qnet := repr_to_Q 19 _ _ ltac:(lia) Rnet).
    assert (Qm := repr_to_Q 19 _ _ ltac:(lia) Rm).
    repeat split.
    + rewrite Hsum. apply repr_to_Q; [lia | exact Rt].
    + rewrite QfA, EA, feeRate_q10. apply (q10_mult 17 2); lia.
    + rewrite QfB, EB, feeRate_q10. apply (q10_mult 17 2); lia.
    + rewrite Qfees, QfA, QfB. apply q10_plus; lia.
    + rewrite Qnet, Qt, Qfees. apply q10_plus; lia.
    + rewrite Qm, Qnet. rewrite q10_minus by lia.
      rewrite (q10_one 19) by lia. reflexivity.
Qed.

(** A price in whole cents lies within the range of the theorem. *)
Lemma price17_cents c : 0 <= c <= 100 -> price17 (Fin c (-2)).
Proof.
  intros H. exists (c * 10 ^ 15). split.
  - exists c, (-2). split; [reflexivity | split; [lia | reflexivity]].
  - change (10 ^ 17) with (100 * 10 ^ 15). change (10 ^ 15) with 1000000000000000. lia.
Qed.

Lemma calculateArbitrage_exact_witness :
  price17 (Fin 45 (-2)) /\ price17 (Fin 38 (-2)) /\
  exists o,
    calculateArbitrage 0 (marketA Samples.clearArbitrage) (marketB Samples.clearArbitrage) 0 1
      = Some (Some o) /\
    (to_Q (totalCost o) == to_Q (Fin 45 (-2)) + to_Q (Fin 38 (-2)))%Q /\
    (to_Q (profitMargin o) == 1 - to_Q (netCost o))%Q.
Proof.
  assert (H1 : price17 (Fin 45 (-2))).
  { exists (45 * 10 ^ 15). split; [| vm_compute; split; discriminate].
    exists 45, (-2). split; [reflexivity | split; [lia | reflexivity]]. }
  assert (H2 : price17 (Fin 38 (-2))).
  { exists (38 * 10 ^ 15). split; [| vm_compute; split; discriminate].
    exists 38, (-2). split; [reflexivity | split; [lia | reflexivity]]. }
  split; [exact H1 | split; [exact H2 |]].
  destruct (calculateArbitrage_exact 0 (marketA Samples.clearArbitrage)
              (marketB Samples.clearArbitrage) 0 1
              (mkOutcome "Yes" (Fin 45 (-2))) (mkOutcome "No" (Fin 38 (-2)))
              eq_refl eq_refl H1 H2) as [_ Hsome].
  destruct Hsome as (o & Ho & _ & _ & Ht & _ & _ & _ & _ & Hm).
  - vm_compute. reflexivity.
  - exists o. split; [exact Ho | split; [exact Ht | exact Hm]].
Defined.

(** C1 (as stated) fails on a price with more than 20 significant digits:
    0.5000000000000000000001 + 0.25 is stored as 0.75. *)
Lemma calculateArbitrage_rounds :
  exists o,
    calculateArbitrage 0 (marketA Samples.longPrice) (marketB Samples.longPrice) 0 1
      = Some (Some o) /\
    length (outcomes (marketA Samples.longPrice)) = 2%nat /\
    length (outcomes (marketB Samples.longPrice)) = 2%nat /\
    totalCost o = Fin 75000000000000000000 (-20) /\
    ~ (to_Q (totalCost o) == to_Q (priceA o) + to_Q (priceB o))%Q.
Proof.
  eexists. split; [vm_compute; reflexivity |].
  split; [reflexivity | split; [reflexivity | split; [reflexivity |]]].
  vm_compute. discriminate.
Qed.

(** A sum below 1 that rounds to 1 is skipped as well. *)
Lemma calculateArbitrage_skips_below_one :
  let nines := Fin 99999999999999999999999 (-23) in
  let mA := Samples.binaryMarket "A" POLYMARKET "t" nines (Fin 0 0) in
  let mB := Samples.binaryMarket "B" MANIFOLD "t" (Fin 1 0) (Fin 0 0) in
  calculateArbitrage 0 mA mB 0 1 = Some None /\
  (to_Q nines + to_Q (Fin 0 0) < 1)%Q.
Proof. split; vm_compute; reflexivity. Qed.

Lemma calculateArbitrage_fields now mA mB iA iB o :
  calculateArbitrage now mA mB iA iB = Some (Some o) ->
  isProfitable o = greaterThan (profitMargin o) (of_Z 0) /\
  roi o = (if isProfitable o
           then times (dividedBy (profitMargin o) (netCost o)) (of_Z 100)
           else of_Z 0).
Proof.
  unfold calculateArbitrage.
  destruct (outcomes mA !! iA) as [oA|]; [|discriminate].
  destruct (outcomes mB !! iB) as [oB|]; [|discriminate].
  cbv zeta.
  destruct (greaterThanOrEqualTo _ _); [discriminate|].
  intros [= <-]. cbn. split; reflexivity.
Qed.

Lemma calculateArbitrage_total now mA mB iA iB :
  (iA < length (outcomes mA))%nat -> (iB < length (outcomes mB))%nat ->
  exists r, calculateArbitrage now mA mB iA iB = Some r.
Proof.
  intros HA HB. unfold calculateArbitrage.
  destruct (lookup_lt_is_Some_2 _ _ HA) as [oA ->].
  destruct (lookup_lt_is_Some_2 _ _ HB) as [oB ->].
  cbv zeta. destruct (greaterThanOrEqualTo _ _); eauto.
Qed.

Lemma calculateArbitrage_wellFormed now mA mB iA iB o :
  calculateArbitrage now mA mB iA iB = Some (Some o) -> wellFormed o.
Proof.
  intros H. destruct (calculateArbitrage_fields _ _ _ _ _ _ H) as [Hp Hr].
  unfold wellFormed. rewrite Hr, Hp.
  split; [tauto|]. split; intros E; rewrite E; reflexivity.
Qed.

Lemma analyzeMarketPair_total now m :
  exists opps, analyzeMarketPair now m = Some opps /\ Forall wellFormed opps.
Proof.
  unfold analyzeMarketPair.
  destruct (Nat.eqb_spec (length (outcomes (marketA m))) 2) as [EA|];
    [| cbn; eauto].
  destruct (Nat.eqb_spec (length (outcomes (marketB m))) 2) as [EB|];
    [| cbn; eauto].
  cbn [negb orb].
  destruct (calculateArbitrage_total now (marketA m) (marketB m) 0 1) as [r1 H1]; [lia | lia |].
  destruct (calculateArbitrage_total now (marketA m) (marketB m) 1 0) as [r2 H2]; [lia | lia |].
  rewrite H1, H2. cbn. eexists. split; [reflexivity|].
  destruct r1 as [o1|], r2 as [o2|]; cbn;
    repeat (apply Forall_cons; split); try apply Forall_nil;
    eauto using calculateArbitrage_wellFormed.
Qed.

Lemma allStrategies_total now matches :
  exists evaluated, allStrategies now matches = Some evaluated /\ Forall wellFormed evaluated.
Proof.
  induction matches as [|m rest (more & Hmore & Hwf)]; cbn.
  - eauto.
  - destruct (analyzeMarketPair_total now m) as (opps & -> & Hopps).
    rewrite Hmore. cbn. eexists. split; [reflexivity|].
    apply Forall_app; split; assumption.
Qed.

(** Both strategies of a pair, evaluated: the opportunities that
    [calculateArbitrage] builds, in the order of [strategies]. *)
Lemma analyzeMarketPair_strategies now m :
  analyzeMarketPair now m
  = Some (if (length (outcomes (marketA m)) =? 2)%nat
             && (length (outcomes (marketB m)) =? 2)%nat
          then flat_map (fun s : nat * nat =>
                           match calculateArbitrage now (marketA m) (marketB m) s.1 s.2 with
                           | Some (Some o) => [o]
                           | _ => []
                           end) strategies
          else []).
Proof.
  unfold analyzeMarketPair.
  destruct (Nat.eqb_spec (length (outcomes (marketA m))) 2) as [EA|]; [| reflexivity].
  destruct (Nat.eqb_spec (length (outcomes (marketB m))) 2) as [EB|]; [| reflexivity].
  cbn [negb orb andb flat_map strategies fst snd].
  destruct (calculateArbitrage_total now (marketA m) (marketB m) 0 1) as [r1 H1]; [lia | lia |].
  destruct (calculateArbitrage_total now (marketA m) (marketB m) 1 0) as [r2 H2]; [lia | lia |].
  rewrite H1, H2. destruct r1 as [o1|], r2 as [o2|]; reflexivity.
Qed.

Lemma allStrategies_strategies now matches :
  allStrategies now matches
  = Some (flat_map
            (fun m =>
               if (length (outcomes (marketA m)) =? 2)%nat
                  && (length (outcomes (marketB m)) =? 2)%nat
               then flat_map (fun s : nat * nat =>
                                match calculateArbitrage now (marketA m) (marketB m) s.1 s.2 with
                                | Some (Some o) => [o]
                                | _ => []
                                end) strategies
               else [])
            matches).
Proof.
  induction matches as [|m rest IH]; [reflexivity|].
  cbn [allStrategies flat_map]. rewrite analyzeMarketPair_strategies, IH. reflexivity.
Qed.

(** C2: [findArbitrageOpportunities] never throws and returns exactly the
    evaluated strategy results whose [isProfitable] flag is set: the
    opportunities that [calculateArbitrage] builds for the strategies (0, 1)
    and (1, 0) of every pair of two binary markets, in order, filtered on
    the flag.  Every opportunity that [calculateArbitrage] constructs has
    [isProfitable] iff [profitMargin > 0], and its [roi] is
    [profitMargin / netCost * 100] when profitable and 0 otherwise; hence
    every returned opportunity has [profitMargin > 0] and the quotient as its
    [roi] (in value, 100 times [profitMargin / netCost] rounded half up to 20
    significant digits), and an evaluation that is not profitable carries
    [roi = 0] and is not returned. *)
Theorem findArbitrageOpportunities_profitable (now : Z) (matches : list MarketMatch) :
  let binary := fun m : MarketMatch =>
    (length (outcomes (marketA m)) =? 2)%nat && (length (outcomes (marketB m)) =? 2)%nat in
  let built := fun (m : MarketMatch) (s : nat * nat) =>
    match calculateArbitrage now (marketA m) (marketB m) s.1 s.2 with
    | Some (Some o) => [o]
    | _ => []
    end in
  let evaluated :=
    flat_map (fun m => if binary m then flat_map (built m) [ (0, 1); (1, 0) ]%nat else [])
      matches in
  findArbitrageOpportunities now matches = Some (List.filter isProfitable evaluated)
  /\ (forall mA mB iA iB o,
        calculateArbitrage now mA mB iA iB = Some (Some o) ->
        (isProfitable o = true <-> greaterThan (profitMargin o) (of_Z 0) = true)
        /\ (isProfitable o = true ->
            roi o = times (dividedBy (profitMargin o) (netCost o)) (of_Z 100))
        /\ (isProfitable o = false -> roi o = of_Z 0))
  /\ (forall o, In o (List.filter isProfitable evaluated) ->
        greaterThan (profitMargin o) (of_Z 0) = true
        /\ roi o = times (dividedBy (profitMargin o) (netCost o)) (of_Z 100)
        /\ forall c1 e1 c2 e2,
             profitMargin o = Fin c1 e1 -> netCost o = Fin c2 e2 -> c2 <> 0 ->
             rounded_ratio (roi o) c1 e1 c2 e2 2)
  /\ (forall o, In o evaluated -> isProfitable o = false ->
        roi o = of_Z 0 /\ ~ In o (List.filter isProfitable evaluated)).
Proof.
  cbv zeta.
  set (evaluated := flat_map _ matches).
  assert (Hbuilt : forall o, In o evaluated ->
            exists mA mB iA iB, calculateArbitrage now mA mB iA iB = Some (Some o)).
  { intros o Ho. apply in_flat_map in Ho as (m & _ & Ho).
    destruct (_ && _); [| destruct Ho].
    apply in_flat_map in Ho as ([iA iB] & _ & Ho). cbn [fst snd] in Ho.
    destruct (calculateArbitrage now (marketA m) (marketB m) iA iB) as [[o'|]|] eqn:E;
      [| destruct Ho | destruct Ho].
    destruct Ho as [<- | []]. eauto. }
  split; [| split; [| split]].
  - unfold findArbitrageOpportunities. rewrite allStrategies_strategies. reflexivity.
  - intros mA mB iA iB o Ho. exact (calculateArbitrage_wellFormed _ _ _ _ _ _ Ho).
  - intros o Ho. apply filter_In in Ho as [Ho Hp].
    destruct (Hbuilt o Ho) as (mA & mB & iA & iB & Hc).
    destruct (calculateArbitrage_wellFormed _ _ _ _ _ _ Hc) as (H1 & H2 & _).
    split; [now apply H1 | split; [now apply H2|]].
    intros c1 e1 c2 e2 Hm Hn Hc2.
    rewrite (H2 Hp), Hm, Hn. apply percentage_rounded_ratio; [|exact Hc2].
    apply H1 in Hp. rewrite Hm in Hp. apply greaterThan_zero in Hp. lia.
  - intros o Ho Hp.
    destruct (Hbuilt o Ho) as (mA & mB & iA & iB & Hc).
    destruct (calculateArbitrage_wellFormed _ _ _ _ _ _ Hc) as (_ & _ & H3).
    split; [now apply H3|].
    intros Hin. apply filter_In in Hin as [_ Hin]. congruence.
Qed.

(** C7 (failing input): with the thresholds 5 percent and 0.01 dollar the
    opportunity of scenario 3, whose ROI is 4.21 percent, passes
    [meetsAlertThreshold], because the percentage is multiplied by 100 a
    second time. *)
Lemma meetsAlertThreshold_double_percent :
  exists o,
    findArbitrageOpportunities 0 [Samples.edgeCase] = Some [o] /\
    roi o = Fin 42100875364735306378 (-19) /\
    (to_Q (roi o) < 5)%Q /\
    minProfitPercent Samples.lowAmountAlerts = Num 5 /\
    toNumber (times (roi o) (of_Z 100)) = Num (to_Q (Fin 42100875364735306378 (-17))) /\
    meetsAlertThreshold Samples.lowAmountAlerts o = true.
Proof.
  eexists. split; [vm_compute; reflexivity |].
  repeat split; vm_compute; reflexivity.
Qed.

End CalculatorFacts.

(** ** Retry driver *)

Module RetryFacts.
Import Retry.

Lemma loop_returned {T E} (fn : nat -> T + E) opts remaining i v :
  outcome (loop fn opts remaining i) = inl v -> exists k, fn k = inl v.
Proof.
  revert i. induction remaining as [|r IH]; intros i; cbn [loop]; [discriminate|].
  destruct (fn i) as [v'|e] eqn:Efn.
  - cbn. intros [= <-]. eauto.
  - destruct (i =? maxRetries opts - 1)%nat; [discriminate|].
    destruct (negb (shouldRetry opts e)); [discriminate|].
    unfold prepend. cbn [outcome]. apply IH.
Qed.

Lemma retryWithBackoff_returned {T E} (fn : nat -> T + E) opts v :
  outcome (retryWithBackoff fn opts) = inl v -> exists k, fn k = inl v.
Proof. apply loop_returned. Qed.

Section Facts.
Context {T E : Type}.
Implicit Types (fn : nat -> T + E) (opts : RetryOptions E) (errs : nat -> E).

(** The loop, entered at iteration [i] with the iterations [i .. i + k - 1]
    failing on retryable errors and iteration [i + k] failing for good. *)
Lemma loop_failedThenLast fn opts errs e (k : nat) :
  forall (i remaining : nat),
    (i + remaining = maxRetries opts)%nat ->
    (i + k < maxRetries opts)%nat ->
    (forall j, (i <= j < i + k)%nat -> fn j = inr (errs j) /\ shouldRetry opts (errs j) = true) ->
    fn (i + k)%nat = inr e ->
    shouldRetry opts e = false \/ (i + k = maxRetries opts - 1)%nat ->
    loop fn opts remaining i = mkRun (inr (FnError e)) (failedThenLast opts i k).
Proof.
  induction k as [|k IH]; intros i remaining Hsum Hlt Hfail Hlast Hstop.
  - destruct remaining as [|r]; [lia|]. cbn [loop].
    rewrite Nat.add_0_r in *. rewrite Hlast.
    unfold failedThenLast. cbn. rewrite Nat.add_0_r.
    destruct (Nat.eqb_spec i (maxRetries opts - 1)); [reflexivity|].
    destruct Hstop as [-> | ?]; [reflexivity | lia].
  - destruct remaining as [|r]; [lia|]. cbn [loop].
    destruct (Hfail i) as [Hi Hr]; [lia|]. rewrite Hi, Hr.
    destruct (Nat.eqb_spec i (maxRetries opts - 1)); [lia|]. cbn [negb].
    rewrite (IH (S i) r); try lia.
    + unfold prepend, failedThenLast. cbn.
      replace (S (i + k)) with (i + S k)%nat by lia. reflexivity.
    + intros j Hj. apply Hfail. lia.
    + now replace (S i + k)%nat with (i + S k)%nat by lia.
    + replace (S i + k)%nat with (i + S k)%nat by lia. exact Hstop.
Qed.

Lemma attempts_failedThenLast opts i k (r : T + RetryError E) :
  attempts (mkRun r (failedThenLast opts i k)) = S k.
Proof.
  unfold attempts, failedThenLast. cbn [events].
  rewrite List.filter_app, length_app. cbn.
  revert i. induction k as [|k IH]; intros i; cbn; [reflexivity|].
  specialize (IH (S i)). lia.
Qed.

Lemma sleeps_failedThenLast opts i k (r : T + RetryError E) :
  sleeps (mkRun r (failedThenLast opts i k)) = List.map (backoff opts) (seq i k).
Proof.
  unfold sleeps, failedThenLast. cbn [events].
  rewrite omap_app. cbn. rewrite app_nil_r.
  revert i. induction k as [|k IH]; intros i; cbn; [reflexivity|].
  now rewrite IH.
Qed.

(** C9: (1) when every attempt fails on an error accepted by [shouldRetry],
    exactly [maxRetries] attempts are made, the sleep after attempt [i + 1]
    is [min(initialDelay * 2^i, maxDelay)] for i = 0 .. maxRetries - 2, and the
    error of the last attempt is thrown (with no attempt at all, the
    [Error('Retry failed')] after the loop); (2) an error met at an attempt
    where [shouldRetry] is false, or which is the last attempt, is thrown
    with no further attempt. *)
Theorem retryWithBackoff_spec fn opts errs :
  let N := maxRetries opts in
  ((forall i, (i < N)%nat -> fn i = inr (errs i) /\ shouldRetry opts (errs i) = true) ->
   let run := retryWithBackoff fn opts in
   attempts run = N /\
   sleeps run = List.map (fun i => Z.min (initialDelay opts * 2 ^ Z.of_nat i) (maxDelay opts))
                  (seq 0 (N - 1)) /\
   outcome run = inr (match N with
                      | O => RetryFailed
                      | S last => FnError (errs last)
                      end)) /\
  (forall (k : nat) (e : E),
     (k < N)%nat ->
     (forall i, (i < k)%nat -> fn i = inr (errs i) /\ shouldRetry opts (errs i) = true) ->
     fn k = inr e ->
     shouldRetry opts e = false \/ k = (N - 1)%nat ->
     let run := retryWithBackoff fn opts in
     outcome run = inr (FnError e) /\
     attempts run = S k /\
     sleeps run = List.map (fun i => Z.min (initialDelay opts * 2 ^ Z.of_nat i) (maxDelay opts))
                    (seq 0 k)).
Proof.
  cbv zeta. remember (maxRetries opts) as N eqn:EN.
  assert (Hstop : forall (k : nat) (e : E),
     (k < N)%nat ->
     (forall i, (i < k)%nat -> fn i = inr (errs i) /\ shouldRetry opts (errs i) = true) ->
     fn k = inr e ->
     shouldRetry opts e = false \/ k = (N - 1)%nat ->
     retryWithBackoff fn opts = mkRun (inr (FnError e)) (failedThenLast opts 0 k)).
  { intros k e Hk Hfail Hlast Hs. unfold retryWithBackoff.
    apply (loop_failedThenLast fn opts errs e k 0 (maxRetries opts)); cbn; try lia; auto.
    - intros j Hj. apply Hfail. lia.
    - destruct Hs; [now left | right; lia]. }
  split.
  - intros Hall.
    destruct N as [|last].
    + unfold retryWithBackoff. rewrite <- EN. cbn. auto.
    + destruct (Hall last) as [Hl _]; [lia|].
      assert (Hrun : retryWithBackoff fn opts
                     = mkRun (inr (FnError (errs last))) (failedThenLast opts 0 last)).
      { apply Hstop; [lia | | exact Hl | right; lia].
        intros i Hi. apply Hall. lia. }
      rewrite Hrun, attempts_failedThenLast, sleeps_failedThenLast. cbn [outcome].
      replace (S last - 1)%nat with last by lia. auto.
  - intros k e Hk Hfail Hlast Hs.
    rewrite (Hstop k e Hk Hfail Hlast Hs).
    rewrite attempts_failedThenLast, sleeps_failedThenLast. auto.
Qed.

End Facts.

Lemma retryWithBackoff_spec_witness :
  let fn : nat -> nat + string := fun i => inr "ETIMEDOUT"%string in
  let opts := mkRetryOptions 3 1000 10000 (fun _ : string => true) in
  attempts (retryWithBackoff fn opts) = 3%nat /\
  sleeps (retryWithBackoff fn opts) = [1000; 2000] /\
  outcome (retryWithBackoff fn opts) = inr (FnError "ETIMEDOUT"%string).
Proof.
  intros fn opts.
  destruct (retryWithBackoff_spec fn opts (fun _ => "ETIMEDOUT"%string)) as [Hall _].
  apply Hall. intros i Hi. split; reflexivity.
Defined.

End RetryFacts.

(** ** Matcher *)

Module MatcherFacts.
Import MarketMatcher.

Lemma nan_gt_days ta tb :
  nan_gt (daysDiff (ValidDate ta) (ValidDate tb)) 30 = true
  <-> 30 * 86400000 < Z.abs (ta - tb).
Proof.
  cbn. rewrite negb_true_iff, <- not_true_iff_false, Qle_bool_iff.
  unfold Qle. cbn. lia.
Qed.

Lemma dateFilter_spec a b :
  match endDate a, endDate b with
  | Some dA, Some dB => nan_gt (daysDiff dA dB) 30
  | _, _ => false
  end = true <-> endDatesApart a b.
Proof.
  unfold endDatesApart.
  destruct (endDate a) as [[ta|]|], (endDate b) as [[tb|]|].
  1: { rewrite nan_gt_days. split.
       - intros H. exists ta, tb. auto.
       - intros (ta' & tb' & [= <-] & [= <-] & H). exact H. }
  all: split; [discriminate | intros (ta' & tb' & E1 & E2 & _); discriminate].
Qed.

Lemma hasOverlap_spec (wordsA wordsB : list string) :
  existsb (fun word => bool_decide (word ∈ wordsB)) wordsA = true
  <-> exists w, In w wordsA /\ In w wordsB.
Proof.
  rewrite existsb_exists. split; intros (w & Hw & H); exists w; split; auto.
  - apply bool_decide_eq_true in H. now apply list_elem_of_In.
  - apply bool_decide_eq_true. now apply list_elem_of_In.
Qed.

Lemma preFilter_spec a b :
  preFilter a b = true
  <-> ~ endDatesApart a b /\ shareKeyword a b
      /\ length (outcomes a) = length (outcomes b).
Proof.
  unfold preFilter. rewrite <- dateFilter_spec.
  destruct (match endDate a, endDate b with
            | Some dA, Some dB => nan_gt (daysDiff dA dB) 30
            | _, _ => false
            end).
  - split; [discriminate | intros [H _]; now elim H].
  - cbv zeta. unfold shareKeyword. rewrite <- hasOverlap_spec.
    destruct (existsb _ _); cbn [negb].
    + destruct (Nat.eqb_spec (length (outcomes a)) (length (outcomes b))); cbn [negb].
      * split; auto. 
      * split; [discriminate | intros (_ & _ & H); contradiction].
    + split; [discriminate | intros (_ & H & _); discriminate].
Qed.

Lemma extractKeywords_spec (t w : string) :
  In w (extractKeywords t)
  <-> In w (tokens t) /\ (2 < String.length w)%nat /\ ~ In w stopWords.
Proof.
  unfold extractKeywords, tokens. rewrite filter_In, andb_true_iff.
  rewrite Nat.ltb_lt, negb_true_iff, bool_decide_eq_false, list_elem_of_In.
  tauto.
Qed.

(** C6: a candidate of list B is kept by the pre-filter, and so presented to
    the ranker, iff (1) the two markets do not both carry an end date more
    than 30 days apart, (2) the keyword sets of the titles share an element,
    (3) the outcome counts agree; a keyword is a lowercased token of length
    above 2 outside the stop words; a missing end date never rejects. *)
Theorem preFilterCandidates_iff (a b : StandardMarket) (marketsB : list StandardMarket) :
  (In b (preFilterCandidates a marketsB)
   <-> In b marketsB
       /\ ~ endDatesApart a b
       /\ shareKeyword a b
       /\ length (outcomes a) = length (outcomes b))
  /\ (forall t w,
        In w (extractKeywords t)
        <-> In w (tokens t) /\ (2 < String.length w)%nat /\ ~ In w stopWords)
  /\ (endDate a = None \/ endDate b = None -> ~ endDatesApart a b)
  /\ (forall search rest,
        preFilterCandidates a marketsB <> [] ->
        findMatches search (a :: rest) marketsB
        = match search (preFilterCandidates a marketsB) (title a) with
          | [] => findMatches search rest marketsB
          | (item, d) :: _ =>
              mkMatch a item (Math_round ((1 - d) * 100)%Q) fuzzy
              :: findMatches search rest marketsB
          end)
  /\ (forall search rest,
        preFilterCandidates a marketsB = [] ->
        findMatches search (a :: rest) marketsB = findMatches search rest marketsB).
Proof.
  split; [| split; [| split; [| split]]].
  - unfold preFilterCandidates. rewrite filter_In, preFilter_spec. tauto.
  - intros t w. apply extractKeywords_spec.
  - intros [H|H] (ta & tb & E1 & E2 & _); congruence.
  - intros search rest Hne. cbn [findMatches].
    destruct (preFilterCandidates a marketsB) as [|c cs] eqn:E; [contradiction|].
    unfold findBestMatch.
    destruct (search (c :: cs) (title a)) as [|[item d] more]; reflexivity.
  - intros search rest E. cbn [findMatches]. now rewrite E.
Qed.

Section Ranker.
Variable search : FuseSearch.





End Ranker.




Lemma preFilterCandidates_iff_witness :
  In Samples.trumpMarket (preFilterCandidates Samples.trumpMarket [Samples.trumpMarket]).
Proof.
  apply (proj1 (preFilterCandidates_iff Samples.trumpMarket Samples.trumpMarket
                  [Samples.trumpMarket])).
  split; [now left|]. split; [| split; [| reflexivity]].
  - intros (ta & tb & E & _). discriminate E.
  - exists "trump"%string. split; vm_compute; auto.
Defined.

End MatcherFacts.

(** ** Adapters *)

Module AdapterFacts.
Import AdapterSupport PolyMarketAdapter KalshiAdapter ManifoldAdapter RetryFacts.

Lemma mapi_opt_Forall2 {A B} (f : A -> nat -> option B) xs i ys :
  mapi_opt f xs i = Some ys ->
  Forall2 (fun x y => exists j, f x j = Some y) xs ys.
Proof.
  revert i ys. induction xs as [|x rest IH]; intros i ys; cbn.
  - intros [= <-]. constructor.
  - destruct (f x i) as [y|] eqn:E; [|discriminate]. cbn.
    destruct (mapi_opt f rest (S i)) as [ys0|] eqn:E'; [|discriminate]. cbn.
    intros [= <-]. constructor; [eauto | eapply IH, E'].
Qed.

Lemma Forall2_map_self {A B} (R : A -> B -> Prop) (f : A -> B) (l : list A) :
  (forall x, In x l -> R x (f x)) -> Forall2 R l (List.map f l).
Proof.
  induction l as [|x rest IH]; intros H; cbn; constructor.
  - apply H. now left.
  - apply IH. intros y Hy. apply H. now right.
Qed.

Lemma filter_sublist {A} (f : A -> bool) (l : list A) : sublist (List.filter f l) l.
Proof.
  induction l as [|x rest IH]; cbn; [constructor|].
  destruct (f x); [now apply sublist_skip | now apply sublist_cons].
Qed.

Lemma mapi_opt_names (f : string -> nat -> option Outcome) names i outs :
  (forall nm index o, f nm index = Some o -> name o = nm) ->
  mapi_opt f names i = Some outs ->
  List.map name outs = names.
Proof.
  intros Hf. revert i outs. induction names as [|nm rest IH]; intros i outs; cbn.
  - now intros [= <-].
  - destruct (f nm i) as [o|] eqn:Eo; [|discriminate]. cbn.
    destruct (mapi_opt f rest (S i)) as [outs0|] eqn:E; [|discriminate]. cbn.
    intros [= <-]. cbn. f_equal; [eapply Hf, Eo | eapply IH, E].
Qed.

Section Parsers.
Variable parseDate : string -> JsDate.
Variable parseDecimal : string -> option Decimal.t.

Lemma pm_toStandardMarket_shape payload m :
  PolyMarketAdapter.toStandardMarket parseDate parseDecimal payload = Some m ->
  platform m = POLYMARKET /\ id m = pm_id payload /\ title m = question payload
  /\ List.map name (outcomes m) = pm_outcomes payload.
Proof.
  unfold PolyMarketAdapter.toStandardMarket.
  destruct (mapi_opt _ (pm_outcomes payload) 0) as [outs|] eqn:E; [|discriminate]. cbn.
  destruct (match truthy_string (pm_liquidity payload) with
            | Some raw => _
            | None => _
            end) as [liq|]; [|discriminate]. cbn.
  intros [= <-]. cbn. repeat split.
  eapply mapi_opt_names; [|exact E].
  intros nm index o. cbn.
  destruct (outcomePrices payload !! index) as [raw|]; [|discriminate]. cbn.
  destruct (parseDecimal raw); [|discriminate]. cbn. now intros [= <-].
Qed.

End Parsers.

Lemma cents_range ask :
  (forall c, ask = Some c -> 0 <= c <= 100) ->
  Decimal.lessThanOrEqualTo (Decimal.of_Z 0) (cents ask) = true
  /\ Decimal.lessThanOrEqualTo (cents ask) (Decimal.of_Z 1) = true.
Proof.
  intros H. unfold cents. destruct ask as [c|]; [|split; reflexivity].
  specialize (H c eq_refl).
  destruct (Z.eqb_spec c 0); [split; reflexivity|].
  unfold Decimal.lessThanOrEqualTo, Decimal.of_Z, Decimal.cmp.
  change (0 - Z.min 0 (-2)) with 2. change (-2 - Z.min 0 (-2)) with 0.
  change (-2 - Z.min (-2) 0) with 0. change (0 - Z.min (-2) 0) with 2.
  change (10 ^ 2) with 100. change (10 ^ 0) with 1.
  split.
  - destruct (Z.compare_spec (0 * 100) (c * 1)); try reflexivity; lia.
  - destruct (Z.compare_spec (c * 1) (1 * 100)); try reflexivity; lia.
Qed.

(** C3 (amended): the markets that a [fetchMarkets] returns are the
    conversions of payloads of one response, in order: of all of them for
    PolyMarket, of retained ones for Kalshi and Manifold.  A Kalshi or
    Manifold market carries its platform tag and exactly two outcomes, YES/NO
    and Yes/No; a PolyMarket market has one outcome per entry of its
    payload's outcomes array, under the same names; id and title are the
    payload's id or ticker and question or title, unchanged; the prices of a
    Kalshi market lie in [0,1] when the asks of its payload are between 0
    and 100 cents. *)
Theorem fetchMarkets_shape
    (parseDate : string -> JsDate) (parseDecimal : string -> option Decimal.t)
    (number : Type) (falsy : number -> bool) (one_minus : number -> number)
    (half : number) (numberToDecimal : number -> Decimal.t)
    (timeToDate : number -> JsDate) :
  (forall http markets,
     Retry.outcome (PolyMarketAdapter.fetchMarkets parseDate parseDecimal http) = inl markets ->
     exists k data,
       http k = inl (Some data)
       /\ Forall2 (fun payload m =>
                     platform m = POLYMARKET
                     /\ id m = pm_id payload /\ title m = question payload
                     /\ List.map name (outcomes m) = pm_outcomes payload
                     /\ length (outcomes m) = length (pm_outcomes payload))
                  data markets)
  /\ (forall http markets,
        Retry.outcome (KalshiAdapter.fetchMarkets parseDate http) = inl markets ->
        exists k data kept,
          http k = inl (Some data)
          /\ sublist kept data
          /\ Forall2 (fun payload m =>
                        platform m = KALSHI
                        /\ length (outcomes m) = 2%nat
                        /\ id m = ticker payload /\ title m = k_title payload
                        /\ market_type payload = binary
                        /\ outcomes m = [ mkOutcome "YES" (cents (yes_ask payload));
                                          mkOutcome "NO" (cents (no_ask payload)) ]
                        /\ ((forall c, yes_ask payload = Some c -> 0 <= c <= 100) ->
                            (forall c, no_ask payload = Some c -> 0 <= c <= 100) ->
                            Forall (fun o =>
                                      Decimal.lessThanOrEqualTo (Decimal.of_Z 0) (price o) = true
                                      /\ Decimal.lessThanOrEqualTo (price o) (Decimal.of_Z 1)
                                         = true)
                                   (outcomes m)))
                     kept markets)
  /\ (forall lim http markets,
        Retry.outcome (ManifoldAdapter.fetchMarkets number falsy one_minus half numberToDecimal
                         timeToDate lim http) = inl markets ->
        exists k data kept,
          http k = inl (Some data)
          /\ sublist kept data
          /\ Forall2 (fun payload m =>
                        platform m = MANIFOLD
                        /\ length (outcomes m) = 2%nat
                        /\ List.map name (outcomes m) = [ "Yes"; "No" ]%string
                        /\ id m = m_id number payload
                        /\ title m = m_question number payload)
                     kept markets)
  /\ (forall ask,
        (forall c, ask = Some c -> 0 <= c <= 100) ->
        Decimal.lessThanOrEqualTo (Decimal.of_Z 0) (cents ask) = true
        /\ Decimal.lessThanOrEqualTo (cents ask) (Decimal.of_Z 1) = true).
Proof.
  split; [| split; [| split]].
  - intros http markets Hrun.
    apply retryWithBackoff_returned in Hrun as [k Hk].
    unfold PolyMarketAdapter.operation in Hk.
    destruct (http k) as [[data|]|ax] eqn:Ehttp; try discriminate.
    destruct (mapi_opt _ data 0) as [ms|] eqn:E; [|discriminate].
    injection Hk as <-. exists k, data. split; [exact Ehttp|].
    eapply Forall2_impl; [exact (mapi_opt_Forall2 _ _ _ _ E)|].
    intros payload m [j Hp]. cbn in Hp.
    apply (pm_toStandardMarket_shape parseDate parseDecimal) in Hp as (H1 & H2 & H3 & H4).
    repeat split; auto. rewrite <- H4. now rewrite length_map.
  - intros http markets Hrun.
    apply retryWithBackoff_returned in Hrun as [k Hk].
    unfold KalshiAdapter.operation in Hk.
    destruct (http k) as [[data|]|ax] eqn:Ehttp; try discriminate.
    injection Hk as <-. exists k, data, (List.filter isBinary data).
    split; [exact Ehttp | split; [apply filter_sublist|]].
    apply Forall2_map_self. intros payload Hin. apply filter_In in Hin as [_ Hb].
    split; [reflexivity | split; [reflexivity | split; [reflexivity | split; [reflexivity|]]]].
    split; [| split; [reflexivity|]].
    + unfold isBinary in Hb. destruct (market_type payload); [reflexivity | discriminate].
    + intros Hy Hn. cbn [KalshiAdapter.toStandardMarket outcomes].
      repeat constructor; cbn [price]; now apply cents_range.
  - intros lim http markets Hrun.
    apply retryWithBackoff_returned in Hrun as [k Hk].
    unfold ManifoldAdapter.operation in Hk.
    destruct (http k) as [[data|]|ax] eqn:Ehttp; try discriminate.
    injection Hk as <-.
    exists k, data, (take lim (List.filter (isBinaryMarket number) data)).
    split; [exact Ehttp | split].
    + etransitivity; [apply sublist_take | apply filter_sublist].
    + apply Forall2_map_self. intros payload _. repeat split.
  - apply cents_range.
Qed.

Lemma fetchMarkets_shape_witness :
  let http : nat -> HttpOutcome (list KalshiMarket) :=
    fun _ => inl (Some [Samples.kalshiSample]) in
  let m := KalshiAdapter.toStandardMarket Samples.noDate Samples.kalshiSample in
  Retry.outcome (KalshiAdapter.fetchMarkets Samples.noDate http) = inl [m]
  /\ exists k data kept,
       http k = inl (Some data) /\ sublist kept data /\ length kept = 1%nat.
Proof.
  intros http m.
  assert (Hrun : Retry.outcome (KalshiAdapter.fetchMarkets Samples.noDate http) = inl [m])
    by reflexivity.
  split; [exact Hrun|].
  destruct (fetchMarkets_shape Samples.noDate plainDecimal Z (Z.eqb 0) (Z.sub 1) 0
              Decimal.of_Z ValidDate) as (_ & HK & _).
  destruct (HK http [m] Hrun) as (k & data & kept & H1 & H2 & H3).
  exists k, data, kept. split; [exact H1 | split; [exact H2|]].
  exact (Forall2_length _ _ _ H3).
Defined.

(** C3 (as stated) fails for the PolyMarket adapter: a payload with three
    outcomes, the price 1.5 and an empty id and question is passed on as it
    is. *)
Lemma pm_fetchMarkets_unchecked :
  exists m,
    Retry.outcome (PolyMarketAdapter.fetchMarkets Samples.noDate plainDecimal
                     (fun _ => inl (Some [Samples.threeWay]))) = inl [m]
    /\ length (outcomes m) = 3%nat
    /\ Exists (fun o => Decimal.lessThanOrEqualTo (price o) (Decimal.of_Z 1) = false)
              (outcomes m)
    /\ id m = EmptyString /\ title m = EmptyString
    /\ ~ meetsInvariants m.
Proof.
  eexists. split; [vm_compute; reflexivity|].
  split; [reflexivity|]. split.
  - apply Exists_cons_tl, Exists_cons_tl, Exists_cons_hd. reflexivity.
  - split; [reflexivity | split; [reflexivity|]].
    intros (H & _). discriminate H.
Qed.

(** Kalshi hands on an ask above 100 cents and an empty ticker as well. *)
Lemma k_fetchMarkets_unchecked :
  let payload := mkKalshiMarket "" binary "" "" (Some 150) None None None in
  exists m,
    Retry.outcome (KalshiAdapter.fetchMarkets Samples.noDate (fun _ => inl (Some [payload]))) = inl [m]
    /\ Exists (fun o => Decimal.lessThanOrEqualTo (price o) (Decimal.of_Z 1) = false)
              (outcomes m)
    /\ id m = EmptyString.
Proof.
  eexists. split; [vm_compute; reflexivity|].
  split; [apply Exists_cons_hd; reflexivity | reflexivity].
Qed.

Section ById.
Variable parseDate : string -> JsDate.
Variable parseDecimal : string -> option Decimal.t.

(** C10 (amended): Kalshi's [fetchMarketByTicker] returns [null] exactly
    when the request fails with status 404 and throws the classified error
    on every other failure; PolyMarket's [fetchMarketById] never throws:
    it returns [null] on every failure, whatever its kind. *)
Theorem fetchById_spec :
  (forall http,
     KalshiAdapter.fetchMarketByTicker parseDate http = inl None
     <-> exists retryAfter code, http = inr (mkAxiosError (Some (404, retryAfter)) code))
  /\ (forall http,
        (forall payload, http <> inl (Some payload)) ->
        (forall retryAfter code, http <> inr (mkAxiosError (Some (404, retryAfter)) code)) ->
        exists error,
          KalshiAdapter.fetchMarketByTicker parseDate http = inr error
          /\ error = classifyError
                       (match http with
                        | inr ax => AxiosErr ax
                        | inl _ => OwnErr ValidationError
                        end) "Kalshi")
  /\ (forall http payload,
        http = inl (Some payload) ->
        KalshiAdapter.fetchMarketByTicker parseDate http = inl (Some (KalshiAdapter.toStandardMarket parseDate payload)))
  /\ (forall http, exists r, PolyMarketAdapter.fetchMarketById parseDate parseDecimal http = inl r)
  /\ (forall http,
        PolyMarketAdapter.fetchMarketById parseDate parseDecimal http = inl None
        <-> (forall payload m,
               http = inl (Some payload) ->
               PolyMarketAdapter.toStandardMarket parseDate parseDecimal payload <> Some m)).
Proof.
  split; [| split; [| split; [| split]]].
  - intros http. unfold KalshiAdapter.fetchMarketByTicker.
    destruct http as [[payload|]|[[[st ra]|] code]]; cbn.
    + split; [discriminate | intros (? & ? & [=])].
    + split; [discriminate | intros (? & ? & [=])].
    + destruct (Z.eqb_spec st 429) as [->|Hne]; cbn.
      * split; [discriminate | intros (? & ? & [=])].
      * case_bool_decide as Hst; cbn.
        -- injection Hst as ->. split; eauto.
        -- split; [discriminate | intros (? & ? & [= -> _ _]); congruence].
    + split; [discriminate | intros (? & ? & [=])].
  - intros http Hfail H404. unfold KalshiAdapter.fetchMarketByTicker.
    destruct http as [[payload|]|[[[st ra]|] code]]; cbn.
    + now elim (Hfail payload).
    + eauto.
    + destruct (Z.eqb_spec st 429) as [->|Hne]; cbn; [eauto|].
      case_bool_decide as Hst; cbn; [|eauto].
      injection Hst as ->. now elim (H404 ra code).
    + eauto.
  - intros http payload ->. reflexivity.
  - intros http. unfold PolyMarketAdapter.fetchMarketById.
    destruct http as [[payload|]|ax]; cbn; eauto.
    destruct (PolyMarketAdapter.toStandardMarket parseDate parseDecimal payload); eauto.
  - intros http. unfold PolyMarketAdapter.fetchMarketById.
    destruct http as [[payload|]|ax]; cbn.
    + destruct (PolyMarketAdapter.toStandardMarket parseDate parseDecimal payload) as [m|] eqn:E.
      * split; [discriminate|]. intros H. now elim (H payload m eq_refl).
      * split; [|reflexivity]. intros _ payload' m' [= <-]. congruence.
    + split; [|reflexivity]. intros _ payload m [=].
    + split; [|reflexivity]. intros _ payload m [=].
Qed.

End ById.

(** Manifold's [fetchMarketBySlug] answers every failure by [null] too. *)
Lemma m_fetchMarketBySlug_never_throws
    (number : Type) (falsy : number -> bool) (one_minus : number -> number)
    (half : number) (numberToDecimal : number -> Decimal.t)
    (timeToDate : number -> JsDate) http :
  exists r,
    ManifoldAdapter.fetchMarketBySlug number falsy one_minus half numberToDecimal
      timeToDate http = inl r.
Proof.
  unfold ManifoldAdapter.fetchMarketBySlug.
  destruct http as [[payload|]|ax]; cbn; eauto.
  destruct (negb _); eauto.
Qed.

Lemma fetchById_spec_witness :
  KalshiAdapter.fetchMarketByTicker Samples.noDate (inr Samples.serverError)
  = inr (APIError "Kalshi" (Some 500)).
Proof.
  destruct (fetchById_spec Samples.noDate plainDecimal) as (_ & Hthrow & _).
  destruct (Hthrow (inr Samples.serverError)) as (error & -> & ->).
  - intros payload H. discriminate H.
  - intros retryAfter code H. discriminate H.
  - reflexivity.
Defined.

(** C10 (as stated) fails for the PolyMarket adapter: a time-out and a
    status 500 are answered by [null], not by an error. *)
Lemma pm_fetchMarketById_swallows :
  PolyMarketAdapter.fetchMarketById Samples.noDate plainDecimal (inr Samples.timedOut) = inl None
  /\ PolyMarketAdapter.fetchMarketById Samples.noDate plainDecimal (inr Samples.serverError) = inl None
  /\ response Samples.serverError = Some (500, None)
  /\ PolyMarketAdapter.fetchMarketById Samples.noDate plainDecimal (inl None) = inl None.
Proof. repeat split. Qed.

End AdapterFacts.

(** ** Alert dispatcher *)

Module AlertFacts.
Import Alerts.

Lemma posts_snoc_log tr : posts (tr ++ [EvLogError]) = posts tr.
Proof. unfold posts. rewrite List.filter_app. cbn. apply app_nil_r. Qed.

Lemma posts_logs logs : Forall (eq EvLogError) logs -> posts logs = [].
Proof. induction 1 as [|ev logs <- _ IH]; [reflexivity | exact IH]. Qed.

Lemma posts_app tr tr' : posts (tr ++ tr') = posts tr ++ posts tr'.
Proof. apply List.filter_app. Qed.

Ltac alert_goal :=
  first
    [ reflexivity
    | discriminate
    | assumption
    | (rewrite <- ?app_assoc; reflexivity)
    | (repeat constructor) ].

Lemma sendArbitrageAlert_outcome cfg env opportunity w :
  fst (sendArbitrageAlert cfg env opportunity w) = inl tt
  /\ callOutcome cfg env opportunity w (snd (sendArbitrageAlert cfg env opportunity w))
  /\ (enabled cfg = false -> snd (sendArbitrageAlert cfg env opportunity w) = w)
  /\ (redisUp env = true ->
      is_Some (cache w !! CacheKeys.alertSent (id (oppMarketA opportunity))
                            (id (oppMarketB opportunity))) ->
      snd (sendArbitrageAlert cfg env opportunity w) = w).
Proof.
  unfold sendArbitrageAlert, try_catch, isInCooldown, markAlerted, sendToDiscord,
    Cache.get, Cache.set, post, bind, ret, throw, emit, try_catch.
  set (idA := id (oppMarketA opportunity)). set (idB := id (oppMarketB opportunity)).
  set (key := CacheKeys.alertSent idA idB).
  destruct w as [c tr]. cbn [cache trace].
  destruct (enabled cfg) eqn:Hen; cbn [negb].
  2: { cbn. split; [reflexivity | split; [now apply call_skipped | auto]]. }
  destruct (redisUp env) eqn:Hup.
  - cbn [fst snd cache trace]. pose proof (eq_refl (c !! key)) as Hk.
    destruct (c !! key) as [v|] in Hk at 2; rewrite Hk; cbn -[posts].
    { split; [reflexivity | split; [now apply call_skipped | auto]]. }
    destruct (bool_decide (discordWebhook cfg = "")) eqn:Hurl; cbn -[posts].
    { split; [reflexivity | split; [| split; [discriminate | intros _ [? ?]; discriminate]]].
      apply bool_decide_eq_true in Hurl.
      apply (call_unsent _ _ _ _ _ [EvLogError]); cbn; alert_goal. }
    destruct (webhook env (length (posts tr))) eqn:Hpost; cbn -[posts]; rewrite ?Hup;
      cbn -[posts];
      (split; [reflexivity | split; [| split; [discriminate | intros _ [? ?]; discriminate]]]).
    + apply call_sent_marked; cbn; alert_goal.
    + apply (call_failed _ _ _ _ _ (PostRejected status) []); cbn; alert_goal.
    + apply (call_failed _ _ _ _ _ PostFailed []); cbn; alert_goal.
  - cbn -[posts].
    destruct (bool_decide (discordWebhook cfg = "")) eqn:Hurl; cbn -[posts].
    { split; [reflexivity | split; [| split; [discriminate | discriminate]]].
      apply bool_decide_eq_true in Hurl.
      apply (call_unsent _ _ _ _ _ [EvLogError; EvLogError]); cbn; alert_goal. }
    rewrite !posts_snoc_log.
    destruct (webhook env (length (posts tr))) eqn:Hpost; cbn -[posts]; rewrite ?Hup;
      cbn -[posts];
      (split; [reflexivity | split; [| split; [discriminate | discriminate]]]).
    + apply call_sent_unmarked; cbn; alert_goal.
    + apply (call_failed _ _ _ _ _ (PostRejected status) [EvLogError]); cbn; alert_goal.
    + apply (call_failed _ _ _ _ _ PostFailed [EvLogError]); cbn; alert_goal.
Qed.

(** After a successful POST for a pair, further calls for the pair post
    nothing as long as the key has not expired. *)
Lemma successiveAlerts_posts cfg env a b opps :
  redisUp env = true ->
  Forall (fun o => id (oppMarketA o) = a /\ id (oppMarketB o) = b) opps ->
  forall w,
  exists new,
    trace (successiveAlerts cfg env opps w) = trace w ++ new
    /\ (is_Some (cache w !! CacheKeys.alertSent a b) -> posts new = [])
    /\ (forall pre post, posts new = pre ++ EvPost a b PostOk :: post -> post = [])
    /\ Forall (fun ev => exists r, ev = EvPost a b r) (posts new).
Proof.
  intros Hup Hids. induction Hids as [|o rest [<- <-] _ IH]; intros w; cbn [successiveAlerts].
  - exists []. rewrite app_nil_r. split; [reflexivity|]. split; [reflexivity|].
    split; [|constructor]. intros pre post H. now destruct pre.
  - destruct (sendArbitrageAlert_outcome cfg env o w) as (_ & Hcall & _ & Hcool).
    set (w1 := snd (sendArbitrageAlert cfg env o w)) in *.
    destruct (IH w1) as (new2 & Htr & Hkey & Hlast & Hall).
    destruct Hcall as [Hsame | logs _ Hc Hne Hlogs Ht | r logs Hr Hc Hlogs Ht
                      | _ Hc Ht | Hdown _ _]; [| | | | congruence].
    + rewrite Hsame in *. exists new2. auto.
    + exists (logs ++ new2). rewrite Htr, Ht, <- app_assoc.
      rewrite posts_app, (posts_logs logs Hlogs). cbn [app].
      rewrite Hc in Hkey. auto.
    + exists ((logs ++ [EvPost (id (oppMarketA o)) (id (oppMarketB o)) r;
                        EvLogError; EvLogError]) ++ new2).
      rewrite Htr, Ht, <- !app_assoc.
      split; [reflexivity|]. rewrite Hc in Hkey.
      rewrite !posts_app, (posts_logs logs Hlogs). cbn [app]. cbn -[posts].
      change (posts [EvPost (id (oppMarketA o)) (id (oppMarketB o)) r; EvLogError; EvLogError])
        with [EvPost (id (oppMarketA o)) (id (oppMarketB o)) r].
      cbn [app].
      split; [| split].
      * intros Hs. specialize (Hcool Hup Hs).
        exfalso. assert (E : trace w1 = trace w) by now rewrite Hcool.
        rewrite Ht in E. rewrite <- (app_nil_r (trace w)) in E at 2.
        apply app_inv_head in E. now destruct logs.
      * intros pre post H. destruct pre as [|ev pre]; cbn in H.
        -- injection H as H _. congruence.
        -- injection H as _ H. eapply Hlast, H.
      * constructor; [eauto | exact Hall].
    + assert (Hnone : posts new2 = []).
      { apply Hkey. rewrite Hc, lookup_insert_eq. eauto. }
      exists ([EvPost (id (oppMarketA o)) (id (oppMarketB o)) PostOk;
               EvCacheSet (CacheKeys.alertSent (id (oppMarketA o)) (id (oppMarketB o)))
                 (cooldownMinutes cfg * 60)] ++ new2).
      rewrite Htr, Ht, <- app_assoc.
      split; [reflexivity|].
      rewrite posts_app, Hnone. cbn.
      split; [| split].
      * intros Hs. specialize (Hcool Hup Hs).
        exfalso. assert (E : trace w1 = trace w) by now rewrite Hcool.
        rewrite Ht in E. rewrite <- (app_nil_r (trace w)) in E at 2.
        apply app_inv_head in E. discriminate E.
      * intros pre post H. destruct pre as [|ev pre]; cbn in H.
        -- now injection H as <-.
        -- injection H as _ H. now destruct pre.
      * constructor; [eauto | constructor].
Qed.

(** C8 (amended): [sendArbitrageAlert] never throws; it leaves the world as
    it is, posting nothing, when alerts are disabled or, while redis
    answers, when the cooldown key [alert:sent:<idA>:<idB>] is in the cache;
    the key is written, with TTL [cooldownMinutes * 60], only right after a
    POST that succeeded, and a failed POST is logged and writes nothing;
    hence, while redis answers, over successive calls for one pair with no
    expiry in between, nothing is posted after a POST that succeeded, and
    nothing at all if the key was there before. *)
Theorem sendArbitrageAlert_cooldown cfg env opportunity w :
  let idA := id (oppMarketA opportunity) in
  let idB := id (oppMarketB opportunity) in
  let key := CacheKeys.alertSent idA idB in
  let w' := snd (sendArbitrageAlert cfg env opportunity w) in
  fst (sendArbitrageAlert cfg env opportunity w) = inl tt
  /\ (enabled cfg = false -> w' = w)
  /\ (redisUp env = true -> is_Some (cache w !! key) -> w' = w)
  /\ callOutcome cfg env opportunity w w'
  /\ (forall new k t,
        trace w' = trace w ++ new -> In (EvCacheSet k t) new ->
        new = [EvPost idA idB PostOk; EvCacheSet key (cooldownMinutes cfg * 60)]
        /\ cache w' !! key = Some (CachedAlertMark (clock env), cooldownMinutes cfg * 60))
  /\ (forall new result,
        trace w' = trace w ++ new -> In (EvPost idA idB result) new -> result <> PostOk ->
        In EvLogError new /\ cache w' = cache w)
  /\ (redisUp env = true ->
      forall opps,
        Forall (fun o => id (oppMarketA o) = idA /\ id (oppMarketB o) = idB) opps ->
        exists new,
          trace (successiveAlerts cfg env opps w) = trace w ++ new
          /\ (is_Some (cache w !! key) -> posts new = [])
          /\ (forall pre post,
                posts new = pre ++ EvPost idA idB PostOk :: post -> post = [])).
Proof.
  cbv zeta.
  destruct (sendArbitrageAlert_outcome cfg env opportunity w) as (Hres & Hcall & Hoff & Hcool).
  split; [exact Hres | split; [exact Hoff | split; [exact Hcool | split; [exact Hcall |]]]].
  set (w' := snd (sendArbitrageAlert cfg env opportunity w)) in *.
  split; [| split].
  - intros new k t Htr Hin.
    destruct Hcall as [Hsame | logs _ Hc Hne Hlogs Ht | r logs Hr Hc Hlogs Ht
                      | _ Hc Ht | Hdown Hc Ht];
      rewrite ?Hsame in Htr; try rewrite Ht in Htr.
    + rewrite <- (app_nil_r (trace w)) in Htr at 1. apply app_inv_head in Htr.
      subst new. destruct Hin.
    + apply app_inv_head in Htr. subst new. rewrite Forall_forall in Hlogs.
      apply list_elem_of_In, Hlogs in Hin. discriminate Hin.
    + apply app_inv_head in Htr. subst new. apply in_app_or in Hin as [Hin|Hin].
      * rewrite Forall_forall in Hlogs. apply list_elem_of_In, Hlogs in Hin. discriminate Hin.
      * cbn in Hin. intuition discriminate.
    + apply app_inv_head in Htr. subst new.
      split; [reflexivity|]. rewrite Hc. apply lookup_insert_eq.
    + apply app_inv_head in Htr. subst new. cbn in Hin. intuition discriminate.
  - intros new result Htr Hin Hfail.
    destruct Hcall as [Hsame | logs _ Hc Hne Hlogs Ht | r logs Hr Hc Hlogs Ht
                      | _ Hc Ht | Hdown Hc Ht];
      rewrite ?Hsame in Htr; try rewrite Ht in Htr.
    + rewrite <- (app_nil_r (trace w)) in Htr at 1. apply app_inv_head in Htr.
      subst new. destruct Hin.
    + apply app_inv_head in Htr. subst new. rewrite Forall_forall in Hlogs.
      apply list_elem_of_In, Hlogs in Hin. discriminate Hin.
    + apply app_inv_head in Htr. subst new. split; [|exact Hc].
      apply in_or_app. right. cbn. auto.
    + apply app_inv_head in Htr. subst new. cbn in Hin.
      destruct Hin as [[= <-]|[[=]|[]]]. congruence.
    + apply app_inv_head in Htr. subst new. cbn in Hin.
      destruct Hin as [[=]|[[= <-]|[[=]|[]]]]. congruence.
  - intros Hup opps Hids.
    destruct (successiveAlerts_posts cfg env _ _ opps Hup Hids w) as (new & H1 & H2 & H3 & _).
    exists new. auto.
Qed.

Lemma sendArbitrageAlert_cooldown_witness :
  let w0 := mkWorld ∅ [] in
  let o := Samples.clearOpportunity in
  exists new,
    trace (successiveAlerts (defaultAlerts "https://discord.com/api/webhooks/1/x")
             Samples.quietEnv [o; o; o] w0) = trace w0 ++ new
    /\ (forall pre post,
          posts new = pre ++ EvPost "POLY_123" "MANI_456" PostOk :: post -> post = []).
Proof.
  intros w0 o.
  destruct (sendArbitrageAlert_cooldown (defaultAlerts "https://discord.com/api/webhooks/1/x")
              Samples.quietEnv o w0) as (_ & _ & _ & _ & _ & _ & Hseq).
  destruct (Hseq eq_refl [o; o; o]) as (new & H1 & _ & H3).
  - repeat constructor.
  - exists new. split; [exact H1 | exact H3].
Defined.

(** C8 (as stated) fails while redis does not answer: [Cache.get] catches the
    error and returns [null], the cooldown key is not seen although the
    cache holds it, and every call posts. *)
Lemma sendArbitrageAlert_posts_in_cooldown :
  let cfg := defaultAlerts "https://discord.com/api/webhooks/1/x" in
  let env := mkEnv false (fun _ => PostOk) (fun _ => inl []) (fun _ => inl [])
               MarketMatcher.exact_title_search 0 in
  let o := Samples.clearOpportunity in
  let key := CacheKeys.alertSent (id (oppMarketA o)) (id (oppMarketB o)) in
  let w0 := mkWorld (<[key := (CachedAlertMark 0, 600)]> ∅) [] in
  is_Some (cache w0 !! key)
  /\ posts (trace (snd (sendArbitrageAlert cfg env o w0)))
     = [ EvPost "POLY_123" "MANI_456" PostOk ]
  /\ posts (trace (successiveAlerts cfg env [o; o] w0))
     = [ EvPost "POLY_123" "MANI_456" PostOk; EvPost "POLY_123" "MANI_456" PostOk ].
Proof.
  intros cfg env o key w0. split; [| split].
  - unfold w0. cbn [cache]. rewrite lookup_insert_eq. eexists; reflexivity.
  - vm_compute. reflexivity.
  - vm_compute. reflexivity.
Qed.

End AlertFacts.

(** ** Queue worker *)

Module QueueFacts.
Import Queue AlertFacts.

Lemma markets_inj p q : CacheKeys.markets p = CacheKeys.markets q -> p = q.
Proof. unfold CacheKeys.markets. intros H. injection H as E. exact E. Qed.

Lemma markets_not_alert p a b : CacheKeys.markets p <> CacheKeys.alertSent a b.
Proof. unfold CacheKeys.markets, CacheKeys.alertSent. cbv [String.append]. discriminate. Qed.

Lemma markets_not_opportunities p : CacheKeys.markets p <> CacheKeys.opportunities.
Proof. unfold CacheKeys.markets, CacheKeys.opportunities. cbv [String.append]. discriminate. Qed.

Lemma markets_not_scanResults p s : CacheKeys.markets p <> CacheKeys.scanResults s.
Proof. unfold CacheKeys.markets, CacheKeys.scanResults. cbv [String.append]. discriminate. Qed.

Lemma inv_same_cache w w' : cache w' = cache w -> cacheInvariant w -> cacheInvariant w'.
Proof. intros E H p Hp. unfold emptyMarkets. rewrite E. now apply H. Qed.

Lemma inv_insert_other w c' key entry :
  c' = <[key := entry]> (cache w) ->
  (forall p, unsupported p -> key <> CacheKeys.markets p) ->
  cacheInvariant w -> forall tr, cacheInvariant (mkWorld c' tr).
Proof.
  intros -> Hkey H tr p Hp. unfold emptyMarkets. cbn [cache].
  rewrite lookup_insert_ne by (now apply Hkey). now apply H.
Qed.

Lemma inv_insert_markets w name markets tr :
  (unsupported name -> markets = []) ->
  cacheInvariant w ->
  cacheInvariant (mkWorld (<[CacheKeys.markets name := (CachedMarkets markets, 120)]> (cache w)) tr).
Proof.
  intros Hm H p Hp. unfold emptyMarkets. cbn [cache].
  destruct (decide (name = p)) as [->|Hne].
  - rewrite lookup_insert_eq, (Hm Hp). now right.
  - rewrite lookup_insert_ne by (intros E; apply markets_inj in E; congruence).
    now apply H.
Qed.

Lemma inv_expire key w : cacheInvariant w -> cacheInvariant (expire key w).
Proof.
  intros H p Hp. unfold emptyMarkets, expire. cbn [cache].
  destruct (decide (key = CacheKeys.markets p)) as [->|Hne].
  - left. apply lookup_delete_eq.
  - rewrite lookup_delete_ne by assumption. now apply H.
Qed.

Lemma inv_alert cfg env o w :
  cacheInvariant w -> cacheInvariant (snd (Alerts.sendArbitrageAlert cfg env o w)).
Proof.
  intros H. destruct (sendArbitrageAlert_outcome cfg env o w) as (_ & Hcall & _).
  destruct Hcall as [Hsame | logs _ Hc _ _ _ | r logs _ Hc _ _ | _ Hc _ | _ Hc _].
  - now rewrite Hsame.
  - now apply (inv_same_cache w).
  - now apply (inv_same_cache w).
  - destruct (snd (Alerts.sendArbitrageAlert cfg env o w)) as [c' tr'] eqn:Ew.
    cbn [cache] in Hc. apply (inv_insert_other w c' _ _ Hc); [|exact H].
    intros p _ E. symmetry in E. now apply markets_not_alert in E.
  - now apply (inv_same_cache w).
Qed.

Lemma alert_result cfg env o w : fst (Alerts.sendArbitrageAlert cfg env o w) = inl tt.
Proof. apply sendArbitrageAlert_outcome. Qed.

Lemma sendAlerts_loop_cons cfg env total o rest w :
  Alerts.sendAlerts_loop cfg env total (o :: rest) w
  = Alerts.sendAlerts_loop cfg env total rest
      (let w1 := snd (Alerts.sendArbitrageAlert cfg env o w) in
       if (1 <? total)%nat then mkWorld (cache w1) (trace w1 ++ [EvSleep 2000]) else w1).
Proof.
  cbn [Alerts.sendAlerts_loop]. unfold bind.
  pose proof (alert_result cfg env o w) as Hres.
  destruct (Alerts.sendArbitrageAlert cfg env o w) as [res w1]. cbn in Hres. subst res.
  cbn [snd]. destruct (1 <? total)%nat; reflexivity.
Qed.

Lemma inv_sendAlerts_loop cfg env total opps w :
  cacheInvariant w ->
  cacheInvariant (snd (Alerts.sendAlerts_loop cfg env total opps w))
  /\ fst (Alerts.sendAlerts_loop cfg env total opps w) = inl tt.
Proof.
  revert w. induction opps as [|o rest IH]; intros w H.
  - split; [exact H | reflexivity].
  - rewrite sendAlerts_loop_cons. apply IH.
    pose proof (inv_alert cfg env o w H) as Hinv. cbv zeta.
    destruct (1 <? total)%nat; [|exact Hinv].
    eapply inv_same_cache; [|exact Hinv]. reflexivity.
Qed.

Lemma inv_sendAlerts cfg env opps w :
  cacheInvariant w ->
  cacheInvariant (snd (Alerts.sendAlerts cfg env opps w))
  /\ fst (Alerts.sendAlerts cfg env opps w) = inl tt.
Proof.
  intros H. destruct opps; [split; [exact H | reflexivity]|].
  now apply inv_sendAlerts_loop.
Qed.

(** [fetchMarketsWithCache], the case of a platform without adapter. *)
Lemma fetch_unsupported env name lim w :
  unsupported name -> emptyMarkets name w ->
  fst (fetchMarketsWithCache env name lim w) = inl []
  /\ (exists new,
        trace (snd (fetchMarketsWithCache env name lim w)) = trace w ++ new
        /\ List.filter isAdapterFetch new = [])
  /\ (redisUp env = true ->
      cache (snd (fetchMarketsWithCache env name lim w)) !! CacheKeys.markets name
      = Some (CachedMarkets [], 120))
  /\ (redisUp env = true -> cache w !! CacheKeys.markets name = None ->
      snd (fetchMarketsWithCache env name lim w)
      = mkWorld (<[CacheKeys.markets name := (CachedMarkets [], 120)]> (cache w))
                (trace w ++ [EvCacheSet (CacheKeys.markets name) 120])).
Proof.
  intros [Hpm Hman] Hempty.
  unfold fetchMarketsWithCache, Cache.get, Cache.set, bind, ret, emit.
  rewrite !bool_decide_eq_false_2 by assumption.
  destruct w as [c tr]. unfold emptyMarkets in Hempty. cbn [cache trace] in *.
  destruct (redisUp env) eqn:Hup.
  - destruct Hempty as [Hk | Hk]; cbn; rewrite !Hk; cbn.
    + rewrite lookup_insert_eq.
      split; [reflexivity | split; [| split; [reflexivity | reflexivity]]].
      exists [EvCacheSet (CacheKeys.markets name) 120]. auto.
    + split; [reflexivity | split; [| split; [auto | discriminate]]].
      exists []. now rewrite app_nil_r.
  - cbn. split; [reflexivity | split; [| split; discriminate]].
    exists [EvLogError; EvLogError]. now rewrite <- app_assoc.
Qed.

(** No adapter is called for such a platform, whatever the cache holds. *)
Lemma fetch_unsupported_no_adapter env name lim w :
  unsupported name ->
  exists new,
    trace (snd (fetchMarketsWithCache env name lim w)) = trace w ++ new
    /\ List.filter isAdapterFetch new = [].
Proof.
  intros [Hpm Hman].
  unfold fetchMarketsWithCache, Cache.get, Cache.set, bind, ret, emit, deserializeMarkets.
  rewrite !bool_decide_eq_false_2 by assumption.
  destruct w as [c tr]. cbn [cache trace].
  destruct (redisUp env) eqn:Hup.
  - cbn. destruct (c !! CacheKeys.markets name) as [[[ms|r|t] ttl]|]; cbn.
    1-3: exists []; now rewrite app_nil_r.
    exists [EvCacheSet (CacheKeys.markets name) 120]. auto.
  - cbn. exists [EvLogError; EvLogError]. now rewrite <- app_assoc.
Qed.

Lemma inv_fetch env name lim w :
  cacheInvariant w -> cacheInvariant (snd (fetchMarketsWithCache env name lim w)).
Proof.
  intros H.
  unfold fetchMarketsWithCache, Cache.get, Cache.set, bind, ret, emit, deserializeMarkets,
    throw, callAdapter.
  destruct w as [c tr]. cbn [cache trace].
  destruct (redisUp env) eqn:Hup.
  - cbn. destruct (c !! CacheKeys.markets name) as [[[ms|r|t] ttl]|]; cbn;
      try (eapply inv_same_cache; [|exact H]; reflexivity).
    case_bool_decide as Hpm; [|case_bool_decide as Hman].
    + cbn. destruct (pmFetch env lim) as [ms|e]; cbn.
      * rewrite ?Hup. apply (inv_insert_markets (mkWorld c tr)); [|exact H].
        intros [? ?]; congruence.
      * eapply inv_same_cache; [|exact H]; reflexivity.
    + cbn. destruct (manifoldFetch env lim) as [ms|e]; cbn.
      * rewrite ?Hup. apply (inv_insert_markets (mkWorld c tr)); [|exact H].
        intros [? ?]; congruence.
      * eapply inv_same_cache; [|exact H]; reflexivity.
    + cbn. rewrite ?Hup. apply (inv_insert_markets (mkWorld c tr)); [|exact H]. auto.
  - cbn. case_bool_decide as Hpm; [|case_bool_decide as Hman]; cbn.
    + destruct (pmFetch env lim) as [ms|e]; cbn; rewrite ?Hup; cbn;
        (eapply inv_same_cache; [|exact H]; reflexivity).
    + destruct (manifoldFetch env lim) as [ms|e]; cbn; rewrite ?Hup; cbn;
        (eapply inv_same_cache; [|exact H]; reflexivity).
    + rewrite ?Hup. cbn. eapply inv_same_cache; [|exact H]; reflexivity.
Qed.

Lemma keeps_ret {A} I (a : A) : keeps I (ret a).
Proof. intros w H. exact H. Qed.

Lemma keeps_throw {A} I e : keeps I (throw (A:=A) e).
Proof. intros w H. exact H. Qed.

Lemma keeps_bind {A B} I (m : M A) (k : A -> M B) :
  keeps I m -> (forall a, keeps I (k a)) -> keeps I (bind m k).
Proof.
  intros Hm Hk w H. unfold bind. specialize (Hm w H).
  destruct (m w) as [[a|e] w']; cbn in *; [now apply Hk | exact Hm].
Qed.

Lemma keeps_try_catch {A} I (body : M A) handler :
  keeps I body -> (forall e, keeps I (handler e)) -> keeps I (try_catch body handler).
Proof.
  intros Hb Hh w H. unfold try_catch. specialize (Hb w H).
  destruct (body w) as [[a|e] w']; cbn in *; [exact Hb | now apply Hh].
Qed.

Lemma keeps_emit ev : keeps cacheInvariant (emit ev).
Proof. intros w H. eapply inv_same_cache; [|exact H]. reflexivity. Qed.

Lemma keeps_set env key value ttl :
  (forall p, unsupported p -> key <> CacheKeys.markets p) ->
  keeps cacheInvariant (Cache.set env key value ttl).
Proof.
  intros Hkey w H. unfold Cache.set. destruct (redisUp env).
  - cbn. now apply (inv_insert_other w _ key (value, ttl)).
  - now apply keeps_emit.
Qed.

Lemma keeps_fetch env name lim : keeps cacheInvariant (fetchMarketsWithCache env name lim).
Proof. intros w H. now apply inv_fetch. Qed.

Lemma keeps_sendAlerts cfg env opps : keeps cacheInvariant (Alerts.sendAlerts cfg env opps).
Proof. intros w H. now apply inv_sendAlerts. Qed.

Lemma keeps_processScanJob cfg env stamp job :
  keeps cacheInvariant (processScanJob cfg env stamp job).
Proof.
  unfold processScanJob.
  apply keeps_try_catch.
  2: { intros e. apply keeps_bind; [apply keeps_emit | intros _; apply keeps_throw]. }
  apply keeps_bind; [apply keeps_emit | intros _].
  apply keeps_bind; [apply keeps_fetch | intros marketsA].
  apply keeps_bind; [apply keeps_fetch | intros marketsB].
  apply keeps_bind; [apply keeps_emit | intros _].
  apply keeps_bind; [apply keeps_emit | intros _].
  destruct (ArbitrageCalculator.findArbitrageOpportunities _ _) as [opps|];
    [|apply keeps_throw].
  apply keeps_bind; [apply keeps_emit | intros _].
  apply keeps_bind.
  { destruct (List.filter _ opps); [apply keeps_ret | apply keeps_sendAlerts]. }
  intros _.
  apply keeps_bind.
  { apply keeps_set. intros p _ E. symmetry in E. now apply markets_not_opportunities in E. }
  intros _.
  apply keeps_bind.
  { apply keeps_set. intros p _ E. symmetry in E. now apply markets_not_scanResults in E. }
  intros _.
  apply keeps_bind; [apply keeps_emit | intros _; apply keeps_ret].
Qed.

Lemma reachable_invariant cfg stamp w : reachable cfg stamp w -> cacheInvariant w.
Proof.
  induction 1 as [| env job w _ IH | key w _ IH].
  - intros p _. left. apply lookup_empty.
  - now apply keeps_processScanJob.
  - now apply inv_expire.
Qed.

Lemma preFilterCandidates_nil a : MarketMatcher.preFilterCandidates a [] = [].
Proof. reflexivity. Qed.

Lemma findMatches_nil_r search marketsA : MarketMatcher.findMatches search marketsA [] = [].
Proof. induction marketsA as [|a rest IH]; cbn; [reflexivity | exact IH]. Qed.

Lemma findMatches_nil_l search marketsB : MarketMatcher.findMatches search [] marketsB = [].
Proof. reflexivity. Qed.

(** A scan over a platform without adapter. *)
Lemma processScanJob_unsupported cfg env stamp job w name r :
  cacheInvariant w -> unsupported name ->
  platformA job = name \/ platformB job = name ->
  fst (processScanJob cfg env stamp job w) = inl r ->
  marketsScanned r !! name = Some 0%nat
  /\ matchesFound r = 0%nat
  /\ opportunities r = [].
Proof.
  intros Hinv Hun Hname.
  unfold processScanJob, try_catch.
  unfold bind at 1. cbn [emit].
  set (w0 := mkWorld (cache w) (trace w ++ [EvProgress 10])).
  assert (H0 : cacheInvariant w0) by (eapply inv_same_cache; [|exact Hinv]; reflexivity).
  unfold bind at 1.
  pose proof (inv_fetch env (platformA job) (limit job) w0 H0) as H1.
  pose proof (fun Hn => fetch_unsupported env (platformA job) (limit job) w0 Hn
                          (H0 _ Hn)) as HA.
  destruct (fetchMarketsWithCache env (platformA job) (limit job) w0) as [[marketsA|e] w1];
    cbn [fst snd] in *.
  2: { cbn. discriminate. }
  unfold bind at 1.
  pose proof (fun Hn => fetch_unsupported env (platformB job) (limit job) w1 Hn
                          (H1 _ Hn)) as HB.
  destruct (fetchMarketsWithCache env (platformB job) (limit job) w1) as [[marketsB|e] w2];
    cbn [fst snd] in *.
  2: { cbn. discriminate. }
  assert (Hmatches : MarketMatcher.findMatches (fuse env) marketsA marketsB = []
                     /\ (platformA job = name -> length marketsA = 0%nat)
                     /\ (platformB job = name -> length marketsB = 0%nat)).
  { destruct Hname as [E|E].
    - rewrite E in HA. destruct (HA Hun) as ([= ->] & _).
      split; [reflexivity | split; [reflexivity|]].
      intros E'. rewrite E' in HB. now destruct (HB Hun) as ([= ->] & _).
    - rewrite E in HB. destruct (HB Hun) as ([= ->] & _).
      split; [apply findMatches_nil_r | split; [|reflexivity]].
      intros E'. rewrite E' in HA. now destruct (HA Hun) as ([= ->] & _). }
  destruct Hmatches as (Hm & HlA & HlB). rewrite Hm.
  cbn. unfold bind, Cache.set. cbn.
  destruct (redisUp env); cbn; intros [= <-]; cbn.
  all: split; [| split; reflexivity].
  all: destruct (decide (platformB job = name)) as [EB|NB];
    [ rewrite EB, lookup_insert_eq, (HlB EB); reflexivity
    | destruct Hname as [EA|EB]; [|contradiction];
      rewrite lookup_insert_ne by assumption;
      rewrite EA, lookup_insert_eq, (HlA EA); reflexivity ].
Qed.

(** C4: for a platform name other than 'POLYMARKET' and 'MANIFOLD', in any
    world the worker can reach, [fetchMarketsWithCache] calls no adapter and
    returns the empty list, which the key [markets:<P>] then holds with TTL
    120 (written by this call on a miss); a scan over such a platform
    reports zero markets for it, no match and no opportunity; the
    scheduler's KALSHI jobs are such scans. *)
Theorem unsupported_platform_scan cfg stamp env (job : ScanJobData) (name : string) (w : World) :
  reachable cfg stamp w ->
  unsupported name ->
  let fetched := fetchMarketsWithCache env name (limit job) w in
  fst fetched = inl []
  /\ (exists new,
        trace (snd fetched) = trace w ++ new /\ List.filter isAdapterFetch new = [])
  /\ (redisUp env = true ->
      cache (snd fetched) !! CacheKeys.markets name = Some (CachedMarkets [], 120))
  /\ (redisUp env = true -> cache w !! CacheKeys.markets name = None ->
      snd fetched
      = mkWorld (<[CacheKeys.markets name := (CachedMarkets [], 120)]> (cache w))
                (trace w ++ [EvCacheSet (CacheKeys.markets name) 120]))
  /\ (platformA job = name \/ platformB job = name ->
      forall r,
        fst (processScanJob cfg env stamp job w) = inl r ->
        marketsScanned r !! name = Some 0%nat
        /\ matchesFound r = 0%nat
        /\ opportunities r = [])
  /\ (unsupported "KALSHI"
      /\ In (mkScanJob "KALSHI" "POLYMARKET" 100) scheduledJobs
      /\ In (mkScanJob "KALSHI" "MANIFOLD" 100) scheduledJobs).
Proof.
  intros Hreach Hun fetched.
  pose proof (reachable_invariant cfg stamp w Hreach) as Hinv.
  destruct (fetch_unsupported env name (limit job) w Hun (Hinv name Hun))
    as (H1 & H2 & H3 & H4).
  split; [exact H1 | split; [exact H2 | split; [exact H3 | split; [exact H4 | split]]]].
  - intros Hname r Hr. now apply (processScanJob_unsupported cfg env stamp job w name r).
  - split; [split; discriminate | split; [right; left; reflexivity | right; right; left; reflexivity]].
Qed.

Lemma unsupported_platform_scan_witness :
  fst (fetchMarketsWithCache Samples.quietEnv "KALSHI" 100 (mkWorld ∅ [])) = inl []
  /\ snd (fetchMarketsWithCache Samples.quietEnv "KALSHI" 100 (mkWorld ∅ []))
     = mkWorld (<[CacheKeys.markets "KALSHI" := (CachedMarkets [], 120)]> ∅)
               [EvCacheSet (CacheKeys.markets "KALSHI") 120].
Proof.
  destruct (unsupported_platform_scan (defaultAlerts "") (fun _ => EmptyString)
              Samples.quietEnv (mkScanJob "KALSHI" "POLYMARKET" 100) "KALSHI"
              (mkWorld ∅ [])) as (H1 & _ & _ & H4 & _).
  - apply reach_start.
  - split; discriminate.
  - split; [exact H1 | apply H4; reflexivity].
Defined.
End QueueFacts.

(** ** Calculator: the rule, where opportunities come from, thresholds *)

Module CalculatorRules.
Import Decimal DecimalFacts ArbitrageCalculator CalculatorFacts.

Lemma calculateArbitrage_units now mA mB iA iB oA oB a b :
  outcomes mA !! iA = Some oA ->
  outcomes mB !! iB = Some oB ->
  repr 17 a (price oA) -> 0 <= a <= 10 ^ 17 ->
  repr 17 b (price oB) -> 0 <= b <= 10 ^ 17 ->
  (10 ^ 17 <= a + b -> calculateArbitrage now mA mB iA iB = Some None)
  /\ (a + b < 10 ^ 17 ->
      exists o,
        calculateArbitrage now mA mB iA iB = Some (Some o)
        /\ repr 19 (netUnits mA mB a b) (netCost o)
        /\ repr 19 (10 ^ 19 - netUnits mA mB a b) (profitMargin o)
        /\ isProfitable o = (netUnits mA mB a b <? 10 ^ 19)).
Proof.
  intros HA HB Ha Hab Hb Hbb.
  assert (P17 : 10 ^ 17 = 100000000000000000) by reflexivity.
  assert (P20 : 10 ^ precision = 100000000000000000000) by reflexivity.
  assert (P19 : 10 ^ 19 = 10000000000000000000) by reflexivity.
  assert (Rt : repr 17 (a + b) (plus (price oA) (price oB)))
    by (apply repr_plus; [exact Ha | exact Hb | lia]).
  assert (R1 : repr 17 (10 ^ 17) (of_Z 1)).
  { replace (10 ^ 17) with (1 * 10 ^ 17) by lia.
    apply (repr_lift 0 17 1); [lia | apply repr_of_Z]. }
  assert (Hgte : greaterThanOrEqualTo (plus (price oA) (price oB)) (of_Z 1)
                 = (10 ^ 17 <=? a + b))
    by (apply (repr_gte 17); assumption).
  unfold calculateArbitrage. rewrite HA, HB. cbv zeta. rewrite Hgte.
  split.
  - intros Hge. destruct (Z.leb_spec (10 ^ 17) (a + b)); [reflexivity | lia].
  - intros Hn. destruct (Z.leb_spec (10 ^ 17) (a + b)) as [|_]; [lia|].
    unfold netUnits.
    pose proof (ratePercent_bounds (platform mA)) as HrA.
    pose proof (ratePercent_bounds (platform mB)) as HrB.
    set (rA := ratePercent (platform mA)) in *.
    set (rB := ratePercent (platform mB)) in *.
    assert (RfA : repr 19 (a * rA) (times (price oA) (getFeeRate (platform mA)))).
    { apply (repr_times 17 2); [exact Ha | apply getFeeRate_repr |].
      fold rA. rewrite P20. apply Z.abs_lt. nia. }
    assert (RfB : repr 19 (b * rB) (times (price oB) (getFeeRate (platform mB)))).
    { apply (repr_times 17 2); [exact Hb | apply getFeeRate_repr |].
      fold rB. rewrite P20. apply Z.abs_lt. nia. }
    assert (B1 : Z.abs (a * rA + b * rB) < 10 ^ precision)
      by (rewrite P20; apply Z.abs_lt; nia).
    assert (Rfees := repr_plus 19 _ _ _ _ RfA RfB B1).
    assert (Rt19 := repr_lift 17 2 _ _ ltac:(lia) Rt).
    change (17 + 2) with 19 in Rt19. change (10 ^ 2) with 100 in Rt19.
    assert (B2 : Z.abs ((a + b) * 100 + (a * rA + b * rB)) < 10 ^ precision)
      by (rewrite P20; apply Z.abs_lt; nia).
    assert (Rnet := repr_plus 19 _ _ _ _ Rt19 Rfees B2).
    assert (R1' := repr_lift 0 19 1 _ ltac:(lia) (repr_of_Z 1)).
    change (0 + 19) with 19 in R1'. rewrite Z.mul_1_l in R1'.
    assert (B3 : Z.abs (10 ^ 19 - ((a + b) * 100 + (a * rA + b * rB)))
                 < 10 ^ precision)
      by (rewrite P20, P19; apply Z.abs_lt; nia).
    assert (Rm := repr_minus 19 _ _ _ _ R1' Rnet B3).
    assert (R0 : repr 19 0 (of_Z 0)).
    { change 0 with (0 * 10 ^ 19) at 1. apply (repr_lift 0 19 0); [lia | apply repr_of_Z]. }
    eexists. split; [reflexivity|].
    cbn [netCost profitMargin isProfitable].
    split; [exact Rnet | split; [exact Rm |]].
    rewrite (repr_gt 19 _ _ _ _ Rm R0).
    destruct (Z.ltb_spec 0 (10 ^ 19 - ((a + b) * 100 + (a * rA + b * rB))));
      destruct (Z.ltb_spec ((a + b) * 100 + (a * rA + b * rB)) (10 ^ 19)); lia || reflexivity.
Qed.

Lemma q10_lt_one s n : 0 <= s -> (q10 s n < 1)%Q <-> n < 10 ^ s.
Proof.
  intros Hs. unfold q10, Qlt. cbn [Qnum Qden].
  rewrite Z2Pos.id by (apply pow10_gt0; lia). lia.
Qed.

Lemma netUnits_value mA mB a b pA pB :
  (pA == q10 17 a)%Q -> (pB == q10 17 b)%Q ->
  (pA + pB + (pA * feeRate (platform mA) + pB * feeRate (platform mB))
   == q10 19 (netUnits mA mB a b))%Q.
Proof.
  intros EA EB. unfold netUnits.
  rewrite (q10_plus 19), (q10_plus 19) by lia.
  rewrite (q10_mult 17 2 a), (q10_mult 17 2 b) by lia.
  rewrite <- !feeRate_q10, <- EA, <- EB.
  change 19 with (17 + 2). change 100 with (10 ^ 2).
  rewrite (q10_lift 17 2) by lia.
  rewrite (q10_plus 17) by lia. rewrite <- EA, <- EB. reflexivity.
Qed.

(** X1: for two outcomes priced between 0 and 1 with at most 17 decimal
    places, [calculateArbitrage] builds an opportunity flagged profitable
    exactly when the two prices plus the two platform fees come to less than
    1, computed without any rounding (the rule in the header of
    [calculator/index.ts]). *)
Theorem calculateArbitrage_golden_rule (now : Z) (mA mB : StandardMarket)
    (iA iB : nat) (oA oB : Outcome) :
  outcomes mA !! iA = Some oA ->
  outcomes mB !! iB = Some oB ->
  price17 (price oA) ->
  price17 (price oB) ->
  let pA := to_Q (price oA) in
  let pB := to_Q (price oB) in
  (exists o, calculateArbitrage now mA mB iA iB = Some (Some o) /\ isProfitable o = true)
  <-> (pA + pB + (pA * feeRate (platform mA) + pB * feeRate (platform mB)) < 1)%Q.
Proof.
  intros HA HB (a & Ha & Hab) (b & Hb & Hbb) pA pB.
  assert (EA : (pA == q10 17 a)%Q) by (apply repr_to_Q; [lia | exact Ha]).
  assert (EB : (pB == q10 17 b)%Q) by (apply repr_to_Q; [lia | exact Hb]).
  rewrite (netUnits_value mA mB a b pA pB EA EB), q10_lt_one by lia.
  destruct (calculateArbitrage_units now mA mB iA iB oA oB a b HA HB Ha Hab Hb Hbb)
    as [Hnull Hsome].
  pose proof (ratePercent_bounds (platform mA)) as HrA.
  pose proof (ratePercent_bounds (platform mB)) as HrB.
  assert (P17 : 10 ^ 17 = 100000000000000000) by reflexivity.
  assert (P19 : 10 ^ 19 = 10000000000000000000) by reflexivity.
  destruct (Z_lt_le_dec (a + b) (10 ^ 17)) as [Hlt|Hge].
  - destruct (Hsome Hlt) as (o & Ho & _ & _ & Hp). split.
    + intros (o' & Ho' & Hp'). rewrite Ho in Ho'. injection Ho' as <-.
      rewrite Hp in Hp'. now apply Z.ltb_lt in Hp'.
    + intros Hn. exists o. split; [exact Ho|]. rewrite Hp. now apply Z.ltb_lt.
  - rewrite (Hnull Hge). split.
    + intros (o' & Ho' & _). discriminate Ho'.
    + unfold netUnits. intros Hn. exfalso. nia.
Qed.

(** Scenario 1 of [test-calculator.ts]: Yes at 0.45 on PolyMarket, No at 0.38
    on Manifold. *)
Lemma calculateArbitrage_golden_rule_witness :
  let mA := marketA Samples.clearArbitrage in
  let mB := marketB Samples.clearArbitrage in
  (exists o, calculateArbitrage 0 mA mB 0 1 = Some (Some o) /\ isProfitable o = true)
  <-> (to_Q (Fin 45 (-2)) + to_Q (Fin 38 (-2))
       + (to_Q (Fin 45 (-2)) * feeRate POLYMARKET + to_Q (Fin 38 (-2)) * feeRate MANIFOLD)
       < 1)%Q.
Proof.
  intros mA mB.
  exact (calculateArbitrage_golden_rule 0 mA mB 0 1
           (mkOutcome "Yes" (Fin 45 (-2))) (mkOutcome "No" (Fin 38 (-2)))
           eq_refl eq_refl
           (price17_cents 45 ltac:(lia)) (price17_cents 38 ltac:(lia))).
Defined.

Lemma calculateArbitrage_source now mA mB iA iB o :
  calculateArbitrage now mA mB iA iB = Some (Some o) ->
  oppMarketA o = mA /\ oppMarketB o = mB /\ timestamp o = now
  /\ exists oA oB,
       outcomes mA !! iA = Some oA /\ outcomes mB !! iB = Some oB
       /\ outcomeA o = name oA /\ priceA o = price oA
       /\ outcomeB o = name oB /\ priceB o = price oB.
Proof.
  unfold calculateArbitrage.
  destruct (outcomes mA !! iA) as [oA|]; [|discriminate].
  destruct (outcomes mB !! iB) as [oB|]; [|discriminate].
  cbv zeta. destruct (greaterThanOrEqualTo _ _); [discriminate|].
  intros [= <-]. cbn. repeat split. exists oA, oB. repeat split.
Qed.

Lemma analyzeMarketPair_In now m opps o :
  analyzeMarketPair now m = Some opps -> In o opps ->
  length (outcomes (marketA m)) = 2%nat /\ length (outcomes (marketB m)) = 2%nat
  /\ exists iA iB, In (iA, iB) strategies
       /\ calculateArbitrage now (marketA m) (marketB m) iA iB = Some (Some o).
Proof.
  unfold analyzeMarketPair.
  destruct (Nat.eqb_spec (length (outcomes (marketA m))) 2) as [EA|];
    [| cbn; intros [= <-] []].
  destruct (Nat.eqb_spec (length (outcomes (marketB m))) 2) as [EB|];
    [| cbn; intros [= <-] []].
  cbn [negb orb].
  destruct (calculateArbitrage now (marketA m) (marketB m) 0 1) as [r1|] eqn:E1; [|discriminate].
  destruct (calculateArbitrage now (marketA m) (marketB m) 1 0) as [r2|] eqn:E2; [|discriminate].
  cbn. intros [= <-] Hin. split; [exact EA | split; [exact EB|]].
  destruct r1 as [o1|], r2 as [o2|]; cbn in Hin.
  - destruct Hin as [<-|[<-|[]]].
    + exists 0%nat, 1%nat. split; [now left | exact E1].
    + exists 1%nat, 0%nat. split; [right; now left | exact E2].
  - destruct Hin as [<-|[]]. exists 0%nat, 1%nat. split; [now left | exact E1].
  - destruct Hin as [<-|[]]. exists 1%nat, 0%nat. split; [right; now left | exact E2].
  - destruct Hin.
Qed.

Lemma analyzeMarketPair_length now m opps :
  analyzeMarketPair now m = Some opps -> (length opps <= 2)%nat.
Proof.
  unfold analyzeMarketPair.
  destruct (negb _ || negb _); [intros [= <-]; cbn; lia|].
  destruct (calculateArbitrage now (marketA m) (marketB m) 0 1) as [[o1|]|]; [| |discriminate];
    (destruct (calculateArbitrage now (marketA m) (marketB m) 1 0) as [[o2|]|]; [| |discriminate]);
    cbn; intros [= <-]; cbn; lia.
Qed.

Lemma allStrategies_In now matches evaluated o :
  allStrategies now matches = Some evaluated -> In o evaluated ->
  exists m iA iB,
    In m matches /\ In (iA, iB) strategies
    /\ length (outcomes (marketA m)) = 2%nat /\ length (outcomes (marketB m)) = 2%nat
    /\ calculateArbitrage now (marketA m) (marketB m) iA iB = Some (Some o).
Proof.
  revert evaluated. induction matches as [|m rest IH]; intros evaluated; cbn.
  - intros [= <-] [].
  - destruct (analyzeMarketPair now m) as [opps|] eqn:Em; [|discriminate]. cbn.
    destruct (allStrategies now rest) as [more|] eqn:Er; [|discriminate]. cbn.
    intros [= <-] Hin. apply in_app_or in Hin as [Hin|Hin].
    + destruct (analyzeMarketPair_In now m opps o Em Hin) as (HA & HB & iA & iB & Hs & Hc).
      exists m, iA, iB. auto.
    + destruct (IH more eq_refl Hin) as (m' & iA & iB & Hm & H).
      exists m', iA, iB. split; [now right | exact H].
Qed.

Lemma allStrategies_length now matches evaluated :
  allStrategies now matches = Some evaluated ->
  (length evaluated <= 2 * length matches)%nat.
Proof.
  revert evaluated. induction matches as [|m rest IH]; intros evaluated; cbn.
  - intros [= <-]. cbn. lia.
  - destruct (analyzeMarketPair now m) as [opps|] eqn:Em; [|discriminate]. cbn.
    destruct (allStrategies now rest) as [more|] eqn:Er; [|discriminate]. cbn.
    intros [= <-]. rewrite length_app.
    pose proof (analyzeMarketPair_length now m opps Em).
    specialize (IH more eq_refl). lia.
Qed.

Lemma allStrategies_app now m1 m2 :
  allStrategies now (m1 ++ m2)
  = (e1 ← allStrategies now m1; e2 ← allStrategies now m2; Some (e1 ++ e2)).
Proof.
  induction m1 as [|m rest IH]; cbn.
  - destruct (allStrategies now m2); reflexivity.
  - destruct (analyzeMarketPair now m) as [opps|]; [|reflexivity]. cbn.
    rewrite IH. destruct (allStrategies now rest) as [e1|]; [|reflexivity]. cbn.
    destruct (allStrategies now m2) as [e2|]; [|reflexivity]. cbn.
    now rewrite app_assoc.
Qed.

(** X2: [findArbitrageOpportunities] returns at most two opportunities per
    match; each one is flagged profitable, carries the scan's timestamp and
    comes from a match whose two markets have exactly two outcomes, with the
    strategy (outcome 0 of A, outcome 1 of B) or (outcome 1 of A, outcome 0
    of B), whose markets, names and prices it copies. *)
Theorem findArbitrageOpportunities_provenance (now : Z) (matches : list MarketMatch) :
  exists opps,
    findArbitrageOpportunities now matches = Some opps
    /\ (length opps <= 2 * length matches)%nat
    /\ forall o, In o opps ->
         isProfitable o = true /\ timestamp o = now
         /\ exists m iA iB oA oB,
              In m matches /\ In (iA, iB) strategies
              /\ length (outcomes (marketA m)) = 2%nat
              /\ length (outcomes (marketB m)) = 2%nat
              /\ oppMarketA o = marketA m /\ oppMarketB o = marketB m
              /\ outcomes (marketA m) !! iA = Some oA
              /\ outcomes (marketB m) !! iB = Some oB
              /\ outcomeA o = name oA /\ priceA o = price oA
              /\ outcomeB o = name oB /\ priceB o = price oB.
Proof.
  destruct (allStrategies_total now matches) as (evaluated & Hall & _).
  exists (List.filter isProfitable evaluated).
  split; [unfold findArbitrageOpportunities; now rewrite Hall|].
  split.
  - pose proof (allStrategies_length now matches evaluated Hall) as Hlen.
    pose proof (List.filter_length_le isProfitable evaluated). lia.
  - intros o Ho. apply filter_In in Ho as [Ho Hp].
    destruct (allStrategies_In now matches evaluated o Hall Ho)
      as (m & iA & iB & Hm & Hs & HA & HB & Hc).
    destruct (calculateArbitrage_source _ _ _ _ _ _ Hc)
      as (E1 & E2 & E3 & oA & oB & H1 & H2 & H3 & H4 & H5 & H6).
    split; [exact Hp | split; [exact E3|]].
    exists m, iA, iB, oA, oB. repeat split; assumption.
Qed.

(** X3: the opportunities of a list of matches are those of its parts, in
    order: scanning [m1 ++ m2] gives the opportunities of [m1] followed by
    those of [m2]. *)
Theorem findArbitrageOpportunities_batches (now : Z) (m1 m2 : list MarketMatch) :
  exists o1 o2,
    findArbitrageOpportunities now m1 = Some o1
    /\ findArbitrageOpportunities now m2 = Some o2
    /\ findArbitrageOpportunities now (m1 ++ m2) = Some (o1 ++ o2).
Proof.
  destruct (allStrategies_total now m1) as (e1 & H1 & _).
  destruct (allStrategies_total now m2) as (e2 & H2 & _).
  exists (List.filter isProfitable e1), (List.filter isProfitable e2).
  unfold findArbitrageOpportunities.
  rewrite allStrategies_app, H1, H2. cbn.
  now rewrite List.filter_app.
Qed.

Lemma filter_all_false {A} (f : A -> bool) (l : list A) :
  (forall x, In x l -> f x = false) -> List.filter f l = [].
Proof.
  induction l as [|x rest IH]; intros H; cbn; [reflexivity|].
  rewrite (H x) by now left. apply IH. intros y Hy. apply H. now right.
Qed.

(** Rounding keeps a coefficient that is not negative so. *)
Lemma finalise_nonneg c e :
  0 <= c -> exists c' e', finalise c e = Fin c' e' /\ 0 <= c'.
Proof.
  intros Hc. unfold finalise.
  destruct (Z.abs c <? 10 ^ precision); [eauto|].
  eexists _, _. split; [reflexivity|].
  apply Z.mul_nonneg_nonneg; [lia|].
  unfold half_up.
  pose proof (Z.pow_nonneg 10 (ndigits (Z.abs c) - precision) ltac:(lia)).
  apply Z_div_nonneg_nonneg; lia.
Qed.

Lemma to_Q_le_one_iff c e :
  (to_Q (Fin c e) <= 1)%Q <-> c * 10 ^ Z.max e 0 <= 10 ^ Z.max (- e) 0.
Proof.
  unfold to_Q, Qle. cbn [Qnum Qden].
  rewrite Z2Pos.id by (apply pow10_gt0; lia). lia.
Qed.

(** A value of at most 1 is rounded to a value of at most 1. *)
Lemma finalise_le_one c e :
  (to_Q (Fin c e) <= 1)%Q ->
  exists c' e', finalise c e = Fin c' e' /\ (to_Q (Fin c' e') <= 1)%Q.
Proof.
  intros Hc. unfold finalise.
  destruct (Z.ltb_spec (Z.abs c) (10 ^ precision)) as [Hsmall|Hbig]; [eauto|].
  set (k := ndigits (Z.abs c) - precision).
  eexists _, _. split; [reflexivity|].
  apply to_Q_le_one_iff. apply to_Q_le_one_iff in Hc.
  destruct (ndigits_spec (Z.abs c) ltac:(unfold precision in *; lia)) as (_ & Hlo & Hhi).
  assert (P20 : 10 ^ precision = 100000000000000000000) by reflexivity.
  assert (Hk : 1 <= k).
  { unfold k, precision in *.
    destruct (Z_le_gt_dec (ndigits (Z.abs c)) 20) as [Hle|]; [|lia]. exfalso.
    assert (10 ^ ndigits (Z.abs c) <= 10 ^ 20) by (apply Z.pow_le_mono_r; lia). lia. }
  pose proof (pow10_gt0 k ltac:(lia)) as Hp.
  assert (Hh : 0 <= half_up (Z.abs c) (10 ^ k))
    by (unfold half_up; apply Z_div_nonneg_nonneg; lia).
  pose proof (pow10_gt0 (Z.max (e + k) 0) ltac:(lia)) as Hp1.
  pose proof (pow10_gt0 (Z.max (- (e + k)) 0) ltac:(lia)) as Hp2.
  destruct (Z_lt_le_dec c 0) as [Hneg|Hpos].
  - replace (Z.sgn c) with (-1) by lia. nia.
  - replace (Z.sgn c) with 1 by lia. rewrite Z.mul_1_l.
    unfold k in *. clear k. rewrite (Z.abs_eq c) in * by lia.
    set (k := ndigits c - precision) in *.
    assert (He : e <= 0).
    { destruct (Z_le_gt_dec e 0) as [|Hgt]; [assumption|]. exfalso.
      rewrite (Z.max_l e 0), (Z.max_r (- e) 0) in Hc by lia.
      pose proof (pow10_ge1 e ltac:(lia)). change (10 ^ 0) with 1 in Hc. nia. }
    rewrite (Z.max_r e 0), (Z.max_l (- e) 0) in Hc by lia.
    change (10 ^ 0) with 1 in Hc. rewrite Z.mul_1_r in Hc.
    assert (Hd : ndigits c - 1 <= - e).
    { destruct (Z_le_gt_dec (ndigits c - 1) (- e)) as [|Hgt]; [assumption|]. exfalso.
      assert (10 ^ (- e + 1) <= 10 ^ (ndigits c - 1)) by (apply Z.pow_le_mono_r; lia).
      rewrite pow10_add in H by lia. change (10 ^ 1) with 10 in H.
      pose proof (pow10_gt0 (- e) ltac:(lia)). lia. }
    assert (Hek : e + k <= 0) by (unfold k, precision; lia).
    rewrite (Z.max_r (e + k) 0), (Z.max_l (- (e + k)) 0) by lia.
    change (10 ^ 0) with 1. rewrite Z.mul_1_r.
    assert (Hsplit : 10 ^ (- e) = 10 ^ (- (e + k)) * 10 ^ k).
    { rewrite <- pow10_add by lia. f_equal. lia. }
    pose proof (pow10_gt0 (- (e + k)) ltac:(lia)) as HN.
    apply Z.lt_succ_r. unfold half_up.
    apply Z.div_lt_upper_bound; [lia|]. nia.
Qed.

Lemma to_Q_nonneg c e : (0 <= to_Q (Fin c e))%Q <-> 0 <= c.
Proof.
  unfold to_Q, Qle. cbn [Qnum Qden].
  pose proof (pow10_gt0 (Z.max e 0) ltac:(lia)). nia.
Qed.

Lemma plus_nonneg c1 e1 c2 e2 :
  0 <= c1 -> 0 <= c2 ->
  exists c e, plus (Fin c1 e1) (Fin c2 e2) = Fin c e /\ 0 <= c.
Proof.
  intros H1 H2. cbn [plus]. apply finalise_nonneg.
  pose proof (Z.pow_nonneg 10 (e1 - Z.min e1 e2) ltac:(lia)).
  pose proof (Z.pow_nonneg 10 (e2 - Z.min e1 e2) ltac:(lia)). nia.
Qed.

Lemma times_nonneg c1 e1 c2 e2 :
  0 <= c1 -> 0 <= c2 ->
  exists c e, times (Fin c1 e1) (Fin c2 e2) = Fin c e /\ 0 <= c.
Proof. intros H1 H2. cbn [times]. apply finalise_nonneg. nia. Qed.

Lemma getFeeRate_nonneg p : exists c e, getFeeRate p = Fin c e /\ 0 <= c.
Proof. destruct p; cbn; eexists _, _; (split; [reflexivity | lia]). Qed.

(** One minus a value that is not negative is at most 1, rounded or not. *)
Lemma one_minus_le_one c e :
  0 <= c ->
  exists c' e', minus (of_Z 1) (Fin c e) = Fin c' e' /\ (to_Q (Fin c' e') <= 1)%Q.
Proof.
  intros Hc. unfold minus, of_Z. cbn [neg plus]. apply finalise_le_one.
  apply to_Q_le_one_iff.
  assert (Hm : Z.min 0 e <= 0) by lia.
  rewrite (Z.max_r (Z.min 0 e) 0), (Z.max_l (- Z.min 0 e) 0) by lia.
  change (10 ^ 0) with 1. rewrite Z.mul_1_r.
  replace (0 - Z.min 0 e) with (- Z.min 0 e) by lia.
  pose proof (Z.pow_nonneg 10 (e - Z.min 0 e) ltac:(lia)). nia.
Qed.

Lemma calculateArbitrage_margin now mA mB iA iB oA oB o :
  outcomes mA !! iA = Some oA ->
  outcomes mB !! iB = Some oB ->
  calculateArbitrage now mA mB iA iB = Some (Some o) ->
  profitMargin o
  = minus (of_Z 1)
      (plus (plus (price oA) (price oB))
         (plus (times (price oA) (getFeeRate (platform mA)))
               (times (price oB) (getFeeRate (platform mB))))).
Proof.
  intros HA HB. unfold calculateArbitrage. rewrite HA, HB. cbv zeta.
  destruct (greaterThanOrEqualTo _ _); [discriminate|].
  intros [= <-]. reflexivity.
Qed.

(** With prices that are finite and not negative, the profit margin of an
    opportunity is at most 1. *)
Lemma profitMargin_le_one now mA mB iA iB oA oB o :
  outcomes mA !! iA = Some oA ->
  outcomes mB !! iB = Some oB ->
  is_finite (price oA) = true -> (0 <= to_Q (price oA))%Q ->
  is_finite (price oB) = true -> (0 <= to_Q (price oB))%Q ->
  calculateArbitrage now mA mB iA iB = Some (Some o) ->
  exists c e, profitMargin o = Fin c e /\ (to_Q (Fin c e) <= 1)%Q.
Proof.
  intros HA HB FA PA FB PB Ho.
  rewrite (calculateArbitrage_margin _ _ _ _ _ _ _ _ HA HB Ho).
  destruct (price oA) as [cA eA| |]; try discriminate FA.
  destruct (price oB) as [cB eB| |]; try discriminate FB.
  apply to_Q_nonneg in PA, PB.
  destruct (plus_nonneg cA eA cB eB PA PB) as (ct & et & -> & Ht).
  destruct (getFeeRate_nonneg (platform mA)) as (rA & sA & -> & HrA).
  destruct (getFeeRate_nonneg (platform mB)) as (rB & sB & -> & HrB).
  destruct (times_nonneg cA eA rA sA PA HrA) as (fA & gA & -> & HfA).
  destruct (times_nonneg cB eB rB sB PB HrB) as (fB & gB & -> & HfB).
  destruct (plus_nonneg fA gA fB gB HfA HfB) as (cf & ef & -> & Hf).
  destruct (plus_nonneg ct et cf ef Ht Hf) as (cn & en & -> & Hn).
  destruct (one_minus_le_one cn en Hn) as (c' & e' & -> & Hle).
  eexists _, _. split; [reflexivity | exact Hle].
Qed.

(** X4: when no price of the matched markets is negative, infinite or NaN
    (so whenever all prices lie between 0 and 1) and the configured
    [minProfitAmount] is a number above 1 (the default is 10), no opportunity
    of the calculator passes [meetsAlertThreshold]: the profit margin of
    every returned opportunity is a finite decimal of value at most 1, the
    payout being one dollar. *)
Theorem meetsAlertThreshold_amount_above_one (now : Z) (matches : list MarketMatch)
    (cfg : AlertConfig) (t : Q) :
  (forall m o, In m matches ->
     In o (outcomes (marketA m)) \/ In o (outcomes (marketB m)) ->
     is_finite (price o) = true /\ (0 <= to_Q (price o))%Q) ->
  minProfitAmount cfg = Num t ->
  (1 < t)%Q ->
  exists opps,
    findArbitrageOpportunities now matches = Some opps
    /\ Forall (fun o => exists c e, profitMargin o = Fin c e /\ (to_Q (Fin c e) <= 1)%Q)
              opps
    /\ List.filter (meetsAlertThreshold cfg) opps = [].
Proof.
  intros Hprices Hcfg Ht.
  destruct (allStrategies_total now matches) as (evaluated & Hall & _).
  exists (List.filter isProfitable evaluated).
  split; [unfold findArbitrageOpportunities; now rewrite Hall|].
  assert (Hmargin : forall o, In o (List.filter isProfitable evaluated) ->
            exists c e, profitMargin o = Fin c e /\ (to_Q (Fin c e) <= 1)%Q).
  { intros o Ho. apply filter_In in Ho as [Ho _].
    destruct (allStrategies_In now matches evaluated o Hall Ho)
      as (m & iA & iB & Hm & _ & _ & _ & Hc).
    destruct (calculateArbitrage_source _ _ _ _ _ _ Hc)
      as (_ & _ & _ & oA & oB & HA & HB & _).
    destruct (Hprices m oA Hm) as [FA PA].
    { left. apply list_elem_of_In. eapply list_elem_of_lookup_2, HA. }
    destruct (Hprices m oB Hm) as [FB PB].
    { right. apply list_elem_of_In. eapply list_elem_of_lookup_2, HB. }
    exact (profitMargin_le_one now _ _ iA iB oA oB o HA HB FA PA FB PB Hc). }
  split.
  - apply Forall_forall. intros o Ho. apply Hmargin. now apply list_elem_of_In.
  - apply filter_all_false. intros o Ho.
    destruct (Hmargin o Ho) as (c & e & Eq & Hq).
    unfold meetsAlertThreshold. rewrite Eq, Hcfg. cbn [toNumber js_ge].
    replace (Qle_bool t (to_Q (Fin c e))) with false; [apply andb_false_r|].
    symmetry. apply not_true_iff_false. rewrite Qle_bool_iff.
    intros Hle. apply (Qlt_not_le _ _ Ht). now apply (Qle_trans _ (to_Q (Fin c e))).
Qed.

Lemma meetsAlertThreshold_amount_above_one_witness :
  exists opps,
    findArbitrageOpportunities 0 [Samples.clearArbitrage] = Some opps
    /\ List.filter (meetsAlertThreshold (defaultAlerts "https://discord.com/api/webhooks/1/x")) opps = [].
Proof.
  destruct (meetsAlertThreshold_amount_above_one 0 [Samples.clearArbitrage]
              (defaultAlerts "https://discord.com/api/webhooks/1/x") 10)
    as (opps & Hopps & _ & Hnone).
  - intros m o [<-|[]] Hin.
    cbn in Hin. destruct Hin as [[<-|[<-|[]]]|[<-|[<-|[]]]];
      (split; [reflexivity | vm_compute; discriminate]).
  - reflexivity.
  - reflexivity.
  - exists opps. split; [exact Hopps | exact Hnone].
Defined.

End CalculatorRules.

(** ** Retry driver: the shape of every run *)

Module RetryShape.
Import Retry RetryFacts.

Section Shape.
Context {T E : Type}.
Implicit Types (fn : nat -> T + E) (opts : RetryOptions E) (errs : nat -> E).

(** Whatever [fn] does, the loop entered at iteration [i] runs [k] failed
    attempts, each followed by its sleep, and one last attempt, which
    decides the outcome. *)
Lemma loop_shape fn opts :
  forall (remaining i : nat),
    (i + remaining = maxRetries opts)%nat ->
    (0 < remaining)%nat ->
    exists k : nat,
      (k < remaining)%nat
      /\ events (loop fn opts remaining i) = failedThenLast opts i k
      /\ outcome (loop fn opts remaining i)
         = match fn (i + k)%nat with
           | inl v => inl v
           | inr e => inr (FnError e)
           end
      /\ (forall j, (i <= j < i + k)%nat ->
            exists e, fn j = inr e /\ shouldRetry opts e = true).
Proof.
  induction remaining as [|r IH]; intros i Hsum Hpos; [lia|].
  cbn [loop]. destruct (fn i) as [v|e] eqn:Efn.
  - exists 0%nat. rewrite Nat.add_0_r, Efn. unfold failedThenLast. cbn.
    rewrite Nat.add_0_r. repeat split; lia.
  - destruct (Nat.eqb_spec i (maxRetries opts - 1)) as [Hlast|Hnot].
    { exists 0%nat. rewrite Nat.add_0_r, Efn. unfold failedThenLast. cbn.
      rewrite Nat.add_0_r. repeat split; lia. }
    destruct (shouldRetry opts e) eqn:Hr; cbn [negb].
    2: { exists 0%nat. rewrite Nat.add_0_r, Efn. unfold failedThenLast. cbn.
         rewrite Nat.add_0_r. repeat split; lia. }
    destruct (IH (S i)) as (k & Hk & Hev & Hout & Hfail); [lia | lia |].
    exists (S k). unfold prepend. cbn [events outcome]. rewrite Hev, Hout.
    replace (i + S k)%nat with (S i + k)%nat by lia.
    split; [lia | split; [| split; [reflexivity|]]].
    + unfold failedThenLast. cbn. rewrite ?Nat.add_succ_r. reflexivity.
    + intros j Hj. destruct (Nat.eq_dec j i) as [->|Hne]; [eauto|].
      apply Hfail. lia.
Qed.

Lemma backoff_le_maxDelay opts i : backoff opts i <= maxDelay opts.
Proof. unfold backoff. lia. Qed.

Lemma retryWithBackoff_attempts fn opts :
  (attempts (retryWithBackoff fn opts) <= maxRetries opts)%nat
  /\ sleeps (retryWithBackoff fn opts)
     = List.map (backoff opts) (seq 0 (attempts (retryWithBackoff fn opts) - 1)).
Proof.
  unfold retryWithBackoff.
  destruct (maxRetries opts) as [|n] eqn:EN; [cbn; split; [lia | reflexivity]|].
  destruct (loop_shape fn opts (S n) 0) as (k & Hk & Hev & _); [lia | lia |].
  destruct (loop fn opts (S n) 0) as [r ev]. cbn [events] in Hev. subst ev.
  rewrite attempts_failedThenLast, sleeps_failedThenLast.
  replace (S k - 1)%nat with k by lia. split; [lia | reflexivity].
Qed.

(** X5: every run of [retryWithBackoff] makes at most [maxRetries]
    attempts; it sleeps once between two attempts, the i-th time for
    [min (initialDelay * 2^i) maxDelay] ms, so never longer than [maxDelay];
    it ends with [Error('Retry failed')] exactly when [maxRetries] is 0, in
    which case nothing is attempted; otherwise the last attempt decides the
    outcome and every earlier attempt failed with an error that
    [shouldRetry] accepts. *)
Theorem retryWithBackoff_bounded fn opts :
  let run := retryWithBackoff fn opts in
  (attempts run <= maxRetries opts)%nat
  /\ sleeps run = List.map (backoff opts) (seq 0 (attempts run - 1))
  /\ Forall (fun ms => ms <= maxDelay opts) (sleeps run)
  /\ (outcome run = inr RetryFailed <-> maxRetries opts = 0%nat)
  /\ (maxRetries opts = 0%nat -> events run = [])
  /\ ((0 < maxRetries opts)%nat ->
      (1 <= attempts run)%nat
      /\ events run = failedThenLast opts 0 (attempts run - 1)
      /\ outcome run = match fn (attempts run - 1)%nat with
                       | inl v => inl v
                       | inr e => inr (FnError e)
                       end
      /\ forall j, (j < attempts run - 1)%nat ->
           exists e, fn j = inr e /\ shouldRetry opts e = true).
Proof.
  cbv zeta. unfold retryWithBackoff.
  destruct (maxRetries opts) as [|n] eqn:EN.
  - cbn. repeat split; try lia; try constructor; intros; try lia; reflexivity.
  - destruct (loop_shape fn opts (S n) 0) as (k & Hk & Hev & Hout & Hfail); [lia | lia |].
    assert (Ha : attempts (loop fn opts (S n) 0) = S k).
    { destruct (loop fn opts (S n) 0) as [r ev]. cbn [events] in Hev. subst ev.
      apply attempts_failedThenLast. }
    assert (Hs : sleeps (loop fn opts (S n) 0) = List.map (backoff opts) (seq 0 k)).
    { destruct (loop fn opts (S n) 0) as [r ev]. cbn [events] in Hev. subst ev.
      apply sleeps_failedThenLast. }
    rewrite Ha, Hs. replace (S k - 1)%nat with k by lia.
    split; [lia | split; [reflexivity | split; [| split; [| split]]]].
    + apply Forall_forall. intros ms Hin. apply list_elem_of_In, in_map_iff in Hin as (i & <- & _).
      apply backoff_le_maxDelay.
    + split; [|discriminate]. rewrite Hout. cbn. destruct (fn k); discriminate.
    + discriminate.
    + intros _. split; [lia | split; [exact Hev | split; [exact Hout|]]].
      intros j Hj. apply Hfail. lia.
Qed.

Lemma loop_recovers fn opts errs (k : nat) v :
  forall (i remaining : nat),
    (i + remaining = maxRetries opts)%nat ->
    (i + k < maxRetries opts)%nat ->
    (forall j, (i <= j < i + k)%nat -> fn j = inr (errs j) /\ shouldRetry opts (errs j) = true) ->
    fn (i + k)%nat = inl v ->
    loop fn opts remaining i = mkRun (inl v) (failedThenLast opts i k).
Proof.
  induction k as [|k IH]; intros i remaining Hsum Hlt Hfail Hok.
  - destruct remaining as [|r]; [lia|]. cbn [loop].
    rewrite Nat.add_0_r in *. rewrite Hok.
    unfold failedThenLast. cbn. now rewrite Nat.add_0_r.
  - destruct remaining as [|r]; [lia|]. cbn [loop].
    destruct (Hfail i) as [Hi Hr]; [lia|]. rewrite Hi, Hr.
    destruct (Nat.eqb_spec i (maxRetries opts - 1)); [lia|]. cbn [negb].
    rewrite (IH (S i) r); try lia.
    + unfold prepend, failedThenLast. cbn.
      replace (S (i + k)) with (i + S k)%nat by lia. reflexivity.
    + intros j Hj. apply Hfail. lia.
    + now replace (S i + k)%nat with (i + S k)%nat by lia.
Qed.

Lemma retryWithBackoff_run fn opts errs (k : nat) (v : T) :
  (k < maxRetries opts)%nat ->
  (forall i, (i < k)%nat -> fn i = inr (errs i) /\ shouldRetry opts (errs i) = true) ->
  fn k = inl v ->
  retryWithBackoff fn opts = mkRun (inl v) (failedThenLast opts 0 k).
Proof.
  intros Hk Hfail Hok. unfold retryWithBackoff.
  apply (loop_recovers fn opts errs k v 0 (maxRetries opts)); cbn; try lia; auto.
  intros j Hj. apply Hfail. lia.
Qed.

(** X6: if the first [k] attempts fail with errors that [shouldRetry]
    accepts, attempt [k] succeeds and [k] is below [maxRetries], then
    [retryWithBackoff] returns the value of attempt [k] after [k + 1]
    attempts and [k] sleeps of the backoff sequence. *)
Theorem retryWithBackoff_recovers fn opts errs (k : nat) (v : T) :
  (k < maxRetries opts)%nat ->
  (forall i, (i < k)%nat -> fn i = inr (errs i) /\ shouldRetry opts (errs i) = true) ->
  fn k = inl v ->
  let run := retryWithBackoff fn opts in
  outcome run = inl v
  /\ attempts run = S k
  /\ sleeps run = List.map (backoff opts) (seq 0 k)
  /\ events run = failedThenLast opts 0 k.
Proof.
  intros Hk Hfail Hok. cbv zeta. unfold retryWithBackoff.
  assert (Hrun : loop fn opts (maxRetries opts) 0 = mkRun (inl v) (failedThenLast opts 0 k)).
  { apply (loop_recovers fn opts errs k v 0 (maxRetries opts)); cbn; try lia; auto.
    intros j Hj. apply Hfail. lia. }
  rewrite Hrun, attempts_failedThenLast, sleeps_failedThenLast. cbn [outcome events]. auto.
Qed.

End Shape.

Lemma retryWithBackoff_recovers_witness :
  let fn : nat -> nat + string :=
    fun i => if (i <? 2)%nat then inr "ETIMEDOUT"%string else inl 7%nat in
  let run := retryWithBackoff fn defaultOptions in
  outcome run = inl 7%nat /\ attempts run = 3%nat /\ sleeps run = [1000; 2000].
Proof.
  intros fn run.
  destruct (retryWithBackoff_recovers fn defaultOptions (fun _ => "ETIMEDOUT"%string) 2 7%nat)
    as (H1 & H2 & H3 & _).
  - cbn. lia.
  - intros i Hi. unfold fn. destruct (Nat.ltb_spec i 2); [split; reflexivity | lia].
  - reflexivity.
  - split; [exact H1 | split; [exact H2 | exact H3]].
Defined.

End RetryShape.

(** ** Adapters: which errors are retried, and how *)

Module ErrorPolicy.
Import Retry RetryFacts RetryShape AdapterSupport.

(** X7: the adapters retry a thrown value exactly when it is an axios
    error with no response (network failure or timeout) or with status 0,
    429 or at least 500; a response with any other status, a validation
    error and any other thrown value are not retried. *)
Theorem classified_error_retried (error : JsError) (platformName : string) :
  adapterShouldRetry (classifyError error platformName) = true
  <-> exists ax,
        error = AxiosErr ax
        /\ match response ax with
           | None => True
           | Some (st, _) => st = 0 \/ st = 429 \/ 500 <= st
           end.
Proof.
  destruct error as [[[[st ra]|] code]| | e | |]; cbn.
  - destruct (Z.eqb_spec st 429) as [->|Hne]; cbn.
    + split; [intros _; eexists; split; [reflexivity | cbn; auto] | reflexivity].
    + rewrite !orb_true_iff, !Z.eqb_eq, Z.leb_le. split.
      * intros H. eexists. split; [reflexivity | cbn; tauto].
      * intros (ax & [= <-] & H). cbn in H. tauto.
  - split; [intros _; eexists; split; [reflexivity | exact I] | reflexivity].
  - split; [discriminate | intros (ax & [=] & _)].
  - split; [discriminate | intros (ax & [=] & _)].
  - split; [discriminate | intros (ax & [=] & _)].
  - split; [discriminate | intros (ax & [=] & _)].
Qed.

(** The driver under the options of the adapters, for an operation whose
    failures are classified errors. *)
Lemma adapter_retry {T} (fn : nat -> T + ScannerError) :
  let run := retryWithBackoff fn adapterRetryOptions in
  (attempts run <= 3)%nat
  /\ sleeps run = take (attempts run - 1) [1000; 2000]
  /\ (forall e, fn 0%nat = inr e -> adapterShouldRetry e = false ->
        run = mkRun (inr (FnError e)) [Attempt 0])
  /\ (forall e0 e1 e2,
        fn 0%nat = inr e0 -> fn 1%nat = inr e1 -> fn 2%nat = inr e2 ->
        adapterShouldRetry e0 = true -> adapterShouldRetry e1 = true ->
        run = mkRun (inr (FnError e2))
                [Attempt 0; Sleep 1000; Attempt 1; Sleep 2000; Attempt 2]).
Proof.
  cbv zeta.
  destruct (retryWithBackoff_attempts fn adapterRetryOptions) as (Hle & Hs).
  cbn [maxRetries adapterRetryOptions] in Hle.
  split; [exact Hle | split; [| split]].
  - rewrite Hs.
    destruct (attempts (retryWithBackoff fn adapterRetryOptions)) as [|[|[|[|n]]]];
      try reflexivity. lia.
  - intros e H0 Hr. unfold retryWithBackoff. cbn. rewrite H0. cbn. now rewrite Hr.
  - intros e0 e1 e2 H0 H1 H2 Hr0 Hr1. unfold retryWithBackoff. cbn.
    rewrite H0. cbn. rewrite Hr0. cbn. rewrite H1. cbn. rewrite Hr1. cbn. rewrite H2.
    reflexivity.
Qed.

Section Policy.
Variable parseDate : string -> JsDate.
Variable parseDecimal : string -> option Decimal.t.
Variable number : Type.
Variable falsy : number -> bool.
Variable one_minus : number -> number.
Variable half : number.
Variable numberToDecimal : number -> Decimal.t.
Variable timeToDate : number -> JsDate.

Lemma retryPolicy_of_operation {Payload} platformName
    (operation : HttpOutcome Payload -> list StandardMarket + ScannerError) :
  operation (inl None) = inr ScannerErr ->
  (forall ax, operation (inr ax) = inr (classifyError (AxiosErr ax) platformName)) ->
  retryPolicy platformName (fun http => retryWithBackoff (fun i => operation (http i)) adapterRetryOptions).
Proof.
  intros Hnone Hax http. cbv zeta.
  destruct (adapter_retry (fun i => operation (http i))) as (H1 & H2 & H3 & H4).
  split; [exact H1 | split; [exact H2 | split; [| split]]].
  - intros E. apply H3; [now rewrite E | reflexivity].
  - intros ax E Hr. apply H3; [now rewrite E, Hax | exact Hr].
  - intros ax0 ax1 ax2 E0 E1 E2 Hr0 Hr1.
    apply (H4 (classifyError (AxiosErr ax0) platformName)
              (classifyError (AxiosErr ax1) platformName)).
    + now rewrite E0, Hax.
    + now rewrite E1, Hax.
    + now rewrite E2, Hax.
    + exact Hr0.
    + exact Hr1.
Qed.

(** X8: the [fetchMarkets] of the PolyMarket, Kalshi and Manifold adapters
    follow one retry policy: at most three attempts, pauses of 1000 then
    2000 ms, a single attempt after a payload that fails validation or an
    error that is not retryable, and the third error thrown after two
    retryable failures. *)
Theorem fetchMarkets_retry_policy :
  retryPolicy "PolyMarket" (PolyMarketAdapter.fetchMarkets parseDate parseDecimal)
  /\ retryPolicy "Kalshi" (KalshiAdapter.fetchMarkets parseDate)
  /\ (forall lim,
        retryPolicy "Manifold"
          (ManifoldAdapter.fetchMarkets number falsy one_minus half numberToDecimal
             timeToDate lim)).
Proof.
  split; [| split; [| intros lim]]; apply retryPolicy_of_operation; reflexivity.
Qed.

(** X9: on a 429 answered to every request, each adapter makes three
    attempts with pauses of 1000 and 2000 ms and throws the
    [RateLimitError]; the delay that [getRetryDelay] advises for that error
    (the [retry-after] header in ms, or 60000) is not what it waits. *)
Theorem rate_limit_advice_unused (ax : AxiosError) (retryAfter : option Z) (lim : nat) :
  response ax = Some (429, retryAfter) ->
  let advised := match retryAfter with
                 | Some r => if r =? 0 then 60000 else r * 1000
                 | None => 60000
                 end in
  let trace := [Attempt 0; Sleep 1000; Attempt 1; Sleep 2000; Attempt 2] in
  (PolyMarketAdapter.fetchMarkets parseDate parseDecimal (fun _ => inr ax)
   = mkRun (inr (FnError (RateLimitError "PolyMarket" retryAfter))) trace
   /\ getRetryDelay (RateLimitError "PolyMarket" retryAfter) = Some advised)
  /\ (KalshiAdapter.fetchMarkets parseDate (fun _ => inr ax)
      = mkRun (inr (FnError (RateLimitError "Kalshi" retryAfter))) trace
      /\ getRetryDelay (RateLimitError "Kalshi" retryAfter) = Some advised)
  /\ (ManifoldAdapter.fetchMarkets number falsy one_minus half numberToDecimal timeToDate lim
        (fun _ => inr ax)
      = mkRun (inr (FnError (RateLimitError "Manifold" retryAfter))) trace
      /\ getRetryDelay (RateLimitError "Manifold" retryAfter) = Some advised).
Proof.
  intros Hax. cbv zeta.
  assert (Hc : forall name, classifyError (AxiosErr ax) name = RateLimitError name retryAfter).
  { intros name. unfold classifyError. rewrite Hax. reflexivity. }
  split; [| split]; (split; [| reflexivity]).
  - unfold PolyMarketAdapter.fetchMarkets, retryWithBackoff, PolyMarketAdapter.operation.
    cbn. rewrite Hax. reflexivity.
  - unfold KalshiAdapter.fetchMarkets, retryWithBackoff, KalshiAdapter.operation.
    cbn. rewrite Hax. reflexivity.
  - unfold ManifoldAdapter.fetchMarkets, retryWithBackoff, ManifoldAdapter.operation.
    cbn. rewrite Hax. reflexivity.
Qed.

End Policy.

Lemma rate_limit_advice_unused_witness :
  let ax := mkAxiosError (Some (429, Some 30)) None in
  sleeps (KalshiAdapter.fetchMarkets Samples.noDate (fun _ => inr ax)) = [1000; 2000]
  /\ getRetryDelay (RateLimitError "Kalshi" (Some 30)) = Some 30000.
Proof.
  intros ax.
  destruct (rate_limit_advice_unused Samples.noDate plainDecimal Z (Z.eqb 0) (Z.sub 1) 0
              Decimal.of_Z ValidDate ax (Some 30) 1%nat eq_refl) as (_ & [Hrun Hdelay] & _).
  rewrite Hrun. split; [reflexivity | exact Hdelay].
Defined.

End ErrorPolicy.

(** ** Adapters: payloads at the edges *)

Module AdapterEdges.
Import Retry RetryFacts RetryShape AdapterSupport AdapterFacts ErrorPolicy.

Lemma mapi_opt_is_Some {A B} (f : A -> nat -> option B) xs i :
  is_Some (mapi_opt f xs i) <-> forall k x, xs !! k = Some x -> is_Some (f x (i + k)%nat).
Proof.
  revert i. induction xs as [|x rest IH]; intros i; cbn.
  - split; [intros _ k x H; discriminate H | eauto].
  - split.
    + intros H k y Hk.
      destruct (f x i) as [y0|] eqn:E; [|destruct H as [? H]; discriminate H]. cbn in H.
      destruct (mapi_opt f rest (S i)) as [ys0|] eqn:E';
        [|destruct H as [? H]; discriminate H].
      destruct k as [|k]; cbn in Hk.
      * injection Hk as <-. rewrite Nat.add_0_r, E. eauto.
      * replace (i + S k)%nat with (S i + k)%nat by lia.
        apply (proj1 (IH (S i))); [rewrite E'; eauto | exact Hk].
    + intros H. destruct (H 0%nat x eq_refl) as [y Ey]. rewrite Nat.add_0_r in Ey.
      rewrite Ey. cbn.
      destruct (proj2 (IH (S i))) as [ys Eys].
      * intros k y' Hk. replace (S i + k)%nat with (i + S k)%nat by lia. now apply H.
      * rewrite Eys. cbn. eauto.
Qed.

Section PolyMarket.
Variable parseDate : string -> JsDate.
Variable parseDecimal : string -> option Decimal.t.

Lemma pm_prices_missing (market : PolyMarketAdapter.PolyMarketEvent) :
  (length (PolyMarketAdapter.outcomePrices market) < length (PolyMarketAdapter.pm_outcomes market))%nat ->
  PolyMarketAdapter.toStandardMarket parseDate parseDecimal market = None.
Proof.
  intros Hlen. unfold PolyMarketAdapter.toStandardMarket.
  destruct (mapi_opt _ (PolyMarketAdapter.pm_outcomes market) 0) as [outs|] eqn:E; [|reflexivity].
  exfalso.
  assert (Hs : is_Some (mapi_opt
            (fun nm index =>
               raw ← PolyMarketAdapter.outcomePrices market !! index;
               p ← parseDecimal raw; Some (mkOutcome nm p))
            (PolyMarketAdapter.pm_outcomes market) 0)) by (rewrite E; eexists; reflexivity).
  rewrite mapi_opt_is_Some in Hs.
  destruct (lookup_lt_is_Some_2 (PolyMarketAdapter.pm_outcomes market)
              (length (PolyMarketAdapter.outcomePrices market)) Hlen) as [nm Hnm].
  destruct (Hs _ _ Hnm) as [o Ho]. cbn in Ho.
  rewrite lookup_ge_None_2 in Ho by lia. discriminate Ho.
Qed.

(** X10: when the first PolyMarket response passes validation, nothing is
    retried and the batch is all or nothing: markets are returned exactly
    when every payload converts, they are the conversions in order with the
    ids of the payloads, and one payload that does not convert (for one,
    fewer prices than outcomes) fails the whole fetch with an error that is
    not retried. *)
Theorem pm_fetchMarkets_all_or_nothing
    (http : nat -> HttpOutcome (list PolyMarketAdapter.PolyMarketEvent))
    (data : list PolyMarketAdapter.PolyMarketEvent) :
  http 0%nat = inl (Some data) ->
  let run := PolyMarketAdapter.fetchMarkets parseDate parseDecimal http in
  events run = [Attempt 0]
  /\ ((exists markets, outcome run = inl markets)
      <-> Forall (fun market => is_Some (PolyMarketAdapter.toStandardMarket parseDate parseDecimal market)) data)
  /\ (forall markets,
        outcome run = inl markets ->
        Forall2 (fun market m => PolyMarketAdapter.toStandardMarket parseDate parseDecimal market = Some m) data markets
        /\ List.map id markets = List.map PolyMarketAdapter.pm_id data)
  /\ (forall market,
        In market data ->
        PolyMarketAdapter.toStandardMarket parseDate parseDecimal market = None
        \/ (length (PolyMarketAdapter.outcomePrices market)
            < length (PolyMarketAdapter.pm_outcomes market))%nat ->
        outcome run = inr (FnError ScannerErr)).
Proof.
  intros Hhttp. cbv zeta.
  set (f := fun (market : PolyMarketAdapter.PolyMarketEvent) (_ : nat) =>
              PolyMarketAdapter.toStandardMarket parseDate parseDecimal market).
  assert (Hop : PolyMarketAdapter.operation parseDate parseDecimal (http 0%nat)
                = match mapi_opt f data 0 with
                  | Some markets => inl markets
                  | None => inr ScannerErr
                  end).
  { rewrite Hhttp. unfold PolyMarketAdapter.operation. fold f.
    destruct (mapi_opt f data 0); reflexivity. }
  assert (Hsome : is_Some (mapi_opt f data 0)
                  <-> Forall (fun market =>
                                is_Some (PolyMarketAdapter.toStandardMarket parseDate
                                           parseDecimal market)) data).
  { rewrite mapi_opt_is_Some, Forall_forall. split.
    - intros H market Hin. apply list_elem_of_lookup_1 in Hin as [k Hk]. exact (H k market Hk).
    - intros H k market Hk. apply H. eapply list_elem_of_lookup_2, Hk. }
  unfold PolyMarketAdapter.fetchMarkets.
  set (fn := fun i => PolyMarketAdapter.operation parseDate parseDecimal (http i)).
  destruct (mapi_opt f data 0) as [markets|] eqn:E.
  - assert (Hrun : retryWithBackoff fn adapterRetryOptions
                   = mkRun (inl markets) (failedThenLast adapterRetryOptions 0 0)).
    { apply (retryWithBackoff_run fn adapterRetryOptions (fun _ => ScannerErr) 0 markets);
        [cbn; lia | intros i Hi; lia | exact Hop]. }
    rewrite Hrun. cbn [outcome events]. split; [reflexivity|]. split; [| split].
    + split; [intros _; apply Hsome; eexists; reflexivity | eauto].
    + intros ms [= <-]. pose proof (mapi_opt_Forall2 _ _ _ _ E) as HF.
      assert (HF' : Forall2 (fun market m =>
                               PolyMarketAdapter.toStandardMarket parseDate parseDecimal market
                               = Some m) data markets).
      { eapply Forall2_impl; [exact HF|]. intros market m [j Hj]. exact Hj. }
      split; [exact HF'|].
      clear -HF'. induction HF' as [|market m data' ms' Hm _ IH]; [reflexivity|].
      cbn. f_equal; [|exact IH].
      now apply (pm_toStandardMarket_shape parseDate parseDecimal) in Hm as (_ & Hid & _).
    + intros market Hin Hbad. exfalso.
      assert (Hnone : PolyMarketAdapter.toStandardMarket parseDate parseDecimal market = None)
        by (destruct Hbad as [H|H]; [exact H | now apply pm_prices_missing]).
      assert (Hall : Forall (fun market =>
                               is_Some (PolyMarketAdapter.toStandardMarket parseDate
                                          parseDecimal market)) data)
        by (apply Hsome; eexists; reflexivity).
      rewrite Forall_forall in Hall. apply list_elem_of_In in Hin.
      destruct (Hall market Hin) as [m Hm]. congruence.
  - destruct (adapter_retry fn) as (_ & _ & Hstop & _).
    rewrite (Hstop ScannerErr Hop eq_refl). cbn [outcome events].
    split; [reflexivity|]. split; [| split].
    + split; [intros [ms H]; discriminate H|].
      intros H. apply Hsome in H. destruct H as [ms H]. discriminate H.
    + intros ms H. discriminate H.
    + reflexivity.
Qed.

End PolyMarket.

Lemma pm_fetchMarkets_all_or_nothing_witness :
  let good := PolyMarketAdapter.mkPolyMarketEvent "1" "Rain tomorrow?" None None
                [ "Yes"; "No" ] [ "0.52"; "0.48" ] None in
  let short := PolyMarketAdapter.mkPolyMarketEvent "2" "Snow tomorrow?" None None
                 [ "Yes"; "No" ] [ "0.52" ] None in
  outcome (PolyMarketAdapter.fetchMarkets Samples.noDate plainDecimal
             (fun _ => inl (Some [good; short])))
  = inr (FnError ScannerErr).
Proof.
  intros good short.
  destruct (pm_fetchMarkets_all_or_nothing Samples.noDate plainDecimal (fun _ => inl (Some [good; short])) [good; short]
              eq_refl) as (_ & _ & _ & Hbad).
  apply (Hbad short); [right; left; reflexivity | right; cbn; lia].
Defined.

Section Numbers.
Variable number : Type.
Variable falsy : number -> bool.
Variable one_minus : number -> number.
Variable half : number.
Variable numberToDecimal : number -> Decimal.t.
Variable timeToDate : number -> JsDate.

(** X11: when the Manifold [fetchMarkets] returns, it returns at most
    [limit] markets: the conversions, in order, of the first [limit]
    payloads of one response that are of type BINARY, not resolved and
    carry a probability; each market has the id and the question of its
    payload and the outcomes Yes at the payload's probability and No at one
    minus it, where a zero probability is replaced by 0.5. *)
Theorem manifold_fetchMarkets_limit (lim : nat)
    (http : nat -> HttpOutcome (list (ManifoldAdapter.ManifoldMarket number)))
    (markets : list StandardMarket) :
  outcome (ManifoldAdapter.fetchMarkets number falsy one_minus half numberToDecimal
             timeToDate lim http) = inl markets ->
  (length markets <= lim)%nat
  /\ exists k data,
       http k = inl (Some data)
       /\ Forall2
            (fun payload m =>
               ManifoldAdapter.outcomeType number payload = "BINARY"%string
               /\ ManifoldAdapter.isResolved number payload = false
               /\ exists p,
                    ManifoldAdapter.probability number payload = Some p
                    /\ id m = ManifoldAdapter.m_id number payload
                    /\ title m = ManifoldAdapter.m_question number payload
                    /\ let price := if falsy p then half else p in
                       outcomes m = [ mkOutcome "Yes" (numberToDecimal price);
                                      mkOutcome "No" (numberToDecimal (one_minus price)) ])
            (take lim
               (List.filter
                  (fun payload =>
                     bool_decide (ManifoldAdapter.outcomeType number payload = "BINARY"%string)
                     && negb (ManifoldAdapter.isResolved number payload)
                     && bool_decide (is_Some (ManifoldAdapter.probability number payload)))
                  data))
            markets.
Proof.
  intros Hrun. apply retryWithBackoff_returned in Hrun as [k Hk].
  unfold ManifoldAdapter.operation in Hk.
  destruct (http k) as [[data|]|ax] eqn:Ehttp; try discriminate.
  injection Hk as <-.
  split.
  - rewrite length_map, length_take. lia.
  - exists k, data. split; [exact Ehttp|].
    apply Forall2_map_self. intros payload Hin.
    apply list_elem_of_In, elem_of_take in Hin as (i & Hi & _).
    apply list_elem_of_lookup_2, list_elem_of_In, filter_In in Hi as [_ Hb].
    unfold ManifoldAdapter.isBinaryMarket in Hb.
    apply andb_true_iff in Hb as [Hb Hp]. apply andb_true_iff in Hb as [Ht Hr].
    apply bool_decide_eq_true in Ht, Hp. destruct Hp as [p Hp].
    split; [exact Ht|].
    split; [now destruct (ManifoldAdapter.isResolved number payload)|].
    exists p. split; [exact Hp | split; [reflexivity | split; [reflexivity|]]].
    cbv zeta. unfold ManifoldAdapter.toStandardMarket. cbn [outcomes].
    unfold ManifoldAdapter.truthy_number. rewrite Hp.
    destruct (falsy p); reflexivity.
Qed.

End Numbers.

(** A Manifold payload in hundredths: a resolved market, an open one at 0
    and an open one at 65. *)
Lemma manifold_fetchMarkets_limit_witness :
  let resolved := ManifoldAdapter.mkManifoldMarket Z "m0" "Done?" "u0" None "BINARY" (Some 10)
                    true None in
  let zero := ManifoldAdapter.mkManifoldMarket Z "m1" "Never?" "u1" None "BINARY" (Some 0)
                false None in
  let open := ManifoldAdapter.mkManifoldMarket Z "m2" "Rain?" "u2" None "BINARY" (Some 65)
                false None in
  let cents := fun p : Z => Decimal.Fin p (-2) in
  let markets :=
    [ ManifoldAdapter.toStandardMarket Z (Z.eqb 0) (Z.sub 100) 50 cents ValidDate zero ] in
  outcome (ManifoldAdapter.fetchMarkets Z (Z.eqb 0) (Z.sub 100) 50 cents ValidDate 1
             (fun _ => inl (Some [resolved; zero; open]))) = inl markets
  /\ (length markets <= 1)%nat
  /\ List.map outcomes markets
     = [ [ mkOutcome "Yes" (Decimal.Fin 50 (-2)); mkOutcome "No" (Decimal.Fin 50 (-2)) ] ].
Proof.
  intros resolved zero open cents markets.
  assert (Hrun : outcome (ManifoldAdapter.fetchMarkets Z (Z.eqb 0) (Z.sub 100) 50 cents
                            ValidDate 1 (fun _ => inl (Some [resolved; zero; open])))
                 = inl markets) by reflexivity.
  split; [exact Hrun|].
  destruct (manifold_fetchMarkets_limit Z (Z.eqb 0) (Z.sub 100) 50 cents ValidDate 1
              (fun _ => inl (Some [resolved; zero; open])) markets Hrun) as (Hlen & _).
  split; [exact Hlen | reflexivity].
Defined.

End AdapterEdges.

(** ** Helpers: valid markets *)

Module MarketValidity.
Import Decimal DecimalFacts Helpers AdapterSupport AdapterFacts.

Lemma to_Q_sign c e : (0 <= to_Q (Fin c e))%Q <-> 0 <= c.
Proof.
  unfold to_Q, Qle. cbn [Qnum Qden].
  pose proof (pow10_gt0 (Z.max e 0) ltac:(lia)). nia.
Qed.

Lemma to_Q_le_one c e :
  (to_Q (Fin c e) <= 1)%Q <-> c * 10 ^ (e - Z.min e 0) <= 10 ^ (0 - Z.min e 0).
Proof.
  unfold to_Q, Qle. cbn [Qnum Qden].
  rewrite Z2Pos.id by (apply pow10_gt0; lia).
  destruct (Z_lt_le_dec e 0) as [Hneg|Hpos].
  - rewrite (Z.max_r e 0), (Z.max_l (- e) 0), (Z.min_l e 0) by lia.
    replace (e - e) with 0 by lia. replace (0 - e) with (- e) by lia.
    cbn. lia.
  - rewrite (Z.max_l e 0), (Z.max_r (- e) 0), (Z.min_r e 0) by lia.
    replace (e - 0) with e by lia. cbn. lia.
Qed.

(** A price passes the two comparisons of [isValidMarket] exactly when it is
    a finite decimal whose value lies between 0 and 1. *)
Lemma unit_price_spec (p : Decimal.t) :
  greaterThanOrEqualTo p (of_Z 0) && lessThanOrEqualTo p (of_Z 1) = true
  <-> is_finite p = true /\ (0 <= to_Q p)%Q /\ (to_Q p <= 1)%Q.
Proof.
  destruct p as [c e|[|]|]; cbn -[to_Q Z.pow].
  - rewrite to_Q_sign, to_Q_le_one.
    pose proof (pow10_gt0 (e - Z.min e 0) ltac:(lia)) as Hp.
    rewrite andb_true_iff. split.
    + intros [H0 H1]. split; [reflexivity|]. split.
      * destruct (Z.compare_spec (c * 10 ^ (e - Z.min e 0)) (0 * 10 ^ (0 - Z.min e 0)));
          try discriminate; nia.
      * destruct (Z.compare_spec (c * 10 ^ (e - Z.min e 0)) (1 * 10 ^ (0 - Z.min e 0)));
          try discriminate; lia.
    + intros (_ & H0 & H1). split.
      * destruct (Z.compare_spec (c * 10 ^ (e - Z.min e 0)) (0 * 10 ^ (0 - Z.min e 0)));
          try reflexivity; nia.
      * destruct (Z.compare_spec (c * 10 ^ (e - Z.min e 0)) (1 * 10 ^ (0 - Z.min e 0)));
          try reflexivity; lia.
  - split; [discriminate | intros [H _]; discriminate H].
  - split; [discriminate | intros [H _]; discriminate H].
  - split; [discriminate | intros [H _]; discriminate H].
Qed.

Lemma length_pos_iff (s : string) : (0 <? String.length s)%nat = true <-> s <> EmptyString.
Proof.
  destruct s; cbn; split; try discriminate; try reflexivity.
  intros H. now elim H.
Qed.

(** X12: [isValidMarket] accepts a market exactly when its id and title are
    not empty, it has at least two outcomes, and every price is a finite
    decimal whose value lies between 0 and 1. *)
Theorem isValidMarket_spec (market : StandardMarket) :
  isValidMarket market = true
  <-> id market <> EmptyString
      /\ title market <> EmptyString
      /\ (2 <= length (outcomes market))%nat
      /\ Forall (fun o => is_finite (price o) = true
                          /\ (0 <= to_Q (price o))%Q /\ (to_Q (price o) <= 1)%Q)
                (outcomes market).
Proof.
  unfold isValidMarket.
  rewrite !andb_true_iff, !length_pos_iff, Nat.leb_le, forallb_forall, Forall_forall.
  split.
  - intros [[[H1 H2] H3] H4]. repeat split; try assumption;
      apply unit_price_spec, H4; now apply list_elem_of_In.
  - intros (H1 & H2 & H3 & H4). repeat split; try assumption.
    intros o Ho. apply unit_price_spec, H4. now apply list_elem_of_In.
Qed.

Lemma cents_valid ask :
  greaterThanOrEqualTo (KalshiAdapter.cents ask) (of_Z 0)
  && lessThanOrEqualTo (KalshiAdapter.cents ask) (of_Z 1) = true
  <-> forall c, ask = Some c -> 0 <= c <= 100.
Proof.
  rewrite unit_price_spec. unfold KalshiAdapter.cents.
  destruct ask as [c|].
  - destruct (Z.eqb_spec c 0) as [->|Hne].
    + split; [intros _ c [= <-]; lia | intros _; repeat split; discriminate].
    + rewrite to_Q_sign, to_Q_le_one.
      change (-2 - Z.min (-2) 0) with 0. change (0 - Z.min (-2) 0) with 2.
      change (10 ^ 0) with 1. change (10 ^ 2) with 100. split.
      * intros (_ & H0 & H1) c' [= <-]. lia.
      * intros H. specialize (H c eq_refl). repeat split; lia.
  - split; [intros _ c [=] | intros _; repeat split; discriminate].
Qed.

(** X13: the market that the Kalshi adapter builds passes [isValidMarket]
    exactly when the ticker and the title are not empty and each ask that is
    present lies between 0 and 100 cents. *)
Theorem kalshi_isValidMarket (parseDate : string -> JsDate)
    (market : KalshiAdapter.KalshiMarket) :
  isValidMarket (KalshiAdapter.toStandardMarket parseDate market) = true
  <-> KalshiAdapter.ticker market <> EmptyString
      /\ KalshiAdapter.k_title market <> EmptyString
      /\ (forall c, KalshiAdapter.yes_ask market = Some c -> 0 <= c <= 100)
      /\ (forall c, KalshiAdapter.no_ask market = Some c -> 0 <= c <= 100).
Proof.
  unfold isValidMarket, KalshiAdapter.toStandardMarket.
  cbn [id title outcomes length forallb price].
  rewrite <- !cents_valid. rewrite !andb_true_iff, !length_pos_iff.
  cbn. intuition.
Qed.

(** Dividing an amount of fewer than 21 digits by 100 rounds nothing
    away. *)
Lemma dividedBy_100_exact l :
  l <> 0 -> Z.abs l < 10 ^ 20 ->
  exists c e,
    dividedBy (of_Z l) (of_Z 100) = Fin c e /\ (to_Q (Fin c e) == l # 100)%Q.
Proof.
  intros Hl Hb. unfold dividedBy, of_Z.
  change (100 =? 0) with false. cbv iota.
  destruct (Z.eqb_spec l 0) as [|_]; [contradiction|].
  unfold div_fin. change (Z.abs 100) with 100. change (Z.sgn 100) with 1.
  set (n := Z.abs l) in *.
  assert (Hn : 0 < n) by (unfold n; lia).
  destruct (ndigits_spec n Hn) as (Hd1 & Hlo & _).
  assert (Hd20 : ndigits n <= 20).
  { destruct (Z_lt_le_dec 20 (ndigits n)) as [Hgt|]; [|lia].
    exfalso. assert (10 ^ 20 <= 10 ^ (ndigits n - 1)) by (apply Z.pow_le_mono_r; lia). lia. }
  assert (Hs : 2 <= div_scale n 100).
  { unfold div_scale. change (ndigits 100) with 3. unfold precision.
    destruct (_ <? _); lia. }
  set (s := div_scale n 100) in *.
  rewrite (Z.max_l s 0), (Z.max_r (- s) 0) by lia.
  change (10 ^ 0) with 1. rewrite Z.mul_1_r.
  assert (Hpow : 10 ^ s = 10 ^ (s - 2) * 100).
  { replace s with ((s - 2) + 2) at 1 by lia. rewrite pow10_add by lia. reflexivity. }
  rewrite Hpow, Z.mul_assoc.
  pose proof (pow10_gt0 (s - 2) ltac:(lia)) as Hp2.
  rewrite half_up_exact by nia.
  eexists _, _. split; [reflexivity|].
  unfold to_Q, Qeq. cbn [Qnum Qden].
  rewrite (Z.max_r (0 - 0 - s) 0), (Z.max_l (- (0 - 0 - s)) 0) by lia.
  rewrite Z2Pos.id by (apply pow10_gt0; lia).
  replace (- (0 - 0 - s)) with s by lia. rewrite Hpow.
  change (10 ^ 0) with 1. change (Z.pos 100) with 100.
  assert (E : Z.sgn l * n = l) by (unfold n; lia).
  replace (Z.sgn l * (n * 10 ^ (s - 2)) * 1 * 100)
    with ((Z.sgn l * n) * (10 ^ (s - 2) * 100)) by ring.
  now rewrite E.
Qed.

(** X14: the Kalshi adapter leaves [liquidity] undefined when the payload
    has none or has 0, and otherwise stores the amount of cents divided by
    100 exactly, for whole amounts below 2^53 (those a JavaScript number
    holds exactly). *)
Theorem kalshi_liquidity_dollars (parseDate : string -> JsDate)
    (market : KalshiAdapter.KalshiMarket) :
  let m := KalshiAdapter.toStandardMarket parseDate market in
  (KalshiAdapter.k_liquidity market = None \/ KalshiAdapter.k_liquidity market = Some 0 ->
   liquidity m = None)
  /\ (forall l,
        KalshiAdapter.k_liquidity market = Some l -> l <> 0 -> Z.abs l < 2 ^ 53 ->
        exists c e, liquidity m = Some (Fin c e) /\ (to_Q (Fin c e) == l # 100)%Q).
Proof.
  cbv zeta. unfold KalshiAdapter.toStandardMarket. cbn [liquidity]. split.
  - intros [-> | ->]; reflexivity.
  - intros l -> Hl Hb. destruct (Z.eqb_spec l 0) as [|_]; [contradiction|].
    assert (Hb' : Z.abs l < 10 ^ 20).
    { change (2 ^ 53) with 9007199254740992 in Hb.
      change (10 ^ 20) with 100000000000000000000. lia. }
    destruct (dividedBy_100_exact l Hl Hb') as (c & e & -> & Hq). eauto.
Qed.

End MarketValidity.

(** ** Matcher and helpers: text and dates *)

Module TextFacts.
Import JsString Helpers MarketMatcher MatcherFacts.

Lemma chars_append (s t : string) :
  String.list_ascii_of_string (s +:+ t) = String.list_ascii_of_string s ++ String.list_ascii_of_string t.
Proof.
  induction s as [|c s IH]; [reflexivity|].
  change (String c s +:+ t) with (String c (s +:+ t)).
  cbn [String.list_ascii_of_string app]. now rewrite IH.
Qed.

Lemma chars_map_chars f s c :
  In c (String.list_ascii_of_string (map_chars f s)) ->
  exists c0, In c0 (String.list_ascii_of_string s) /\ c = f c0.
Proof.
  induction s as [|c1 s IH]; cbn; [intros []|].
  intros [<- | H]; [eauto|]. destruct (IH H) as (c0 & H0 & E). eauto.
Qed.

Lemma length_map_chars f s : String.length (map_chars f s) = String.length s.
Proof. induction s as [|c s IH]; cbn; [reflexivity | now rewrite IH]. Qed.

(** The pieces of [split] hold units of the piece being read and units of
    the text that are not white space. *)
Lemma split_ws_aux_chars s :
  forall cur in_ws w c,
    In w (split_ws_aux s cur in_ws) ->
    In c (String.list_ascii_of_string w) ->
    In c (String.list_ascii_of_string cur)
    \/ (In c (String.list_ascii_of_string s) /\ is_space c = false).
Proof.
  induction s as [|c1 s IH]; intros cur in_ws w c; cbn [split_ws_aux].
  - intros [<- | []] Hc. now left.
  - destruct (is_space c1) eqn:Hsp.
    + destruct in_ws.
      * intros Hw Hc. destruct (IH _ _ _ _ Hw Hc) as [H | [H1 H2]]; [now left|].
        right. split; [now right | exact H2].
      * intros [<- | Hw] Hc; [now left|].
        destruct (IH _ _ _ _ Hw Hc) as [[] | [H1 H2]].
        right. split; [now right | exact H2].
    + intros Hw Hc. destruct (IH _ _ _ _ Hw Hc) as [H | [H1 H2]].
      * rewrite chars_append in H. apply in_app_or in H as [H | [<- | []]]; [now left|].
        right. split; [now left | exact Hsp].
      * right. split; [now right | exact H2].
Qed.

Lemma keyword_unit c :
  let c' := lower_char c in
  let u := if is_word c' || is_space c' then c' else " "%char in
  is_space u = false -> is_word u = true /\ in_range 65 90 u = false.
Proof.
  destruct c as [[] [] [] [] [] [] [] []]; vm_compute; intros H;
    first [discriminate H | split; reflexivity].
Qed.

Lemma lower_char_idem c : lower_char (lower_char c) = lower_char c.
Proof. destruct c as [[] [] [] [] [] [] [] []]; reflexivity. Qed.

Lemma toLowerCase_idem s : toLowerCase (toLowerCase s) = toLowerCase s.
Proof.
  unfold toLowerCase. induction s as [|c s IH]; cbn; [reflexivity|].
  now rewrite lower_char_idem, IH.
Qed.

(** X15: every keyword of a title is longer than two characters, is no stop
    word, and is made of lower-case letters, digits and underscores only;
    and the keywords do not depend on the case of the title. *)
Theorem extractKeywords_alphabet (title w : string) :
  (In w (extractKeywords title) ->
   (2 < String.length w)%nat
   /\ ~ In w stopWords
   /\ forall c, In c (String.list_ascii_of_string w) ->
        is_word c = true /\ in_range 65 90 c = false)
  /\ extractKeywords (toLowerCase title) = extractKeywords title.
Proof.
  split.
  - intros Hw. apply extractKeywords_spec in Hw as (Htok & Hlen & Hstop).
    split; [exact Hlen | split; [exact Hstop|]].
    intros c Hc. unfold tokens, split_ws in Htok.
    destruct (split_ws_aux_chars _ _ _ _ _ Htok Hc) as [[] | [Hin Hsp]].
    unfold replace_punct in Hin.
    apply chars_map_chars in Hin as (c1 & Hin1 & ->).
    unfold toLowerCase in Hin1. apply chars_map_chars in Hin1 as (c0 & _ & ->).
    now apply keyword_unit.
  - unfold extractKeywords. now rewrite toLowerCase_idem.
Qed.

Lemma endDatesApart_sym a b : endDatesApart a b -> endDatesApart b a.
Proof.
  intros (ta & tb & E1 & E2 & H). exists tb, ta. repeat split; try assumption. lia.
Qed.

Lemma shareKeyword_sym a b : shareKeyword a b -> shareKeyword b a.
Proof. intros (w & H1 & H2). exists w. auto. Qed.

(** X16: the pre-filter of the matcher treats the two markets alike:
    [a] is a candidate for [b] exactly when [b] is a candidate for [a]. *)
Theorem preFilter_symmetric (a b : StandardMarket) : preFilter a b = preFilter b a.
Proof.
  assert (H : forall x y, preFilter x y = true -> preFilter y x = true).
  { intros x y Hxy. apply preFilter_spec in Hxy as (H1 & H2 & H3).
    apply preFilter_spec. split; [| split; [now apply shareKeyword_sym | now symmetry]].
    intros Hyx. apply H1. now apply endDatesApart_sym. }
  destruct (preFilter a b) eqn:Eab, (preFilter b a) eqn:Eba; try reflexivity.
  - apply H in Eab. congruence.
  - apply H in Eba. congruence.
Qed.

Lemma length_trimStart s : (String.length (trimStart s) <= String.length s)%nat.
Proof.
  induction s as [|c s IH]; cbn; [lia|]. destruct (is_space c); cbn; lia.
Qed.

Lemma length_trimEnd s : (String.length (trimEnd s) <= String.length s)%nat.
Proof.
  induction s as [|c s IH]; cbn; [lia|].
  destruct (trimEnd s); [destruct (is_space c)|]; cbn in *; lia.
Qed.

Lemma length_collapse_ws s in_ws :
  (String.length (collapse_ws s in_ws) <= String.length s)%nat.
Proof.
  revert in_ws. induction s as [|c s IH]; intros in_ws; cbn; [lia|].
  destruct (is_space c); [destruct in_ws|]; cbn;
    [specialize (IH true) | specialize (IH true) | specialize (IH false)]; lia.
Qed.

Lemma length_filter_chars keep s :
  (String.length (filter_chars keep s) <= String.length s)%nat.
Proof.
  induction s as [|c s IH]; cbn; [lia|]. destruct (keep c); cbn; lia.
Qed.

Lemma chars_filter_chars keep s c :
  In c (String.list_ascii_of_string (filter_chars keep s)) ->
  In c (String.list_ascii_of_string s) /\ keep c = true.
Proof.
  induction s as [|c1 s IH]; cbn; [intros []|].
  destruct (keep c1) eqn:E; cbn.
  - intros [<- | H]; [split; [now left | exact E]|].
    destruct (IH H). split; [now right | assumption].
  - intros H. destruct (IH H). split; [now right | assumption].
Qed.

Lemma chars_collapse_ws s in_ws c :
  In c (String.list_ascii_of_string (collapse_ws s in_ws)) ->
  c = " "%char \/ is_space c = false.
Proof.
  revert in_ws. induction s as [|c1 s IH]; intros in_ws; cbn; [intros []|].
  destruct (is_space c1) eqn:E.
  - destruct in_ws; cbn.
    + apply IH.
    + intros [<- | H]; [now left | eapply IH, H].
  - cbn. intros [<- | H]; [now right | eapply IH, H].
Qed.

Lemma sanitized_unit c :
  is_kept c = true -> c = " "%char \/ is_space c = false ->
  let u := lower_char c in
  (in_range 97 122 u || in_range 48 57 u || (code u =? 95)
   || (code u =? 32) || (code u =? 63) || (code u =? 33)
   || (code u =? 36) || (code u =? 37)) = true.
Proof.
  destruct c as [[] [] [] [] [] [] [] []]; vm_compute; intros H1 [H2|H2];
    first [reflexivity | discriminate H1 | discriminate H2].
Qed.

(** X17: [sanitizeTitle] returns a text of lower-case letters, digits,
    underscores, spaces and the signs [?], [!], [$] and [%] only, and never a
    longer text than the title. *)
Theorem sanitizeTitle_alphabet (title : string) :
  (forall c, In c (String.list_ascii_of_string (sanitizeTitle title)) ->
     (in_range 97 122 c || in_range 48 57 c || (code c =? 95)
      || (code c =? 32) || (code c =? 63) || (code c =? 33)
      || (code c =? 36) || (code c =? 37)) = true)
  /\ (String.length (sanitizeTitle title) <= String.length title)%nat.
Proof.
  unfold sanitizeTitle. split.
  - intros c Hc. unfold toLowerCase in Hc.
    apply chars_map_chars in Hc as (c1 & Hc1 & ->).
    apply chars_filter_chars in Hc1 as [Hc1 Hkept].
    apply chars_collapse_ws in Hc1.
    now apply sanitized_unit.
  - unfold toLowerCase, trim. rewrite length_map_chars.
    pose proof (length_filter_chars is_kept (collapse_ws (trimEnd (trimStart title)) false)).
    pose proof (length_collapse_ws (trimEnd (trimStart title)) false).
    pose proof (length_trimEnd (trimStart title)).
    pose proof (length_trimStart title). lia.
Qed.

(** X18: [daysDifference] does not depend on the order of the dates, is NaN
    exactly when one of them is invalid, is otherwise non-negative and zero
    only for equal dates, and is the difference that the matcher
    computes. *)
Theorem daysDifference_spec (date1 date2 : JsDate) :
  daysDifference date1 date2 = daysDifference date2 date1
  /\ (daysDifference date1 date2 = None <-> date1 = InvalidDate \/ date2 = InvalidDate)
  /\ (forall d, daysDifference date1 date2 = Some d ->
        (0 <= d)%Q /\ ((d == 0)%Q <-> date1 = date2))
  /\ daysDiff date1 date2 = daysDifference date1 date2.
Proof.
  destruct date1 as [t1|], date2 as [t2|]; cbn.
  - split; [f_equal; f_equal; lia|]. split; [split; [discriminate | intros [H|H]; discriminate H]|].
    split; [|reflexivity].
    intros d [= <-]. unfold Qle, Qeq. cbn. split; [lia|].
    split; [intros H; f_equal; lia | intros [= ->]; lia].
  - split; [reflexivity|]. split; [split; auto|]. split; [intros d H; discriminate H | reflexivity].
  - split; [reflexivity|]. split; [split; auto|]. split; [intros d H; discriminate H | reflexivity].
  - split; [reflexivity|]. split; [split; auto|]. split; [intros d H; discriminate H | reflexivity].
Qed.

End TextFacts.

(** ** Cache and its keys *)

Module CacheFacts.

(** X19: [Cache.set] never throws.  With redis up, the value written is what
    [get] returns and [exists] sees, other keys read as before, and the key
    is gone after [delete], after its expiry and after [clear].  With redis
    down nothing is stored, [get] returns null, [exists] returns false, and
    [delete] and [clear] return without a change. *)
Theorem cache_round_trip (env : Env) (key : string) (value : CacheValue) (ttl : Z)
    (w : World) :
  let w1 := snd (Cache.set env key value ttl w) in
  fst (Cache.set env key value ttl w) = inl tt
  /\ (redisUp env = true ->
      fst (Cache.get env key w1) = inl (Some value)
      /\ fst (Cache.exists_ env key w1) = inl true
      /\ (forall other, other <> key ->
            fst (Cache.get env other w1) = fst (Cache.get env other w))
      /\ fst (Cache.get env key (snd (Cache.delete env key w1))) = inl None
      /\ fst (Cache.exists_ env key (snd (Cache.delete env key w1))) = inl false
      /\ fst (Cache.get env key (expire key w1)) = inl None
      /\ (forall k, fst (Cache.get env k (snd (Cache.clear env w1))) = inl None))
  /\ (redisUp env = false ->
      cache w1 = cache w
      /\ (forall k, fst (Cache.get env k w) = inl None
                    /\ fst (Cache.exists_ env k w) = inl false
                    /\ fst (Cache.delete env k w) = inl tt
                    /\ cache (snd (Cache.delete env k w)) = cache w)
      /\ fst (Cache.clear env w) = inl tt
      /\ cache (snd (Cache.clear env w)) = cache w).
Proof.
  cbv zeta. unfold Cache.set, Cache.get, Cache.exists_, Cache.delete, Cache.clear, expire.
  destruct (redisUp env); cbn.
  - split; [reflexivity|]. split; [|discriminate]. intros _.
    rewrite lookup_insert_eq, lookup_delete_eq. cbn.
    repeat (split; [reflexivity|]). split; [| repeat (split; [reflexivity|])].
    + intros other Hne. now rewrite lookup_insert_ne by congruence.
    + intros k. now rewrite lookup_empty.
  - split; [reflexivity|]. split; [discriminate|]. intros _. repeat split.
Qed.

Lemma append_colon_inj a : forall a' b b',
  CacheKeys.noColon a -> CacheKeys.noColon a' ->
  a +:+ ":" +:+ b = a' +:+ ":" +:+ b' -> a = a' /\ b = b'.
Proof.
  unfold CacheKeys.noColon.
  induction a as [|c a IH]; intros [|c' a'] b b' Ha Ha' E.
  - injection E as E. auto.
  - change (String c' a' +:+ ":" +:+ b') with (String c' (a' +:+ ":" +:+ b')) in E.
    change ("" +:+ ":" +:+ b) with (String ":" b) in E.
    injection E as <- _. exfalso. apply Ha'. now left.
  - change (String c a +:+ ":" +:+ b) with (String c (a +:+ ":" +:+ b)) in E.
    change ("" +:+ ":" +:+ b') with (String ":" b') in E.
    injection E as -> _. exfalso. apply Ha. now left.
  - change (String c a +:+ ":" +:+ b) with (String c (a +:+ ":" +:+ b)) in E.
    change (String c' a' +:+ ":" +:+ b') with (String c' (a' +:+ ":" +:+ b')) in E.
    injection E as -> E.
    destruct (IH a' b b') as [-> ->]; auto.
    + intros H. apply Ha. now right.
    + intros H. apply Ha'. now right.
Qed.

(** X20: the cooldown key of a pair of market ids determines the pair when
    the ids of the first markets hold no colon, but not in general
    ([a:b], [c] and [a], [b:c] share a key); it is never the key of a
    market list, of the latest opportunities or of a scan result. *)
Theorem alertSent_injective (a b a' b' : string) :
  (CacheKeys.noColon a -> CacheKeys.noColon a' ->
   CacheKeys.alertSent a b = CacheKeys.alertSent a' b' -> a = a' /\ b = b')
  /\ CacheKeys.alertSent "a:b" "c" = CacheKeys.alertSent "a" "b:c"
  /\ (forall p, CacheKeys.alertSent a b <> CacheKeys.markets p)
  /\ CacheKeys.alertSent a b <> CacheKeys.opportunities
  /\ (forall s, CacheKeys.alertSent a b <> CacheKeys.scanResults s).
Proof.
  split; [| split; [reflexivity | split; [| split]]].
  - intros Ha Ha' E. unfold CacheKeys.alertSent in E.
    injection E as E. now apply append_colon_inj.
  - intros p. unfold CacheKeys.markets, CacheKeys.alertSent. cbv [String.append]. discriminate.
  - unfold CacheKeys.alertSent, CacheKeys.opportunities. cbv [String.append]. discriminate.
  - intros s. unfold CacheKeys.alertSent, CacheKeys.scanResults. cbv [String.append]. discriminate.
Qed.

End CacheFacts.

(** ** Alert dispatcher: pacing, provenance, cooldown *)

Module AlertPacing.
Import Alerts AlertFacts QueueFacts.

Lemma sleepsOf_app tr tr' : sleepsOf (tr ++ tr') = sleepsOf tr ++ sleepsOf tr'.
Proof. apply omap_app. Qed.

Lemma sleepsOf_logs logs : Forall (eq EvLogError) logs -> sleepsOf logs = [].
Proof. induction 1 as [|ev logs <- _ IH]; [reflexivity | exact IH]. Qed.

(** One call of [sendArbitrageAlert] adds to the trace at most one POST and
    no pause, and with alerts disabled nothing at all. *)
Lemma sendArbitrageAlert_adds cfg env o w :
  exists new,
    trace (snd (sendArbitrageAlert cfg env o w)) = trace w ++ new
    /\ sleepsOf new = []
    /\ (length (posts new) <= 1)%nat
    /\ (enabled cfg = false -> new = [] /\ cache (snd (sendArbitrageAlert cfg env o w)) = cache w).
Proof.
  destruct (sendArbitrageAlert_outcome cfg env o w) as (_ & Hcall & Hoff & _).
  destruct Hcall as [Hsame | logs Hurl Hc Hne Hlogs Ht | r logs Hr Hc Hlogs Ht
                    | Hup Hc Ht | Hdown Hc Ht].
  - exists []. rewrite Hsame, app_nil_r. repeat split; cbn; lia.
  - exists logs. split; [exact Ht|]. split; [now apply sleepsOf_logs|].
    split; [rewrite posts_logs by assumption; cbn; lia|].
    intros Hen. specialize (Hoff Hen). rewrite Hoff in Ht.
    rewrite <- (app_nil_r (trace w)) in Ht at 1. apply app_inv_head in Ht. congruence.
  - eexists. split; [exact Ht|]. rewrite sleepsOf_app, posts_app.
    rewrite sleepsOf_logs, posts_logs by assumption. cbn.
    split; [reflexivity | split; [lia|]].
    intros Hen. specialize (Hoff Hen). rewrite Hoff in Ht.
    rewrite <- (app_nil_r (trace w)) in Ht at 1. apply app_inv_head in Ht.
    destruct logs; discriminate Ht.
  - eexists. split; [exact Ht|]. cbn. split; [reflexivity | split; [lia|]].
    intros Hen. specialize (Hoff Hen). rewrite Hoff in Ht.
    rewrite <- (app_nil_r (trace w)) in Ht at 1. apply app_inv_head in Ht. discriminate Ht.
  - eexists. split; [exact Ht|]. cbn. split; [reflexivity | split; [lia|]].
    intros Hen. specialize (Hoff Hen). rewrite Hoff in Ht.
    rewrite <- (app_nil_r (trace w)) in Ht at 1. apply app_inv_head in Ht. discriminate Ht.
Qed.

Lemma sendAlerts_loop_adds cfg env total opps :
  forall w,
    fst (sendAlerts_loop cfg env total opps w) = inl tt
    /\ exists new,
         trace (snd (sendAlerts_loop cfg env total opps w)) = trace w ++ new
         /\ sleepsOf new
            = repeat 2000 (if (1 <? total)%nat then length opps else 0%nat)
         /\ (length (posts new) <= length opps)%nat
         /\ (enabled cfg = false ->
             posts new = []
             /\ cache (snd (sendAlerts_loop cfg env total opps w)) = cache w).
Proof.
  induction opps as [|o rest IH]; intros w.
  - split; [reflexivity|]. exists []. rewrite app_nil_r. cbn [length].
    destruct (1 <? total)%nat; cbn; repeat split; try reflexivity; lia.
  - rewrite sendAlerts_loop_cons. cbv zeta.
    destruct (sendArbitrageAlert_adds cfg env o w) as (new1 & Ht1 & Hs1 & Hp1 & Hoff1).
    set (w1 := snd (sendArbitrageAlert cfg env o w)) in *.
    set (w2 := if (1 <? total)%nat
               then mkWorld (cache w1) (trace w1 ++ [EvSleep 2000]) else w1).
    destruct (IH w2) as (Hres & new2 & Ht2 & Hs2 & Hp2 & Hoff2).
    split; [exact Hres|].
    exists (new1 ++ (if (1 <? total)%nat then [EvSleep 2000] else []) ++ new2).
    split; [| split; [| split]].
    + rewrite Ht2. unfold w2. destruct (1 <? total)%nat; cbn [trace].
      * rewrite Ht1, <- !app_assoc. reflexivity.
      * rewrite Ht1, <- !app_assoc. reflexivity.
    + rewrite !sleepsOf_app, Hs1, Hs2. destruct (1 <? total)%nat; reflexivity.
    + rewrite !posts_app. rewrite !length_app.
      destruct (1 <? total)%nat; cbn; lia.
    + intros Hen. destruct (Hoff1 Hen) as [-> Hc1]. destruct (Hoff2 Hen) as [Hp Hc2].
      rewrite !posts_app, Hp. split.
      * destruct (1 <? total)%nat; reflexivity.
      * rewrite Hc2. unfold w2. destruct (1 <? total)%nat; exact Hc1.
Qed.

Lemma sendArbitrageAlert_posts_own cfg env o w :
  exists new,
    trace (snd (sendArbitrageAlert cfg env o w)) = trace w ++ new
    /\ Forall (postFor o) (posts new).
Proof.
  destruct (sendArbitrageAlert_outcome cfg env o w) as (_ & Hcall & _).
  destruct Hcall as [Hsame | logs Hurl Hc Hne Hlogs Ht | r logs Hr Hc Hlogs Ht
                    | Hup Hc Ht | Hdown Hc Ht].
  - exists []. rewrite Hsame, app_nil_r. split; [reflexivity | constructor].
  - exists logs. split; [exact Ht|]. rewrite posts_logs by assumption. constructor.
  - eexists. split; [exact Ht|]. rewrite posts_app, posts_logs by assumption.
    cbn. repeat constructor. now exists r.
  - eexists. split; [exact Ht|]. cbn. repeat constructor. now exists PostOk.
  - eexists. split; [exact Ht|]. cbn. repeat constructor. now exists PostOk.
Qed.

Lemma sendAlerts_loop_posts_own cfg env total opps :
  forall w,
  exists new,
    trace (snd (sendAlerts_loop cfg env total opps w)) = trace w ++ new
    /\ Forall (fun ev => exists o, In o opps /\ postFor o ev) (posts new).
Proof.
  induction opps as [|o rest IH]; intros w.
  - exists []. rewrite app_nil_r. split; [reflexivity | constructor].
  - rewrite sendAlerts_loop_cons. cbv zeta.
    destruct (sendArbitrageAlert_posts_own cfg env o w) as (new1 & Ht1 & Hp1).
    set (w1 := snd (sendArbitrageAlert cfg env o w)) in *.
    set (w2 := if (1 <? total)%nat
               then mkWorld (cache w1) (trace w1 ++ [EvSleep 2000]) else w1).
    destruct (IH w2) as (new2 & Ht2 & Hp2).
    exists (new1 ++ (if (1 <? total)%nat then [EvSleep 2000] else []) ++ new2).
    split.
    + rewrite Ht2. unfold w2. destruct (1 <? total)%nat; cbn [trace];
        rewrite Ht1, <- !app_assoc; reflexivity.
    + rewrite !posts_app. apply Forall_app. split; [| apply Forall_app; split].
      * eapply Forall_impl; [exact Hp1|]. intros ev Hev. exists o. split; [now left | exact Hev].
      * destruct (1 <? total)%nat; constructor.
      * eapply Forall_impl; [exact Hp2|]. intros ev (o' & Hin & Hev).
        exists o'. split; [now right | exact Hev].
Qed.

(** What [sendAlerts] adds to the trace. *)
Lemma sendAlerts_adds cfg env opps w :
  fst (sendAlerts cfg env opps w) = inl tt
  /\ exists new,
       trace (snd (sendAlerts cfg env opps w)) = trace w ++ new
       /\ sleepsOf new
          = repeat 2000 (if (1 <? length opps)%nat then length opps else 0%nat)
       /\ (length (posts new) <= length opps)%nat
       /\ Forall (fun ev => exists o, In o opps /\ postFor o ev) (posts new)
       /\ (enabled cfg = false ->
           posts new = [] /\ cache (snd (sendAlerts cfg env opps w)) = cache w).
Proof.
  destruct opps as [|o rest].
  - cbn. split; [reflexivity|]. exists []. rewrite app_nil_r.
    repeat split; cbn; try lia; constructor.
  - unfold sendAlerts.
    destruct (sendAlerts_loop_adds cfg env (length (o :: rest)) (o :: rest) w)
      as (Hres & new & Ht & Hs & Hlen & Hoff).
    destruct (sendAlerts_loop_posts_own cfg env (length (o :: rest)) (o :: rest) w)
      as (new' & Ht' & Hp').
    rewrite Ht in Ht'. apply app_inv_head in Ht'. subst new'.
    split; [exact Hres|]. exists new. auto.
Qed.

(** X21: [sendAlerts] never throws and does nothing on an empty list.
    Given one opportunity it does not pause; given several it pauses 2000 ms
    after each of them, the last included.  It makes no more POSTs than it
    has opportunities, each for an opportunity of its list, and with alerts
    disabled it posts nothing and leaves the cache as it was. *)
Theorem sendAlerts_pacing (cfg : AlertConfig) (env : Env)
    (opps : list ArbitrageOpportunity) (w : World) :
  let w' := snd (sendAlerts cfg env opps w) in
  fst (sendAlerts cfg env opps w) = inl tt
  /\ (opps = [] -> w' = w)
  /\ exists new,
       trace w' = trace w ++ new
       /\ sleepsOf new
          = repeat 2000 (if (1 <? length opps)%nat then length opps else 0%nat)
       /\ (length (posts new) <= length opps)%nat
       /\ Forall (fun ev => exists o, In o opps /\ postFor o ev) (posts new)
       /\ (enabled cfg = false -> posts new = [] /\ cache w' = cache w).
Proof.
  cbv zeta. destruct (sendAlerts_adds cfg env opps w) as (Hres & new & H).
  split; [exact Hres | split; [intros ->; reflexivity|]]. exists new. exact H.
Qed.

(** X22: with alerts enabled, a webhook configured and no cooldown entry
    for the pair (or redis down), [sendArbitrageAlert] makes exactly one
    POST for the pair; the cooldown entry is written, with a TTL of
    [cooldownMinutes * 60] seconds, only when the POST succeeded and redis
    is up: a rejected or failed POST leaves the cache as it was. *)
Theorem sendArbitrageAlert_due (cfg : AlertConfig) (env : Env)
    (opportunity : ArbitrageOpportunity) (w : World) :
  let idA := id (oppMarketA opportunity) in
  let idB := id (oppMarketB opportunity) in
  let key := CacheKeys.alertSent idA idB in
  let result := webhook env (length (posts (trace w))) in
  let w' := snd (sendArbitrageAlert cfg env opportunity w) in
  enabled cfg = true ->
  discordWebhook cfg <> EmptyString ->
  redisUp env = false \/ cache w !! key = None ->
  posts (trace w') = posts (trace w) ++ [EvPost idA idB result]
  /\ (result = PostOk -> redisUp env = true ->
      cache w' = <[key := (CachedAlertMark (clock env), cooldownMinutes cfg * 60)]> (cache w))
  /\ (result <> PostOk \/ redisUp env = false -> cache w' = cache w).
Proof.
  cbv zeta. intros Hen Hurl Hdue.
  unfold sendArbitrageAlert, try_catch, isInCooldown, markAlerted, sendToDiscord,
    Cache.get, Cache.set, post, bind, ret, throw, emit, try_catch.
  rewrite Hen. cbn [negb].
  rewrite (bool_decide_eq_false_2 _ Hurl).
  set (idA := id (oppMarketA opportunity)). set (idB := id (oppMarketB opportunity)).
  set (key := CacheKeys.alertSent idA idB) in *.
  destruct w as [c tr]. cbn [cache trace] in *.
  destruct (redisUp env) eqn:Hup.
  - destruct Hdue as [Hdue|Hk]; [discriminate Hdue|].
    change (c !! key = None) in Hk.
    cbn [fst snd cache trace]. rewrite Hk. cbn -[posts].
    destruct (webhook env (length (posts tr))) eqn:Hpost; cbn -[posts]; rewrite ?Hup;
      cbn -[posts]; rewrite ?posts_app; cbn; rewrite ?app_nil_r.
    + split; [reflexivity | split; [reflexivity|]]. intros [H|H]; [now elim H | discriminate H].
    + split; [reflexivity | split; [discriminate|]]. reflexivity.
    + split; [reflexivity | split; [discriminate|]]. reflexivity.
  - cbn -[posts]. rewrite !posts_snoc_log.
    destruct (webhook env (length (posts tr))) eqn:Hpost; cbn -[posts]; rewrite ?Hup;
      cbn -[posts]; rewrite ?posts_app, ?posts_snoc_log; cbn; rewrite ?app_nil_r.
    + split; [reflexivity | split; [discriminate | reflexivity]].
    + split; [reflexivity | split; [discriminate | reflexivity]].
    + split; [reflexivity | split; [discriminate | reflexivity]].
Qed.

(** The first alert for scenario 1, with an empty cache. *)
Lemma sendArbitrageAlert_due_witness :
  let cfg := defaultAlerts "https://discord.com/api/webhooks/1/x" in
  let w' := snd (sendArbitrageAlert cfg Samples.quietEnv Samples.clearOpportunity
                   (mkWorld ∅ [])) in
  posts (trace w') = [EvPost "POLY_123" "MANI_456" PostOk]
  /\ cache w'
     = <[CacheKeys.alertSent "POLY_123" "MANI_456" := (CachedAlertMark 0, 600)]> ∅.
Proof.
  intros cfg w'.
  destruct (sendArbitrageAlert_due cfg Samples.quietEnv Samples.clearOpportunity
              (mkWorld ∅ []))
    as (Hp & Hc & _); [reflexivity | discriminate | right; apply lookup_empty |].
  split; [exact Hp | exact (Hc eq_refl eq_refl)].
Defined.

(** X23: with redis up, an opportunity that [markAlerted] marked is in
    cooldown, for [cooldownMinutes * 60] seconds, until its key expires, and
    pairs with another key are not affected; with redis down marking stores
    nothing and no opportunity is ever in cooldown.  [isInCooldown] changes
    nothing but the log. *)
Theorem cooldown_round_trip (cfg : AlertConfig) (env : Env)
    (opportunity other : ArbitrageOpportunity) (w : World) :
  let key := fun o => CacheKeys.alertSent (id (oppMarketA o)) (id (oppMarketB o)) in
  let w1 := snd (markAlerted cfg env opportunity w) in
  (redisUp env = true ->
   fst (isInCooldown env opportunity w1) = inl true
   /\ cache w1 !! key opportunity
      = Some (CachedAlertMark (clock env), cooldownMinutes cfg * 60)
   /\ (key other <> key opportunity ->
       fst (isInCooldown env other w1) = fst (isInCooldown env other w))
   /\ fst (isInCooldown env opportunity (expire (key opportunity) w1)) = inl false)
  /\ (redisUp env = false ->
      cache w1 = cache w /\ fst (isInCooldown env opportunity w1) = inl false)
  /\ snd (isInCooldown env opportunity w) = (if redisUp env then w
                                             else mkWorld (cache w) (trace w ++ [EvLogError])).
Proof.
  cbv zeta. unfold markAlerted, isInCooldown, Cache.set, Cache.get, bind, ret, emit, expire.
  destruct (redisUp env); cbn [fst snd cache trace].
  - split; [| split; [discriminate | reflexivity]]. intros _.
    rewrite lookup_insert_eq, lookup_delete_eq. cbn [fmap option_fmap option_map].
    split; [reflexivity | split; [reflexivity | split; [| reflexivity]]].
    intros Hne. now rewrite lookup_insert_ne by congruence.
  - split; [discriminate | split; [| reflexivity]]. intros _. split; reflexivity.
Qed.

End AlertPacing.

(** ** Queue worker: cache hits, failures, stored results *)

Module ScanFacts.
Import Queue Alerts AlertFacts QueueFacts AlertPacing.

Lemma deserializeMarket_valid m :
  endDate m <> Some InvalidDate -> deserializeMarket m = m.
Proof.
  destruct m as [i p t o u c [[ms|]|] l]; cbn; intros H; try reflexivity. now elim H.
Qed.

Lemma deserializeMarkets_valid markets :
  Forall (fun m => endDate m <> Some InvalidDate) markets ->
  List.map deserializeMarket markets = markets.
Proof.
  induction 1 as [|m ms Hm _ IH]; [reflexivity|].
  cbn [List.map]. rewrite IH. f_equal. now apply deserializeMarket_valid.
Qed.

Lemma deserializeMarket_idem m : deserializeMarket (deserializeMarket m) = deserializeMarket m.
Proof. destruct m as [i p t o u c [[ms|]|] l]; reflexivity. Qed.

(** X24: with redis up and no cached list, [fetchMarketsWithCache] calls the
    adapter of PolyMarket or Manifold once and stores its markets for 120
    seconds; the next call for that platform returns the stored markets
    without a fetch, whatever limit it asks for, and they are the same
    markets when their end dates are valid. *)
Theorem fetchMarketsWithCache_hit (env : Env) (platformName : string) (p : Platform)
    (fetch : nat -> list StandardMarket + ScannerError) (lim lim' : nat)
    (markets : list StandardMarket) (w : World) :
  (platformName, p, fetch) = ("POLYMARKET"%string, POLYMARKET, pmFetch env)
  \/ (platformName, p, fetch) = ("MANIFOLD"%string, MANIFOLD, manifoldFetch env) ->
  redisUp env = true ->
  cache w !! CacheKeys.markets platformName = None ->
  fetch lim = inl markets ->
  let first := fetchMarketsWithCache env platformName lim w in
  let second := fetchMarketsWithCache env platformName lim' (snd first) in
  first = (inl markets,
           mkWorld (<[CacheKeys.markets platformName := (CachedMarkets markets, 120)]> (cache w))
                   (trace w ++ [ EvAdapterFetch p lim;
                                 EvCacheSet (CacheKeys.markets platformName) 120 ]))
  /\ second = (inl (List.map deserializeMarket markets), snd first)
  /\ (Forall (fun m => endDate m <> Some InvalidDate) markets -> fst second = inl markets).
Proof.
  intros Hp Hup Hmiss Hfetch. cbv zeta.
  assert (Hfirst : fetchMarketsWithCache env platformName lim w
                   = (inl markets,
                      mkWorld (<[CacheKeys.markets platformName := (CachedMarkets markets, 120)]>
                                 (cache w))
                        (trace w ++ [ EvAdapterFetch p lim;
                                      EvCacheSet (CacheKeys.markets platformName) 120 ]))).
  { unfold fetchMarketsWithCache, callAdapter, Cache.get, Cache.set, bind, ret, emit, throw.
    rewrite Hup. destruct w as [c tr]. cbn [cache trace fst snd] in *. rewrite Hmiss. cbn.
    destruct Hp as [[= -> -> ->] | [= -> -> ->]].
    - rewrite bool_decide_eq_true_2 by reflexivity. rewrite Hfetch. cbn.
      rewrite <- app_assoc. reflexivity.
    - rewrite bool_decide_eq_false_2 by discriminate.
      rewrite bool_decide_eq_true_2 by reflexivity. rewrite Hfetch. cbn.
      rewrite <- app_assoc. reflexivity. }
  rewrite Hfirst. cbn [snd].
  assert (Hsecond : fetchMarketsWithCache env platformName lim'
                      (mkWorld (<[CacheKeys.markets platformName := (CachedMarkets markets, 120)]>
                                  (cache w))
                         (trace w ++ [ EvAdapterFetch p lim;
                                       EvCacheSet (CacheKeys.markets platformName) 120 ]))
                    = (inl (List.map deserializeMarket markets),
                       mkWorld (<[CacheKeys.markets platformName := (CachedMarkets markets, 120)]>
                                  (cache w))
                         (trace w ++ [ EvAdapterFetch p lim;
                                       EvCacheSet (CacheKeys.markets platformName) 120 ]))).
  { unfold fetchMarketsWithCache, Cache.get, bind, ret, deserializeMarkets.
    rewrite Hup. cbn [cache trace fst snd]. rewrite lookup_insert_eq. reflexivity. }
  rewrite Hsecond. split; [reflexivity | split; [reflexivity|]].
  intros Hvalid. cbn [fst]. f_equal. now apply deserializeMarkets_valid.
Qed.

(** A PolyMarket with two markets: a first scan asks for one, a second one
    for two and is served the one that was stored. *)
Lemma fetchMarketsWithCache_hit_witness :
  let env := mkEnv true (fun _ => PostOk)
               (fun lim => inl (take lim [ Samples.trumpMarket;
                                           marketA Samples.clearArbitrage ]))
               (fun _ => inl []) MarketMatcher.exact_title_search 0 in
  let w1 := snd (fetchMarketsWithCache env "POLYMARKET" 1 (mkWorld ∅ [])) in
  fst (fetchMarketsWithCache env "POLYMARKET" 1 (mkWorld ∅ [])) = inl [Samples.trumpMarket]
  /\ fst (fetchMarketsWithCache env "POLYMARKET" 2 w1) = inl [Samples.trumpMarket].
Proof.
  intros env w1. subst w1.
  destruct (fetchMarketsWithCache_hit env "POLYMARKET" POLYMARKET (pmFetch env) 1 2
              [Samples.trumpMarket] (mkWorld ∅ []))
    as (Hfirst & _ & Hsecond);
    [left; reflexivity | reflexivity | apply lookup_empty | reflexivity |].
  split.
  - rewrite Hfirst. reflexivity.
  - apply Hsecond. constructor; [cbn; discriminate | constructor].
Defined.

(** The scan as a function of what its two fetches return. *)
Lemma processScanJob_steps cfg env stamp job w :
  let w0 := mkWorld (cache w) (trace w ++ [EvProgress 10]) in
  let logged := fun w' : World => mkWorld (cache w') (trace w' ++ [EvLogError]) in
  match fetchMarketsWithCache env (platformA job) (limit job) w0 with
  | (inr e, w1) => processScanJob cfg env stamp job w = (inr e, logged w1)
  | (inl marketsA, w1) =>
      match fetchMarketsWithCache env (platformB job) (limit job) w1 with
      | (inr e, w2) => processScanJob cfg env stamp job w = (inr e, logged w2)
      | (inl marketsB, w2) =>
          let matches := MarketMatcher.findMatches (fuse env) marketsA marketsB in
          exists opps,
            ArbitrageCalculator.findArbitrageOpportunities (clock env) matches = Some opps
            /\ let w3 := mkWorld (cache w2)
                           (trace w2 ++ [EvProgress 40; EvProgress 70; EvProgress 90]) in
               let w4 := snd (sendAlerts cfg env
                                (List.filter (meetsAlertThreshold cfg) opps) w3) in
               let result :=
                 mkScanResult (clock env) opps
                   (<[platformB job := length marketsB]>
                      (<[platformA job := length marketsA]> ∅))
                   (length matches) 0 in
               let w5 := snd (Cache.set env CacheKeys.opportunities
                                (CachedScanResult result) 120 w4) in
               let w6 := snd (Cache.set env (CacheKeys.scanResults (stamp (clock env)))
                                (CachedScanResult result) 3600 w5) in
               processScanJob cfg env stamp job w
               = (inl result, mkWorld (cache w6) (trace w6 ++ [EvProgress 100]))
      end
  end.
Proof.
  cbv zeta.
  set (w0 := mkWorld (cache w) (trace w ++ [EvProgress 10])).
  destruct (fetchMarketsWithCache env (platformA job) (limit job) w0)
    as [[marketsA|e] w1] eqn:EA.
  2: { unfold processScanJob, try_catch. unfold bind at 1. cbn [emit]. fold w0.
       unfold bind at 1. rewrite EA. reflexivity. }
  destruct (fetchMarketsWithCache env (platformB job) (limit job) w1)
    as [[marketsB|e] w2] eqn:EB.
  2: { unfold processScanJob, try_catch. unfold bind at 1. cbn [emit]. fold w0.
       unfold bind at 1. rewrite EA. unfold bind at 1. rewrite EB. reflexivity. }
  set (matches := MarketMatcher.findMatches (fuse env) marketsA marketsB).
  destruct (CalculatorFacts.allStrategies_total (clock env) matches) as (evaluated & Hall & _).
  assert (Hopps : ArbitrageCalculator.findArbitrageOpportunities (clock env) matches
                  = Some (List.filter isProfitable evaluated))
    by (unfold ArbitrageCalculator.findArbitrageOpportunities; now rewrite Hall).
  exists (List.filter isProfitable evaluated). split; [exact Hopps|].
  unfold processScanJob, try_catch. unfold bind at 1. cbn [emit]. fold w0.
  unfold bind at 1. rewrite EA. unfold bind at 1. rewrite EB.
  fold matches. rewrite Hopps.
  set (opps := List.filter isProfitable evaluated).
  set (alertable := List.filter (meetsAlertThreshold cfg) opps).
  unfold bind at 1. cbn [emit fst snd cache trace].
  unfold bind at 1. cbn [emit fst snd cache trace].
  unfold bind at 1. cbn [emit fst snd cache trace].
  rewrite <- !app_assoc. cbn [app].
  set (w3 := mkWorld (cache w2) (trace w2 ++ [EvProgress 40; EvProgress 70; EvProgress 90])).
  unfold bind at 1.
  assert (Halert : (match alertable with
                    | [] => ret tt
                    | _ :: _ => sendAlerts cfg env alertable
                    end) w3 = (inl tt, snd (sendAlerts cfg env alertable w3))).
  { destruct alertable as [|o rest] eqn:Ea; [reflexivity|].
    destruct (sendAlerts_adds cfg env (o :: rest) w3) as (Hres & _).
    destruct (sendAlerts cfg env (o :: rest) w3) as [r w4]. cbn in Hres. now subst r. }
  rewrite Halert.
  set (w4 := snd (sendAlerts cfg env alertable w3)).
  unfold bind at 1.
  assert (Hset : forall key value ttl w',
            Cache.set env key value ttl w' = (inl tt, snd (Cache.set env key value ttl w'))).
  { intros key value ttl w'. unfold Cache.set. destruct (redisUp env); reflexivity. }
  rewrite Hset. unfold bind at 1. cbn [resTimestamp]. rewrite Hset.
  unfold bind at 1. cbn [emit fst snd]. reflexivity.
Qed.

(** What a fetch leaves behind: nothing is posted, only the key of the
    platform can change, and nothing changes when it throws or when redis
    is down. *)
Lemma fetchMarketsWithCache_effects env name lim w :
  let r := fetchMarketsWithCache env name lim w in
  (exists new, trace (snd r) = trace w ++ new /\ posts new = [])
  /\ (forall k, k <> CacheKeys.markets name -> cache (snd r) !! k = cache w !! k)
  /\ (forall e, fst r = inr e -> cache (snd r) = cache w)
  /\ (redisUp env = false -> cache (snd r) = cache w).
Proof.
  cbv zeta.
  unfold fetchMarketsWithCache, deserializeMarkets, callAdapter, Cache.get, Cache.set, bind,
    ret, emit, throw.
  destruct w as [c tr]. cbn [cache trace].
  destruct (redisUp env) eqn:Hup.
  - cbn [fst snd cache trace].
    destruct (c !! CacheKeys.markets name) as [[[ms|r|t] ttl]|];
      cbn [fmap option_fmap option_map fst snd cache trace].
    1-3: (split; [exists []; now rewrite app_nil_r | repeat split; auto; discriminate]).
    case_bool_decide as Hpm; [|case_bool_decide as Hman].
    + destruct (pmFetch env lim) as [ms|e]; cbn [fst snd cache trace]; rewrite ?Hup;
        cbn [fst snd cache trace].
      * split; [eexists; rewrite <- app_assoc; split; reflexivity|].
        split; [intros k Hk; now rewrite lookup_insert_ne by congruence|].
        split; discriminate.
      * split; [eexists; split; reflexivity|]. repeat split; auto; discriminate.
    + destruct (manifoldFetch env lim) as [ms|e]; cbn [fst snd cache trace]; rewrite ?Hup;
        cbn [fst snd cache trace].
      * split; [eexists; rewrite <- app_assoc; split; reflexivity|].
        split; [intros k Hk; now rewrite lookup_insert_ne by congruence|].
        split; discriminate.
      * split; [eexists; split; reflexivity|]. repeat split; auto; discriminate.
    + cbn [fst snd cache trace]. rewrite ?Hup. cbn [fst snd cache trace].
      split; [eexists; split; reflexivity|].
      split; [intros k Hk; now rewrite lookup_insert_ne by congruence|].
      split; discriminate.
  - cbn [fst snd cache trace]. case_bool_decide as Hpm; [|case_bool_decide as Hman];
      cbn [fst snd cache trace].
    + destruct (pmFetch env lim) as [ms|e]; cbn [fst snd cache trace]; rewrite ?Hup;
        cbn [fst snd cache trace];
        (split; [eexists; rewrite <- ?app_assoc; split; reflexivity | repeat split; auto]).
    + destruct (manifoldFetch env lim) as [ms|e]; cbn [fst snd cache trace]; rewrite ?Hup;
        cbn [fst snd cache trace];
        (split; [eexists; rewrite <- ?app_assoc; split; reflexivity | repeat split; auto]).
    + rewrite ?Hup. cbn [fst snd cache trace].
      split; [eexists; rewrite <- ?app_assoc; split; reflexivity | repeat split; auto].
Qed.

Lemma opportunities_not_scanResults s : CacheKeys.opportunities <> CacheKeys.scanResults s.
Proof. unfold CacheKeys.opportunities, CacheKeys.scanResults. cbv [String.append]. discriminate. Qed.

(** X25: a call of [fetchMarketsWithCache] posts no alert and leaves every
    cache entry other than [markets:<platform>] as it was; when it returns,
    the cache is unchanged or holds, under that key and with TTL 120, the
    very markets it returns; when it throws, nothing was stored. *)
Theorem fetchMarketsWithCache_isolated (env : Env) (platformName : string) (lim : nat)
    (w : World) :
  let key := CacheKeys.markets platformName in
  let r := fetchMarketsWithCache env platformName lim w in
  (exists new, trace (snd r) = trace w ++ new /\ posts new = [])
  /\ (forall k, k <> key -> cache (snd r) !! k = cache w !! k)
  /\ (forall markets,
        fst r = inl markets ->
        cache (snd r) = cache w
        \/ cache (snd r) = <[key := (CachedMarkets markets, 120)]> (cache w))
  /\ (forall error, fst r = inr error -> cache (snd r) = cache w).
Proof.
  cbv zeta.
  destruct (fetchMarketsWithCache_effects env platformName lim w) as (Ht & Hk & He & _).
  split; [exact Ht | split; [exact Hk | split; [| exact He]]].
  intros markets.
  unfold fetchMarketsWithCache, deserializeMarkets, callAdapter, Cache.get, Cache.set, bind,
    ret, emit, throw.
  destruct w as [c tr]. cbn [cache trace].
  destruct (redisUp env) eqn:Hup; cbn [fst snd cache trace].
  - destruct (c !! CacheKeys.markets platformName) as [[[ms|r|t] ttl]|];
      cbn [fmap option_fmap option_map fst snd cache trace]; [auto | auto | auto |].
    case_bool_decide as Hpm; [|case_bool_decide as Hman].
    + destruct (pmFetch env lim) as [ms|e]; cbn [fst snd cache trace]; rewrite ?Hup;
        cbn [fst snd cache trace]; [| discriminate].
      intros [= <-]. now right.
    + destruct (manifoldFetch env lim) as [ms|e]; cbn [fst snd cache trace]; rewrite ?Hup;
        cbn [fst snd cache trace]; [| discriminate].
      intros [= <-]. now right.
    + cbn [fst snd cache trace]. rewrite ?Hup. cbn [fst snd cache trace].
      intros [= <-]. now right.
  - case_bool_decide as Hpm; [|case_bool_decide as Hman]; cbn [fst snd cache trace].
    + destruct (pmFetch env lim) as [ms|e]; cbn [fst snd cache trace]; rewrite ?Hup;
        cbn [fst snd cache trace]; auto.
    + destruct (manifoldFetch env lim) as [ms|e]; cbn [fst snd cache trace]; rewrite ?Hup;
        cbn [fst snd cache trace]; auto.
    + rewrite ?Hup. cbn [fst snd cache trace]. auto.
Qed.

Lemma processScanJob_result cfg env stamp job w r :
  fst (processScanJob cfg env stamp job w) = inl r ->
  resTimestamp r = clock env
  /\ Forall (fun o => isProfitable o = true) (opportunities r).
Proof.
  intros Hok.
  pose proof (processScanJob_steps cfg env stamp job w) as Hsteps. cbv zeta in Hsteps.
  destruct (fetchMarketsWithCache env (platformA job) (limit job) _)
    as [[marketsA|e] w1]; [| rewrite Hsteps in Hok; discriminate Hok].
  destruct (fetchMarketsWithCache env (platformB job) (limit job) w1)
    as [[marketsB|e] w2]; [| rewrite Hsteps in Hok; discriminate Hok].
  destruct Hsteps as (opps & Hopps & Hrun).
  rewrite Hrun in Hok. cbn [fst snd] in Hok.
  injection Hok as <-. cbn [resTimestamp opportunities].
  split; [reflexivity|].
  unfold ArbitrageCalculator.findArbitrageOpportunities in Hopps.
  destruct (ArbitrageCalculator.allStrategies _ _) as [evaluated|]; [|discriminate Hopps].
  cbn in Hopps. injection Hopps as <-.
  apply Forall_forall. intros o Ho. apply list_elem_of_In, filter_In in Ho as [_ Ho]. exact Ho.
Qed.

Lemma processScanJob_stored cfg env stamp job w r :
  fst (processScanJob cfg env stamp job w) = inl r ->
  redisUp env = true ->
  exists w4,
    snd (processScanJob cfg env stamp job w)
    = mkWorld
        (<[CacheKeys.scanResults (stamp (resTimestamp r)) := (CachedScanResult r, 3600)]>
           (<[CacheKeys.opportunities := (CachedScanResult r, 120)]> (cache w4)))
        (trace w4 ++ [ EvCacheSet CacheKeys.opportunities 120;
                       EvCacheSet (CacheKeys.scanResults (stamp (resTimestamp r))) 3600;
                       EvProgress 100 ]).
Proof.
  intros Hok Hup.
  pose proof (processScanJob_steps cfg env stamp job w) as Hsteps. cbv zeta in Hsteps.
  destruct (fetchMarketsWithCache env (platformA job) (limit job) _)
    as [[marketsA|e] w1]; [| rewrite Hsteps in Hok; discriminate Hok].
  destruct (fetchMarketsWithCache env (platformB job) (limit job) w1)
    as [[marketsB|e] w2]; [| rewrite Hsteps in Hok; discriminate Hok].
  destruct Hsteps as (opps & Hopps & Hrun).
  rewrite Hrun in Hok. rewrite Hrun. cbn [fst snd] in Hok. cbn [fst snd].
  injection Hok as <-.
  unfold Cache.set. rewrite Hup. cbn [snd cache trace resTimestamp].
  eexists. rewrite <- !app_assoc. reflexivity.
Qed.

(** X26: the result that a scan returns carries the time of the scan and
    profitable opportunities only; with redis up it is what the scan leaves
    under the key of the latest opportunities (TTL 120) and under the key of
    the scan result for its timestamp (TTL 3600), written last, before
    progress 100. *)
Theorem processScanJob_result_cached (cfg : AlertConfig) (env : Env) (stamp : Z -> string)
    (job : ScanJobData) (w : World) (r : ScanResult) :
  fst (processScanJob cfg env stamp job w) = inl r ->
  let w' := snd (processScanJob cfg env stamp job w) in
  resTimestamp r = clock env
  /\ Forall (fun o => isProfitable o = true) (opportunities r)
  /\ (redisUp env = true ->
      cache w' !! CacheKeys.opportunities = Some (CachedScanResult r, 120)
      /\ cache w' !! CacheKeys.scanResults (stamp (resTimestamp r))
         = Some (CachedScanResult r, 3600)
      /\ exists before,
           trace w' = before ++ [ EvCacheSet CacheKeys.opportunities 120;
                                  EvCacheSet (CacheKeys.scanResults (stamp (resTimestamp r)))
                                    3600;
                                  EvProgress 100 ]).
Proof.
  intros Hok. cbv zeta.
  destruct (processScanJob_result cfg env stamp job w r Hok) as [Hts Hp].
  split; [exact Hts | split; [exact Hp|]].
  intros Hup. destruct (processScanJob_stored cfg env stamp job w r Hok Hup) as [w4 ->].
  cbn [cache trace]. split; [| split].
  - rewrite lookup_insert_ne
      by (intros E; symmetry in E; now apply opportunities_not_scanResults in E).
    apply lookup_insert_eq.
  - apply lookup_insert_eq.
  - eauto.
Qed.

(** A scan of two platforms that list nothing. *)
Lemma processScanJob_result_cached_witness :
  let cfg := defaultAlerts "https://discord.com/api/webhooks/1/x" in
  let job := mkScanJob "POLYMARKET" "MANIFOLD" 200 in
  let r := mkScanResult 0 [] (<["MANIFOLD" := 0%nat]> (<["POLYMARKET" := 0%nat]> ∅))
             0 0 in
  let w' := snd (processScanJob cfg Samples.quietEnv (fun _ => "0"%string) job
                   (mkWorld ∅ [])) in
  cache w' !! CacheKeys.opportunities = Some (CachedScanResult r, 120)
  /\ cache w' !! CacheKeys.scanResults "0" = Some (CachedScanResult r, 3600).
Proof.
  intros cfg job r w'.
  destruct (processScanJob_result_cached cfg Samples.quietEnv (fun _ => "0"%string) job
              (mkWorld ∅ []) r)
    as (_ & _ & H); [vm_compute; reflexivity |].
  destruct (H eq_refl) as (H1 & H2 & _). split; [exact H1 | exact H2].
Defined.

(** X27: while the cache commands fail, [fetchMarketsWithCache] for
    PolyMarket or Manifold calls the adapter on every call, whatever the
    cache holds: it returns the adapter's markets or throws the adapter's
    error, logs the failed read (and the failed write after a fetch that
    succeeded), and stores nothing. *)
Theorem fetchMarketsWithCache_without_redis (env : Env) (platformName : string)
    (p : Platform) (fetch : nat -> list StandardMarket + ScannerError) (lim : nat)
    (w : World) :
  (platformName, p, fetch) = ("POLYMARKET"%string, POLYMARKET, pmFetch env)
  \/ (platformName, p, fetch) = ("MANIFOLD"%string, MANIFOLD, manifoldFetch env) ->
  redisUp env = false ->
  let r := fetchMarketsWithCache env platformName lim w in
  cache (snd r) = cache w
  /\ (forall markets,
        fetch lim = inl markets ->
        fst r = inl markets
        /\ trace (snd r) = trace w ++ [EvLogError; EvAdapterFetch p lim; EvLogError])
  /\ (forall error,
        fetch lim = inr error ->
        fst r = inr (OwnErr error)
        /\ trace (snd r) = trace w ++ [EvLogError; EvAdapterFetch p lim]).
Proof.
  intros Hp Hdown. cbv zeta.
  unfold fetchMarketsWithCache, deserializeMarkets, callAdapter, Cache.get, Cache.set, bind,
    ret, emit, throw.
  rewrite Hdown. destruct w as [c tr]. cbn [fst snd cache trace].
  destruct Hp as [[= -> -> ->] | [= -> -> ->]].
  - rewrite bool_decide_eq_true_2 by reflexivity.
    destruct (pmFetch env lim) as [ms|e]; cbn [fst snd cache trace]; rewrite ?Hdown;
      cbn [fst snd cache trace]; rewrite <- ?app_assoc;
      (split; [reflexivity | split; intros x [= <-] || intros x [=]; auto]).
  - rewrite bool_decide_eq_false_2 by discriminate.
    rewrite bool_decide_eq_true_2 by reflexivity.
    destruct (manifoldFetch env lim) as [ms|e]; cbn [fst snd cache trace]; rewrite ?Hdown;
      cbn [fst snd cache trace]; rewrite <- ?app_assoc;
      (split; [reflexivity | split; intros x [= <-] || intros x [=]; auto]).
Qed.

(** The cache holds a list for PolyMarket, redis does not answer. *)
Lemma fetchMarketsWithCache_without_redis_witness :
  let env := mkEnv false (fun _ => PostOk) (fun _ => inl [Samples.trumpMarket])
               (fun _ => inl []) MarketMatcher.exact_title_search 0 in
  let w := mkWorld (<[CacheKeys.markets "POLYMARKET" := (CachedMarkets [], 120)]> ∅) [] in
  let r := fetchMarketsWithCache env "POLYMARKET" 5 w in
  fst r = inl [Samples.trumpMarket] /\ cache (snd r) = cache w.
Proof.
  intros env w r.
  destruct (fetchMarketsWithCache_without_redis env "POLYMARKET" POLYMARKET (pmFetch env) 5 w)
    as (Hc & Hok & _); [left; reflexivity | reflexivity |].
  destruct (Hok [Samples.trumpMarket] eq_refl) as [Hr _].
  split; [exact Hr | exact Hc].
Defined.

Lemma posts_set env key value ttl w :
  exists ev, trace (snd (Cache.set env key value ttl w)) = trace w ++ [ev] /\ posts [ev] = [].
Proof.
  unfold Cache.set. destruct (redisUp env); cbn; eexists; split; reflexivity.
Qed.

(** The trace of a scan that returns: the alerts for the qualifying
    opportunities, between events that are no POST. *)
Lemma processScanJob_trace cfg env stamp job w r :
  fst (processScanJob cfg env stamp job w) = inl r ->
  exists before new after w3,
    trace (snd (processScanJob cfg env stamp job w)) = trace w ++ before ++ new ++ after
    /\ posts before = [] /\ posts after = []
    /\ trace (snd (sendAlerts cfg env
                     (List.filter (meetsAlertThreshold cfg) (opportunities r)) w3))
       = trace w3 ++ new.
Proof.
  intros Hok.
  pose proof (processScanJob_steps cfg env stamp job w) as Hsteps. cbv zeta in Hsteps.
  set (w0 := mkWorld (cache w) (trace w ++ [EvProgress 10])) in *.
  destruct (fetchMarketsWithCache_effects env (platformA job) (limit job) w0)
    as ((newA & HtA & HpA) & _).
  destruct (fetchMarketsWithCache env (platformA job) (limit job) w0)
    as [[marketsA|e] w1]; [| rewrite Hsteps in Hok; discriminate Hok].
  destruct (fetchMarketsWithCache_effects env (platformB job) (limit job) w1)
    as ((newB & HtB & HpB) & _).
  destruct (fetchMarketsWithCache env (platformB job) (limit job) w1)
    as [[marketsB|e] w2]; [| rewrite Hsteps in Hok; discriminate Hok].
  cbn [fst snd] in *.
  destruct Hsteps as (opps & Hopps & Hrun).
  rewrite Hrun in Hok. cbn [fst] in Hok. injection Hok as Hr.
  assert (Ho : opportunities r = opps) by (rewrite <- Hr; reflexivity).
  rewrite Hrun, Ho. cbn [snd trace]. clear Hrun Hr Ho Hopps.
  set (w3 := mkWorld (cache w2) (trace w2 ++ [EvProgress 40; EvProgress 70; EvProgress 90])).
  destruct (sendAlerts_adds cfg env (List.filter (meetsAlertThreshold cfg) opps) w3)
    as (_ & new & Ht & _).
  set (w4 := snd (sendAlerts cfg env (List.filter (meetsAlertThreshold cfg) opps) w3)) in *.
  destruct (posts_set env CacheKeys.opportunities
              (CachedScanResult (mkScanResult (clock env) opps
                 (<[platformB job := length marketsB]> (<[platformA job := length marketsA]> ∅))
                 (length (MarketMatcher.findMatches (fuse env) marketsA marketsB)) 0))
              120 w4) as (ev5 & Ht5 & Hp5).
  set (w5 := snd (Cache.set env CacheKeys.opportunities _ 120 w4)) in *.
  destruct (posts_set env (CacheKeys.scanResults (stamp (clock env)))
              (CachedScanResult (mkScanResult (clock env) opps
                 (<[platformB job := length marketsB]> (<[platformA job := length marketsA]> ∅))
                 (length (MarketMatcher.findMatches (fuse env) marketsA marketsB)) 0))
              3600 w5) as (ev6 & Ht6 & Hp6).
  exists ([EvProgress 10] ++ newA ++ newB ++ [EvProgress 40; EvProgress 70; EvProgress 90]),
    new, ([ev5] ++ [ev6] ++ [EvProgress 100]), w3.
  split; [| split; [| split; [| exact Ht]]].
  - rewrite Ht6, Ht5, Ht. unfold w3. cbn [trace]. rewrite HtB, HtA. unfold w0. cbn [trace].
    rewrite <- !app_assoc. reflexivity.
  - rewrite !posts_app, HpA, HpB. reflexivity.
  - rewrite !posts_app, Hp5, Hp6. reflexivity.
Qed.

(** X28: every alert that a scan posts is for an opportunity of the result
    it returns, a profitable one, and there are no more posts than
    opportunities in that result. *)
Theorem processScanJob_alerts_qualifying (cfg : AlertConfig) (env : Env)
    (stamp : Z -> string) (job : ScanJobData) (w : World) (r : ScanResult) :
  fst (processScanJob cfg env stamp job w) = inl r ->
  exists new,
    trace (snd (processScanJob cfg env stamp job w)) = trace w ++ new
    /\ Forall (fun ev =>
                 exists o, In o (opportunities r)
                           /\ isProfitable o = true /\ postFor o ev)
              (posts new)
    /\ (length (posts new) <= length (opportunities r))%nat.
Proof.
  intros Hok.
  destruct (processScanJob_trace cfg env stamp job w r Hok)
    as (before & new & after & w3 & Ht & Hb & Ha & Hw).
  destruct (processScanJob_result cfg env stamp job w r Hok) as [_ Hprof].
  destruct (sendAlerts_adds cfg env (List.filter (meetsAlertThreshold cfg) (opportunities r)) w3)
    as (_ & new' & Ht' & _ & Hlen & Hown & _).
  rewrite Hw in Ht'. apply app_inv_head in Ht'. subst new'.
  exists (before ++ new ++ after). split; [exact Ht|].
  rewrite !posts_app, Hb, Ha, app_nil_r. cbn [app]. split.
  - eapply Forall_impl; [exact Hown|]. intros ev (o & Hin & Hev).
    apply filter_In in Hin as [Hin _]. exists o. split; [exact Hin | split; [| exact Hev]].
    rewrite Forall_forall in Hprof. apply Hprof. now apply list_elem_of_In.
  - pose proof (List.filter_length_le (meetsAlertThreshold cfg) (opportunities r)). lia.
Qed.

(** Scenario 1 under one title on both platforms, with the thresholds of
    5 percent and 0.01 dollar. *)
Lemma processScanJob_alerts_qualifying_witness :
  let cfg := Samples.lowAmountAlerts in
  let env := mkEnv true (fun _ => PostOk)
               (fun _ => inl [ Samples.binaryMarket "POLY_123" POLYMARKET
                                 "Will Bitcoin hit $100k in 2025?"
                                 (Decimal.Fin 45 (-2)) (Decimal.Fin 55 (-2)) ])
               (fun _ => inl [ Samples.binaryMarket "MANI_456" MANIFOLD
                                 "Will Bitcoin hit $100k in 2025?"
                                 (Decimal.Fin 60 (-2)) (Decimal.Fin 38 (-2)) ])
               MarketMatcher.exact_title_search 0 in
  let w := mkWorld ∅ [] in
  let run := processScanJob cfg env (fun _ => "0"%string)
               (mkScanJob "POLYMARKET" "MANIFOLD" 200) w in
  exists r,
    fst run = inl r
    /\ exists new,
         trace (snd run) = trace w ++ new
         /\ Forall (fun ev =>
                      exists o, In o (opportunities r)
                                /\ isProfitable o = true /\ postFor o ev)
                   (posts new)
         /\ (length (posts new) <= length (opportunities r))%nat.
Proof.
  intros cfg env w run. eexists. split; [vm_compute; reflexivity |].
  apply (processScanJob_alerts_qualifying cfg env (fun _ => "0"%string)
           (mkScanJob "POLYMARKET" "MANIFOLD" 200) w).
  vm_compute. reflexivity.
Defined.

End ScanFacts.
